(** * The plugin loader of pkg/plugins/manager/loader/loader.go

    A shallow embedding of the Go loader (Load, Unload, readPluginJSON,
    stripDuplicates, setDefaultNavURL, PluginErrors and their helpers) and the
    properties of its load and unload pipelines.

    Conventions of the embedding:
    - Go strings are [string]s of bytes; the build is the unix one
      ([filepath.Separator] is "/" and [runtime.GOOS] is not "windows").
    - A Go [map[string]V] is a [gmap string V]; a [range] over it visits the
      entries in an order Go leaves unspecified, which the environment picks
      through a rank on the keys (see [rangeMap]).
    - A [*plugins.Plugin] created by one Load call is named by its plugin
      directory, the key under which [createPluginsForLoading] stores it; the
      map of loaded plugins is the store those pointers are read through.
    - The collaborators behind the Loader's interfaces (finder, signature
      validator, initializer, process manager, storage, role registry, asset
      paths, CDN service, file system, JSON decoder) are fields of [Env]. *)

From stdpp Require Import gmap strings list fin_maps sorting.
From Stdlib Require Import Ascii String.


Local Open Scope string_scope.
Local Open Scope list_scope.
Local Open Scope stdpp_scope.

(** ** Go's strings, path and path/filepath functions used by the loader *)

Module GoLib.

(** [strings.Split(s, string(sep))] for a one-byte separator. *)
Fixpoint Split (sep : ascii) (s : string) : list string :=
  match s with
  | EmptyString => [EmptyString]
  | String c r =>
      if Ascii.eqb c sep then EmptyString :: Split sep r
      else match Split sep r with
           | h :: t => String c h :: t
           | [] => [String c EmptyString]
           end
  end.

(** [strings.Join(elems, "/")]. *)
Fixpoint JoinSlash (elems : list string) : string :=
  match elems with
  | [] => ""
  | [e] => e
  | e :: rest => e +:+ "/" +:+ JoinSlash rest
  end.

(** [strings.HasPrefix]. *)
Definition HasPrefix (s p : string) : bool := String.prefix p s.

(** The element loop of [Clean]: [out] is the output buffer as a stack of
    elements (last written first). A ".." element removes the last written
    element when there is one to backtrack over; otherwise it is dropped on a
    rooted path and written on a relative one. *)
Fixpoint cleanElems (rooted : bool) (out : list string) (elems : list string)
  : list string :=
  match elems with
  | [] => rev out
  | e :: rest =>
      if String.eqb e "" then cleanElems rooted out rest
      else if String.eqb e "." then cleanElems rooted out rest
      else if String.eqb e ".." then
        match out with
        | top :: out' =>
            if String.eqb top ".." then cleanElems rooted (e :: out) rest
            else cleanElems rooted out' rest
        | [] =>
            if rooted then cleanElems rooted [] rest
            else cleanElems rooted [e] rest
        end
      else cleanElems rooted (e :: out) rest
  end.

(** [path.Clean], and [filepath.Clean] on unix. *)
Definition Clean (p : string) : string :=
  if String.eqb p "" then "."
  else
    let rooted := HasPrefix p "/" in
    let out := cleanElems rooted [] (Split "/" p) in
    if rooted then "/" +:+ JoinSlash out
    else match out with
         | [] => "."
         | _ => JoinSlash out
         end.

(** [path.Join] and [filepath.Join]: the elements from the first non-empty
    one on are joined with "/" and cleaned; no such element gives "". *)
Fixpoint Join (elem : list string) : string :=
  match elem with
  | [] => ""
  | e :: rest => if String.eqb e "" then Join rest else Clean (JoinSlash elem)
  end.

(** [filepath.IsAbs] on unix. *)
Definition IsAbs (p : string) : bool := HasPrefix p "/".

(** The part of [p] up to and including its last "/" ([path[:i+1]] in
    [filepath.Dir]); empty when there is none. *)
Fixpoint uptoLastSlash (p : string) : string :=
  match p with
  | EmptyString => ""
  | String c r =>
      let d := uptoLastSlash r in
      if String.eqb d "" then (if Ascii.eqb c "/" then "/" else "")
      else String c d
  end.

(** [filepath.Dir] on unix. *)
Definition Dir (p : string) : string := Clean (uptoLastSlash p).

(** [filepath.Ext]: the suffix of the last element from its last dot. *)
Fixpoint Ext (p : string) : string :=
  match p with
  | EmptyString => ""
  | String c r =>
      let e := Ext r in
      if String.eqb e "" then
        (if Ascii.eqb c "." then
           (if existsb (Ascii.eqb "/") (list_ascii_of_string r) then "" else p)
         else "")
      else e
  end.

(** ASCII lower case of a byte. *)
Definition lowerByte (c : ascii) : ascii :=
  let n := nat_of_ascii c in
  if (65 <=? n)%nat && (n <=? 90)%nat then ascii_of_nat (n + 32) else c.

(** [strings.EqualFold(s, t)] for an ASCII [t]. Besides the two cases of a
    letter, simple Unicode folding equates U+017F (bytes C5 BF) with "s" and
    U+212A (bytes E2 84 AA) with "k". *)
Fixpoint EqualFold (s t : string) : bool :=
  match t with
  | EmptyString => String.eqb s ""
  | String c t' =>
      match s with
      | EmptyString => false
      | String a s1 =>
          if Ascii.eqb (lowerByte a) (lowerByte c) then EqualFold s1 t'
          else
            match s1 with
            | String b s2 =>
                if Ascii.eqb a "197" && Ascii.eqb b "191"
                   && Ascii.eqb (lowerByte c) "s"
                then EqualFold s2 t'
                else
                  match s2 with
                  | String d s3 =>
                      if Ascii.eqb a "226" && Ascii.eqb b "132"
                         && Ascii.eqb d "170" && Ascii.eqb (lowerByte c) "k"
                      then EqualFold s3 t'
                      else false
                  | EmptyString => false
                  end
            | EmptyString => false
            end
      end
  end.

(** [strings.Replace(s, old, "", 1)]: the first occurrence of [old] in [s]
    is removed. *)
Fixpoint RemoveFirst (s old : string) : string :=
  if String.prefix old s
  then String.substring (String.length old) (String.length s - String.length old) s
  else match s with
       | EmptyString => ""
       | String c r => String c (RemoveFirst r old)
       end.

(** [strings.ReplaceAll(s, "\\", "/")]: every backslash becomes a slash. *)
Fixpoint BackslashToSlash (s : string) : string :=
  match s with
  | EmptyString => ""
  | String c r =>
      String (if Ascii.eqb c "092" then "/"%char else c) (BackslashToSlash r)
  end.

End GoLib.

Import GoLib.

(** ** Data model (package plugins)

    The types of package plugins that loader.go works on, with the fields it
    reads and writes. A field whose Go name is a Rocq keyword or the name of
    its own type is renamed: [Type_] for Type, [Module_] for Module, [JSON]
    for the embedded JSONData, [PluginClass] for Class, [PluginSignature] and
    [PluginSignatureError] for Signature and SignatureError, [PluginInfo],
    [PluginDependencies] and [PluginIncludes] for Info, Dependencies and
    Includes. *)

(** Modelled from the spec: plugins.Class, a Go string type with the values
    core, bundled and external. *)
Definition Class := string.
Definition Core : Class := "core".
Definition Bundled : Class := "bundled".
Definition External : Class := "external".

(** Modelled from the spec: plugins.Type, a Go string type; app and
    renderer are the two kinds loader.go tests for. *)
Definition PluginType := string.
Definition App : PluginType := "app".
Definition Renderer : PluginType := "renderer".

(** Modelled from the spec: plugins.SignatureStatus, a Go string type with
    the values valid, invalid, modified and unsigned (the zero value "" is
    what a plugin has before [createPluginsForLoading] sets it). *)
Definition SignatureStatus := string.
Definition SignatureValid : SignatureStatus := "valid".
Definition SignatureInvalid : SignatureStatus := "invalid".
Definition SignatureModified : SignatureStatus := "modified".
Definition SignatureUnsigned : SignatureStatus := "unsigned".

(** Modelled from the spec: org.RoleViewer, the default role of an include. *)
Definition RoleViewer : string := "Viewer".

(** Modelled from the spec: plugins.Signature, what the signature
    calculation returns. *)
Record Signature := mkSignature {
  sig_Status : SignatureStatus;
  sig_Type : string;
  sig_SigningOrg : string
}.

(** Modelled from the spec: plugins.SignatureError, the value of the error
    map: the plugin ID and the signature status that caused the rejection. *)
Record SignatureError := mkSignatureError {
  se_PluginID : string;
  se_SignatureStatus : SignatureStatus
}.


(** Modelled from the spec: plugins.Includes, an include of the manifest.
    The manifest holds pointers to its includes, so the loops of loader.go
    over them update the includes in place. *)
Record Includes := mkIncludes {
  inc_Name : string;
  inc_Path : string;
  inc_Type : string;
  inc_Role : string;
  inc_DefaultNav : bool;
  inc_Slug : string;
  inc_UID : string
}.

(** Modelled from the spec: plugins.Dependency. *)
Record Dependency := mkDependency {
  dep_ID : string;
  dep_Type : string;
  dep_Name : string;
  dep_Version : string
}.

(** Modelled from the spec: plugins.Dependencies. The slice [Plugins] is
    [None] when nil and [Some l] when allocated. *)
Record Dependencies := mkDependencies {
  deps_GrafanaVersion : string;
  deps_Plugins : option (list Dependency)
}.

(** Modelled from the spec: the screenshots and the info block of the
    manifest, with the logo paths [setImages] rewrites. *)
Record Screenshot := mkScreenshot {
  shot_Name : string;
  shot_Path : string
}.

Record Info := mkInfo {
  info_Version : string;
  info_LogoSmall : string;
  info_LogoLarge : string;
  info_Screenshots : list Screenshot
}.

(** Modelled from the spec: plugins.JSONData, the parsed manifest (the
    spec's ManifestData). *)
Record JSONData := mkJSONData {
  ID : string;
  Type_ : PluginType;
  Name : string;
  PluginInfo : Info;
  PluginDependencies : Dependencies;
  PluginIncludes : list Includes
}.

(** Modelled from the spec: plugins.Plugin. [Parent] and [Children] are
    pointers to plugins of the same Load call, held as their plugin
    directories. *)
Record Plugin := mkPlugin {
  JSON : JSONData;
  PluginDir : string;
  PluginClass : Class;
  BaseURL : string;
  Module_ : string;
  DefaultNavURL : string;
  IncludedInAppID : string;
  Parent : option string;
  Children : list string;
  PluginSignature : SignatureStatus;
  SignatureType : string;
  SignatureOrg : string;
  PluginSignatureError : option SignatureError
}.

(** Modelled from the spec: the class and type predicates of plugins.Plugin
    ([IsApp], [IsRenderer], [IsCorePlugin], [IsExternalPlugin]), which compare
    the plugin's type and class with the named constant. *)
Definition IsApp (p : Plugin) : bool := String.eqb (Type_ (JSON p)) App.
Definition IsRenderer (p : Plugin) : bool := String.eqb (Type_ (JSON p)) Renderer.
Definition IsCorePlugin (p : Plugin) : bool := String.eqb (PluginClass p) Core.
Definition IsExternalPlugin (p : Plugin) : bool := String.eqb (PluginClass p) External.

(** Field updates. *)
Definition setName (n : string) (d : JSONData) : JSONData :=
  mkJSONData (ID d) (Type_ d) n (PluginInfo d) (PluginDependencies d) (PluginIncludes d).
Definition setInfo (i : Info) (d : JSONData) : JSONData :=
  mkJSONData (ID d) (Type_ d) (Name d) i (PluginDependencies d) (PluginIncludes d).
Definition setDependencies (x : Dependencies) (d : JSONData) : JSONData :=
  mkJSONData (ID d) (Type_ d) (Name d) (PluginInfo d) x (PluginIncludes d).
Definition setIncludes (x : list Includes) (d : JSONData) : JSONData :=
  mkJSONData (ID d) (Type_ d) (Name d) (PluginInfo d) (PluginDependencies d) x.
Definition setRole (r : string) (i : Includes) : Includes :=
  mkIncludes (inc_Name i) (inc_Path i) (inc_Type i) r (inc_DefaultNav i)
    (inc_Slug i) (inc_UID i).
Definition setSlug (s : string) (i : Includes) : Includes :=
  mkIncludes (inc_Name i) (inc_Path i) (inc_Type i) (inc_Role i)
    (inc_DefaultNav i) s (inc_UID i).

Definition setJSON (d : JSONData) (p : Plugin) : Plugin :=
  mkPlugin d (PluginDir p) (PluginClass p) (BaseURL p) (Module_ p)
    (DefaultNavURL p) (IncludedInAppID p) (Parent p) (Children p)
    (PluginSignature p) (SignatureType p) (SignatureOrg p) (PluginSignatureError p).
Definition setSignature (s : Signature) (p : Plugin) : Plugin :=
  mkPlugin (JSON p) (PluginDir p) (PluginClass p) (BaseURL p) (Module_ p)
    (DefaultNavURL p) (IncludedInAppID p) (Parent p) (Children p)
    (sig_Status s) (sig_Type s) (sig_SigningOrg s) (PluginSignatureError p).
Definition setParent (d : string) (p : Plugin) : Plugin :=
  mkPlugin (JSON p) (PluginDir p) (PluginClass p) (BaseURL p) (Module_ p)
    (DefaultNavURL p) (IncludedInAppID p) (Some d) (Children p)
    (PluginSignature p) (SignatureType p) (SignatureOrg p) (PluginSignatureError p).
Definition addChild (d : string) (p : Plugin) : Plugin :=
  mkPlugin (JSON p) (PluginDir p) (PluginClass p) (BaseURL p) (Module_ p)
    (DefaultNavURL p) (IncludedInAppID p) (Parent p) (Children p ++ [d])
    (PluginSignature p) (SignatureType p) (SignatureOrg p) (PluginSignatureError p).
Definition setSignatureError (e : SignatureError) (p : Plugin) : Plugin :=
  mkPlugin (JSON p) (PluginDir p) (PluginClass p) (BaseURL p) (Module_ p)
    (DefaultNavURL p) (IncludedInAppID p) (Parent p) (Children p)
    (PluginSignature p) (SignatureType p) (SignatureOrg p) (Some e).
Definition setDefaultNav (u : string) (p : Plugin) : Plugin :=
  mkPlugin (JSON p) (PluginDir p) (PluginClass p) (BaseURL p) (Module_ p)
    u (IncludedInAppID p) (Parent p) (Children p)
    (PluginSignature p) (SignatureType p) (SignatureOrg p) (PluginSignatureError p).
Definition setAppChild (appID base module : string) (p : Plugin) : Plugin :=
  mkPlugin (JSON p) (PluginDir p) (PluginClass p) base module
    (DefaultNavURL p) appID (Parent p) (Children p)
    (PluginSignature p) (SignatureType p) (SignatureOrg p) (PluginSignatureError p).

(** ** Errors, results and the observable trace *)

(** Go's [error] values seen by the loader's callers. The first two are the
    sentinels of loader.go, the next two those of package plugins that Unload
    returns; [ErrExternal] is an error made by a collaborator or by the Go
    library, [ErrWrap] and [ErrWrapIdx] are [fmt.Errorf] wrappers. *)
Inductive error :=
| ErrInvalidPluginJSON
| ErrInvalidPluginJSONFilePath
| ErrPluginNotInstalled
| ErrUninstallCorePlugin
| ErrExternal (msg : string)
| ErrWrap (what : string) (e : error)
| ErrWrapIdx (what : string) (i : nat) (e : error).

(** A Go pair [(value, error)]. Collaborators fail with a message
    ([result string A]), the loader with an [error]. *)
Inductive result (X A : Type) :=
| Ok (a : A)
| Err (e : X).
Arguments Ok {X A} a.
Arguments Err {X A} e.

Inductive Level := Debug | Info_ | Warn | Error_.

(** What a Load or Unload call does to the world outside the registry and
    the error map: log lines (level, message, the plugin ID or path they are
    about) and calls to collaborators that act on a plugin. *)
Inductive Event :=
| Log (lvl : Level) (msg : string) (subject : string)
| CallInitialize (pluginID : string)
| CallSetPluginBuildInformation (pluginID : string)
| CallDeclarePluginRoles (pluginID : string)
| CallStorageRegister (pluginID : string) (dir : string)
| CallProcessStart (pluginID : string)
| CallProcessStop (pluginID : string)
| CallStorageRemove (pluginID : string).

(** The mutable state behind a [*Loader]: its registry, its error map, and
    the trace of what it has logged and called. *)
Record Loader := mkLoader {
  pluginRegistry : gmap string Plugin;
  errs : gmap string SignatureError;
  events : list Event
}.

Definition emit (e : Event) (l : Loader) : Loader :=
  mkLoader (pluginRegistry l) (errs l) (events l ++ [e]).
Definition logf (lvl : Level) (msg subject : string) (l : Loader) : Loader :=
  emit (Log lvl msg subject) l.
Definition setRegistry (r : gmap string Plugin) (l : Loader) : Loader :=
  mkLoader r (errs l) (events l).
Definition setErrs (m : gmap string SignatureError) (l : Loader) : Loader :=
  mkLoader (pluginRegistry l) m (events l).

(** ** Collaborators *)

(** The services the Loader is built from and the library calls whose
    outcome depends on the machine. Each call of Load or Unload runs against
    one environment. *)
Record Env := mkEnv {
  finder_Find : list string → result string (list string);
  os_Open : string → result string string;
  json_Decode : string → result string JSONData;
  file_Close : string → option string;
  os_Getwd : result string string;
  Type_IsValid : PluginType → bool;
  assetPath_Base : JSONData → Class → string → result string string;
  assetPath_Module : JSONData → Class → string → result string string;
  assetPath_RelativeURL : Plugin → string → string → result string string;
  pluginsCDN_PluginSupported : string → bool;
  signature_Calculate : Plugin → result string Signature;
  signatureValidator_Validate : gmap string Plugin → Plugin → option SignatureError;
  fs_Exists : string → result string bool;
  slugify_Slugify : string → string;
  includes_DashboardURLPath : Includes → string;
  util_JoinURLFragments : string → string → string;
  pluginInitializer_Initialize : Plugin → option string;
  roleRegistry_DeclarePluginRoles : Plugin → option string;
  pluginStorage_Register : string → string → option string;
  pluginStorage_Remove : string → option string;
  processManager_Start : string → option string;
  processManager_Stop : string → option string;
  signatureError_AsErrorCode : SignatureError → string;
  (** the order of each [range] over a map, by loop: 0 in [stripDuplicates],
      1 in [createPluginsForLoading], 2 in the dependency wiring, 3 in the
      validation loop, 4 in [PluginErrors] *)
  rangeRank : nat → string → nat
}.

(** ** Ranging over a map *)

Definition rank_le {V} (rank : string → nat) (a b : string * V) : Prop :=
  (rank a.1 ≤ rank b.1)%nat.

Global Instance rank_le_dec {V} rank (a b : string * V) : Decision (rank_le rank a b).
Proof. unfold rank_le. apply _. Defined.

(** The entries of [m] in the order a [range] visits them: any order of the
    keys is obtained from some [rank]. *)
Definition rangeMap {V} (rank : string → nat) (m : gmap string V)
  : list (string * V) :=
  merge_sort (rank_le rank) (map_to_list m).

(** ** The registry *)

Module Registry.

(** Modelled from the spec: registry.Service (pkg/plugins/manager/registry),
    section 4.5: [Plugins] is a snapshot, [Plugin] a lookup by ID, [Add] fails
    if the ID is already present, [Remove] fails if it is not. *)
Definition Plugins (r : gmap string Plugin) : list Plugin :=
  (map_to_list r).*2.

Definition Add (r : gmap string Plugin) (p : Plugin)
  : gmap string Plugin * option string :=
  match r !! ID (JSON p) with
  | Some _ => (r, Some "plugin is already registered")
  | None => (<[ID (JSON p) := p]> r, None)
  end.

Definition Remove (r : gmap string Plugin) (id : string)
  : gmap string Plugin * option string :=
  match r !! id with
  | Some _ => (delete id r, None)
  | None => (r, Some "plugin is not registered")
  end.

Definition Plugin (r : gmap string Plugin) (id : string) : option Plugin :=
  r !! id.

End Registry.

(** ** loader.go *)

(** The outcome of one iteration of a loop that may return from the
    enclosing function: go on with the state, or return an error with the
    Loader as it is by then. *)
Inductive step (A : Type) :=
| Continue (a : A)
| Return (l : Loader) (e : error).
Arguments Continue {A} a.
Arguments Return {A} l e.

Section LoaderCode.

Variable E : Env.

Definition validatePluginJSON (data : JSONData) : option error :=
  if String.eqb (ID data) "" || negb (Type_IsValid E (Type_ data))
  then Some ErrInvalidPluginJSON
  else None.

(** The role loop of [readPluginJSON]. *)
Definition defaultRole (include : Includes) : Includes :=
  if String.eqb (inc_Role include) "" then setRole RoleViewer include else include.

(** Lines 318 to 336 of [readPluginJSON]: what is done to the manifest once
    it has been decoded and validated. *)
Definition normalizePluginJSON (plugin : JSONData) : JSONData :=
  let plugin :=
    if String.eqb (ID plugin) "grafana-piechart-panel"
    then setName "Pie Chart (old)" plugin else plugin in
  let plugin :=
    if (List.length (default [] (deps_Plugins (PluginDependencies plugin))) =? 0)%nat
    then setDependencies
           (mkDependencies (deps_GrafanaVersion (PluginDependencies plugin)) (Some []))
           plugin
    else plugin in
  let plugin :=
    if String.eqb (deps_GrafanaVersion (PluginDependencies plugin)) ""
    then setDependencies
           (mkDependencies "*" (deps_Plugins (PluginDependencies plugin)))
           plugin
    else plugin in
  setIncludes (defaultRole <$> PluginIncludes plugin) plugin.

Definition readPluginJSON (l : Loader) (pluginJSONPath : string)
  : Loader * result error JSONData :=
  let l := logf Debug "Loading plugin" pluginJSONPath l in
  if negb (EqualFold (Ext pluginJSONPath) ".json")
  then (l, Err ErrInvalidPluginJSONFilePath)
  else
    match os_Open E pluginJSONPath with
    | Err e => (l, Err (ErrExternal e))
    | Ok reader =>
        match json_Decode E reader with
        | Err e => (l, Err (ErrExternal e))
        | Ok plugin =>
            let l :=
              match file_Close E pluginJSONPath with
              | Some _ => logf Warn "Failed to close JSON file" pluginJSONPath l
              | None => l
              end in
            match validatePluginJSON plugin with
            | Some e => (l, Err e)
            | None => (l, Ok (normalizePluginJSON plugin))
            end
        end
    end.

Definition defaultLogoPath (pluginType : PluginType) : string :=
  "public/img/icn-" +:+ pluginType +:+ ".svg".

Definition setLogoSmall (u : string) (p : Plugin) : Plugin :=
  let i := PluginInfo (JSON p) in
  setJSON (setInfo (mkInfo (info_Version i) u (info_LogoLarge i) (info_Screenshots i)) (JSON p)) p.
Definition setLogoLarge (u : string) (p : Plugin) : Plugin :=
  let i := PluginInfo (JSON p) in
  setJSON (setInfo (mkInfo (info_Version i) (info_LogoSmall i) u (info_Screenshots i)) (JSON p)) p.
Definition setScreenshotPath (n : nat) (u : string) (p : Plugin) : Plugin :=
  let i := PluginInfo (JSON p) in
  setJSON (setInfo (mkInfo (info_Version i) (info_LogoSmall i) (info_LogoLarge i)
                      (alter (λ s, mkScreenshot (shot_Name s) u) n (info_Screenshots i)))
             (JSON p)) p.

(** The screenshot loop of [setImages], from index [i], with [n] iterations
    left. *)
Fixpoint setScreenshots (n i : nat) (p : Plugin) : result error Plugin :=
  match n with
  | O => Ok p
  | S n' =>
      match info_Screenshots (PluginInfo (JSON p)) !! i with
      | None => Ok p
      | Some screenshot =>
          match assetPath_RelativeURL E p (shot_Path screenshot) "" with
          | Err e => Err (ErrWrapIdx "screenshot %d relative url" i (ErrExternal e))
          | Ok u => setScreenshots n' (S i) (setScreenshotPath i u p)
          end
      end
  end.

Definition setImages (p : Plugin) : result error Plugin :=
  match assetPath_RelativeURL E p (info_LogoSmall (PluginInfo (JSON p)))
          (defaultLogoPath (Type_ (JSON p))) with
  | Err e => Err (ErrWrap "logo" (ErrExternal e))
  | Ok small =>
      let p := setLogoSmall small p in
      match assetPath_RelativeURL E p (info_LogoLarge (PluginInfo (JSON p)))
              (defaultLogoPath (Type_ (JSON p))) with
      | Err e => Err (ErrWrap "logo" (ErrExternal e))
      | Ok large =>
          let p := setLogoLarge large p in
          setScreenshots (List.length (info_Screenshots (PluginInfo (JSON p)))) 0 p
      end
  end.

Definition createPluginBase (pluginJSON : JSONData) (class : Class) (pluginDir : string)
  : result error Plugin :=
  match assetPath_Base E pluginJSON class pluginDir with
  | Err e => Err (ErrWrap "base url" (ErrExternal e))
  | Ok baseURL =>
      match assetPath_Module E pluginJSON class pluginDir with
      | Err e => Err (ErrWrap "module url" (ErrExternal e))
      | Ok moduleURL =>
          setImages (mkPlugin pluginJSON pluginDir class baseURL moduleURL
                       "" "" None [] "" "" "" None)
      end
  end.

(** Lines 100 to 111 of [createPluginsForLoading]: the initial signature
    state; a plugin served by the CDN is not checked. *)
Definition initialSignature (plugin : Plugin) : result string Signature :=
  if pluginsCDN_PluginSupported E (ID (JSON plugin))
  then Ok (mkSignature SignatureValid "" "")
  else signature_Calculate E plugin.

(** The body of the loop of [createPluginsForLoading]. *)
Definition createPluginsStep (class : Class) (acc : Loader * gmap string Plugin)
  (found : string * JSONData) : Loader * gmap string Plugin :=
  let '(l, loadedPlugins) := acc in
  let '(pluginDir, pluginJSON) := found in
  match createPluginBase pluginJSON class pluginDir with
  | Err _ => (logf Warn "Could not create plugin base" (ID pluginJSON) l, loadedPlugins)
  | Ok plugin =>
      match initialSignature plugin with
      | Err _ =>
          (logf Warn "Could not calculate plugin signature state" (ID (JSON plugin)) l,
           loadedPlugins)
      | Ok sig => (l, <[PluginDir plugin := setSignature sig plugin]> loadedPlugins)
      end
  end.

Definition createPluginsForLoading (l : Loader) (class : Class)
  (foundPlugins : gmap string JSONData) : Loader * gmap string Plugin :=
  foldl (createPluginsStep class) (l, ∅) (rangeMap (rangeRank E 1) foundPlugins).

(** The body of the loop of [stripDuplicates]; [pluginsByID] is written and
    never read. *)
Definition stripDuplicatesStep (existingPlugins : gset string)
  (acc : Loader * gmap string JSONData * gset string) (entry : string * JSONData)
  : Loader * gmap string JSONData * gset string :=
  let '(l, f, pluginsByID) := acc in
  let '(k, scannedPlugin) := entry in
  if decide (ID scannedPlugin ∈ existingPlugins)
  then (logf Debug "Skipping plugin as it's already installed" (ID scannedPlugin) l,
        delete k f, pluginsByID)
  else (l, f, {[ID scannedPlugin]} ∪ pluginsByID).

Definition stripDuplicates (l : Loader) (f : gmap string JSONData)
  (existingPlugins : gset string) : Loader * gmap string JSONData :=
  let '(l, f, _) :=
    foldl (stripDuplicatesStep existingPlugins) (l, f, ∅) (rangeMap (rangeRank E 0) f) in
  (l, f).

(** [filepath.Abs] on unix. *)
Definition Abs (p : string) : result string string :=
  if IsAbs p then Ok (Clean p)
  else match os_Getwd E with
       | Err e => Err e
       | Ok wd => Ok (Join [wd; p])
       end.

(** The body of the first loop of [loadPlugins]: manifests by directory. *)
Definition readStep (acc : Loader * gmap string JSONData) (pluginJSONPath : string)
  : Loader * gmap string JSONData :=
  let '(l, foundPlugins) := acc in
  match readPluginJSON l pluginJSONPath with
  | (l, Err _) =>
      (logf Warn "Skipping plugin loading as its plugin.json could not be read"
         pluginJSONPath l, foundPlugins)
  | (l, Ok plugin) =>
      match Abs pluginJSONPath with
      | Err _ =>
          (logf Warn "Skipping plugin loading as absolute plugin.json path could not be calculated"
             (ID plugin) l, foundPlugins)
      | Ok pluginJSONAbsPath =>
          match foundPlugins !! Dir pluginJSONAbsPath with
          | Some _ =>
              (logf Warn "Skipping plugin loading as it's a duplicate" (ID plugin) l,
               foundPlugins)
          | None => (l, <[Dir pluginJSONAbsPath := plugin]> foundPlugins)
          end
      end
  end.

(** The inner loop of the dependency wiring: the accumulated path is extended
    by one ancestor at a time, from the root down, and the first one that is
    a key of [loadedPlugins] is returned. *)
Fixpoint findParent (loadedPlugins : gmap string Plugin) (pluginPath : string)
  (ancestors : list string) : option string :=
  match ancestors with
  | [] => None
  | ancestor :: rest =>
      let pluginPath := Join [pluginPath; ancestor] in
      match loadedPlugins !! pluginPath with
      | Some _ => Some pluginPath
      | None => findParent loadedPlugins pluginPath rest
      end
  end.

(** The parent the wiring loop looks up for the plugin directory [dir]. *)
Definition parentOf (loadedPlugins : gmap string Plugin) (dir : string) : option string :=
  let ancestors := removelast (Split "/" dir) in
  let pluginPath := if IsAbs dir then "/" else "" in
  findParent loadedPlugins pluginPath ancestors.

(** The body of the dependency wiring loop, for the plugin at key [k]. *)
Definition wireStep (loadedPlugins : gmap string Plugin) (k : string)
  : gmap string Plugin :=
  match loadedPlugins !! k with
  | None => loadedPlugins
  | Some plugin =>
      match parentOf loadedPlugins (PluginDir plugin) with
      | Some parentDir =>
          alter (addChild k) parentDir (alter (setParent parentDir) k loadedPlugins)
      | None => loadedPlugins
      end
  end.

Definition wireDependencies (loadedPlugins : gmap string Plugin) : gmap string Plugin :=
  foldl wireStep loadedPlugins (rangeMap (rangeRank E 2) loadedPlugins).*1.

(** The body of the loop of [setDefaultNavURL]: the Loader (for the
    warning), the plugin's [DefaultNavURL] and the includes updated so far. *)
Definition setDefaultNavURLStep (pluginID : string)
  (acc : Loader * string * list Includes) (include : Includes)
  : Loader * string * list Includes :=
  let '(l, defaultNavURL, updated) := acc in
  let include :=
    if String.eqb (inc_Slug include) ""
    then setSlug (slugify_Slugify E (inc_Name include)) include
    else include in
  if negb (inc_DefaultNav include) then (l, defaultNavURL, updated ++ [include])
  else
    let defaultNavURL :=
      if String.eqb (inc_Type include) "page"
      then Join ["/plugins/"; pluginID; "/page/"; inc_Slug include]
      else defaultNavURL in
    if String.eqb (inc_Type include) "dashboard" then
      let dboardURL := includes_DashboardURLPath E include in
      if String.eqb dboardURL ""
      then (logf Warn "Included dashboard is missing a UID field" pluginID l,
            defaultNavURL, updated ++ [include])
      else (l, dboardURL, updated ++ [include])
    else (l, defaultNavURL, updated ++ [include]).

Definition setDefaultNavURL (l : Loader) (p : Plugin) : Loader * Plugin :=
  let '(l, defaultNavURL, includes) :=
    foldl (setDefaultNavURLStep (ID (JSON p))) (l, DefaultNavURL p, [])
      (PluginIncludes (JSON p)) in
  (l, setDefaultNav defaultNavURL (setJSON (setIncludes includes (JSON p)) p)).

Definition configureAppChildPlugin (parent child : Plugin) : Plugin :=
  if negb (IsApp parent) then child
  else
    let appSubPath := BackslashToSlash (RemoveFirst (PluginDir child) (PluginDir parent)) in
    let module :=
      if IsCorePlugin parent
      then util_JoinURLFragments E ("app/plugins/app/" +:+ ID (JSON parent)) appSubPath
           +:+ "/module"
      else util_JoinURLFragments E ("plugins/" +:+ ID (JSON parent)) appSubPath
           +:+ "/module" in
    setAppChild (ID (JSON parent)) (BaseURL parent) module child.

(** The module.js check of the validation loop: an error of [fs.Exists]
    returns from [loadPlugins]; a missing file is a warning, unless the CDN
    serves the plugin. *)
Definition checkModuleJS (l : Loader) (plugin : Plugin) : result error Loader :=
  if negb (IsRenderer plugin) && negb (IsCorePlugin plugin) then
    let module := Join [PluginDir plugin; "module.js"] in
    match fs_Exists E module with
    | Err e => Err (ErrExternal e)
    | Ok exists_ =>
        if negb exists_ && negb (pluginsCDN_PluginSupported E (ID (JSON plugin)))
        then Ok (logf Warn "Plugin missing module.js" (ID (JSON plugin)) l)
        else Ok l
    end
  else Ok l.

(** Lines 205 to 207 of the validation loop: only an app gets a default
    navigation URL. *)
Definition configureNav (l : Loader) (plugin : Plugin) : Loader * Plugin :=
  if IsApp plugin then setDefaultNavURL l plugin else (l, plugin).

(** Lines 209 to 211 of the validation loop: the parent is read through the
    plugin's [Parent] pointer. *)
Definition configureChild (loadedPlugins : gmap string Plugin) (plugin : Plugin)
  : Plugin :=
  match Parent plugin with
  | Some parentDir =>
      match loadedPlugins !! parentDir with
      | Some parent =>
          if IsApp parent then configureAppChildPlugin parent plugin else plugin
      | None => plugin
      end
  | None => plugin
  end.

(** The body of the validation loop, for the plugin at key [k]. *)
Definition validateStep (st : Loader * gmap string Plugin * list string) (k : string)
  : step (Loader * gmap string Plugin * list string) :=
  let '(l, loadedPlugins, verifiedPlugins) := st in
  match loadedPlugins !! k with
  | None => Continue st
  | Some plugin =>
      match signatureValidator_Validate E loadedPlugins plugin with
      | Some signingError =>
          let l := logf Warn "Skipping loading plugin due to problem with signature"
                     (ID (JSON plugin)) l in
          let loadedPlugins := <[k := setSignatureError signingError plugin]> loadedPlugins in
          let l := setErrs (<[ID (JSON plugin) := signingError]> (errs l)) l in
          Continue (l, loadedPlugins, verifiedPlugins)
      | None =>
          let l := setErrs (delete (ID (JSON plugin)) (errs l)) l in
          match checkModuleJS l plugin with
          | Err e => Return l e
          | Ok l =>
              let '(l, plugin) := configureNav l plugin in
              let loadedPlugins := <[k := plugin]> loadedPlugins in
              Continue (l, <[k := configureChild loadedPlugins plugin]> loadedPlugins,
                        verifiedPlugins ++ [k])
          end
      end
  end.

Fixpoint validateLoop (st : Loader * gmap string Plugin * list string)
  (keys : list string) : step (Loader * gmap string Plugin * list string) :=
  match keys with
  | [] => Continue st
  | k :: rest =>
      match validateStep st k with
      | Continue st => validateLoop st rest
      | Return l e => Return l e
      end
  end.

(** The initialization loop of [loadPlugins]. *)
Fixpoint initializeLoop (l : Loader) (verifiedPlugins : list Plugin)
  : Loader * option error :=
  match verifiedPlugins with
  | [] => (l, None)
  | p :: rest =>
      let l := emit (CallInitialize (ID (JSON p))) l in
      match pluginInitializer_Initialize E p with
      | Some e => (l, Some (ErrExternal e))
      | None =>
          let l := emit (CallSetPluginBuildInformation (ID (JSON p))) l in
          let l := emit (CallDeclarePluginRoles (ID (JSON p))) l in
          let l :=
            match roleRegistry_DeclarePluginRoles E p with
            | Some _ => logf Warn "Declare plugin roles failed." (ID (JSON p)) l
            | None => l
            end in
          initializeLoop l rest
      end
  end.

Definition load (l : Loader) (p : Plugin) : Loader * option error :=
  match Registry.Add (pluginRegistry l) p with
  | (_, Some e) => (l, Some (ErrExternal e))
  | (r, None) =>
      let l := setRegistry r l in
      let l := if negb (IsCorePlugin p)
               then logf Info_ "Plugin registered" (ID (JSON p)) l else l in
      let start (l : Loader) :=
        (emit (CallProcessStart (ID (JSON p))) l,
         ErrExternal <$> processManager_Start E (ID (JSON p))) in
      if IsExternalPlugin p then
        let l := emit (CallStorageRegister (ID (JSON p)) (PluginDir p)) l in
        match pluginStorage_Register E (ID (JSON p)) (PluginDir p) with
        | Some e => (l, Some (ErrExternal e))
        | None => start l
        end
      else start l
  end.

(** The body of the last loop of [loadPlugins]. *)
Definition loadStep (l : Loader) (p : Plugin) : Loader :=
  match load l p with
  | (l, Some _) => logf Error_ "Could not start plugin" (ID (JSON p)) l
  | (l, None) => l
  end.

(** The first loop of [loadPlugins]: the manifests read, by directory. *)
Definition readManifests (l : Loader) (pluginJSONPaths : list string)
  : Loader * gmap string JSONData :=
  foldl readStep (l, ∅) pluginJSONPaths.

(** The IDs of the registered plugins, as [loadPlugins] collects them. *)
Definition registeredIDs (l : Loader) : gset string :=
  list_to_set ((λ p, ID (JSON p)) <$> Registry.Plugins (pluginRegistry l)).

(** [loadPlugins] up to the end of the dependency wiring: the first loop,
    [stripDuplicates], [createPluginsForLoading] and the wiring loop. *)
Definition discoverPlugins (l : Loader) (class : Class) (pluginJSONPaths : list string)
  : Loader * gmap string Plugin :=
  let '(l, foundPlugins) := readManifests l pluginJSONPaths in
  let registeredPlugins := registeredIDs l in
  let '(l, foundPlugins) := stripDuplicates l foundPlugins registeredPlugins in
  let '(l, loadedPlugins) := createPluginsForLoading l class foundPlugins in
  (l, wireDependencies loadedPlugins).

(** [loadPlugins] up to the end of the validation loop. *)
Definition verifyPlugins (l : Loader) (class : Class) (pluginJSONPaths : list string)
  : step (Loader * gmap string Plugin * list string) :=
  let '(l, loadedPlugins) := discoverPlugins l class pluginJSONPaths in
  validateLoop (l, loadedPlugins, []) (rangeMap (rangeRank E 3) loadedPlugins).*1.

Definition loadPlugins (l : Loader) (class : Class) (pluginJSONPaths : list string)
  : Loader * result error (list Plugin) :=
  match verifyPlugins l class pluginJSONPaths with
  | Return l e => (l, Err e)
  | Continue (l, loadedPlugins, verified) =>
      let verifiedPlugins := omap (λ k, loadedPlugins !! k) verified in
      match initializeLoop l verifiedPlugins with
      | (l, Some e) => (l, Err e)
      | (l, None) => (foldl loadStep l verifiedPlugins, Ok verifiedPlugins)
      end
  end.

Definition Load (l : Loader) (class : Class) (paths : list string)
  : Loader * result error (list Plugin) :=
  match finder_Find E paths with
  | Err e => (l, Err (ErrExternal e))
  | Ok pluginJSONPaths => loadPlugins l class pluginJSONPaths
  end.

Definition unload (l : Loader) (p : Plugin) : Loader * option error :=
  let l := logf Debug "Stopping plugin process" (ID (JSON p)) l in
  let l := emit (CallProcessStop (ID (JSON p))) l in
  match processManager_Stop E (ID (JSON p)) with
  | Some e => (l, Some (ErrExternal e))
  | None =>
      match Registry.Remove (pluginRegistry l) (ID (JSON p)) with
      | (_, Some e) => (l, Some (ErrExternal e))
      | (r, None) =>
          let l := setRegistry r l in
          let l := logf Debug "Plugin unregistered" (ID (JSON p)) l in
          let l := emit (CallStorageRemove (ID (JSON p))) l in
          (l, ErrExternal <$> pluginStorage_Remove E (ID (JSON p)))
      end
  end.

Definition Unload (l : Loader) (pluginID : string) : Loader * option error :=
  match Registry.Plugin (pluginRegistry l) pluginID with
  | None => (l, Some ErrPluginNotInstalled)
  | Some plugin =>
      if negb (IsExternalPlugin plugin) then (l, Some ErrUninstallCorePlugin)
      else unload l plugin
  end.


End LoaderCode.

(** ** Concrete environments

    A machine on which every collaborator succeeds, described by its manifest
    files, the signature status of each plugin directory as [Calculate] finds
    it, and the order of the map loops. The validator accepts exactly the
    "valid" status; other environments are variations of it. *)

Module Sample.

Definition manifest (id : string) (type : PluginType) (includes : list Includes)
  : JSONData :=
  mkJSONData id type id (mkInfo "1.0.0" "" "" []) (mkDependencies "" None) includes.

Definition lookupFile {A} (files : list (string * A)) (path : string) : option A :=
  snd <$> List.find (λ f, String.eqb f.1 path) files.

Definition validate (p : Plugin) : option SignatureError :=
  if String.eqb (PluginSignature p) SignatureValid then None
  else Some (mkSignatureError (ID (JSON p)) (PluginSignature p)).

Definition asErrorCode (e : SignatureError) : string :=
  if String.eqb (se_SignatureStatus e) SignatureInvalid then "signatureInvalid"
  else if String.eqb (se_SignatureStatus e) SignatureModified then "signatureModified"
  else if String.eqb (se_SignatureStatus e) SignatureUnsigned then "signatureMissing"
  else "".

Definition isValidType (t : PluginType) : bool :=
  existsb (String.eqb t) ["datasource"; "panel"; "app"; "renderer"; "secretsmanager"].

Definition dashboardURLPath (i : Includes) : string :=
  if negb (String.eqb (inc_Type i) "dashboard") || String.eqb (inc_UID i) "" then ""
  else "/d/" +:+ inc_UID i.

Definition machine (files : list (string * JSONData))
  (status : string → SignatureStatus) (rank : nat → string → nat) : Env :=
  {| finder_Find := λ paths, Ok paths;
     os_Open := λ path,
       match lookupFile files path with
       | Some _ => Ok path
       | None => Err "no such file or directory"
       end;
     json_Decode := λ reader,
       match lookupFile files reader with
       | Some d => Ok d
       | None => Err "unexpected end of JSON input"
       end;
     file_Close := λ _, None;
     os_Getwd := Ok "/";
     Type_IsValid := isValidType;
     assetPath_Base := λ d _ _, Ok ("public/plugins/" +:+ ID d);
     assetPath_Module := λ d _ _, Ok ("plugins/" +:+ ID d +:+ "/module");
     assetPath_RelativeURL := λ _ path _, Ok path;
     pluginsCDN_PluginSupported := λ _, false;
     signature_Calculate := λ p, Ok (mkSignature (status (PluginDir p)) "" "");
     signatureValidator_Validate := λ _ p, validate p;
     fs_Exists := λ _, Ok true;
     slugify_Slugify := λ s, s;
     includes_DashboardURLPath := dashboardURLPath;
     util_JoinURLFragments := λ a b, a +:+ b;
     pluginInitializer_Initialize := λ _, None;
     roleRegistry_DeclarePluginRoles := λ _, None;
     pluginStorage_Register := λ _ _, None;
     pluginStorage_Remove := λ _, None;
     processManager_Start := λ _, None;
     processManager_Stop := λ _, None;
     signatureError_AsErrorCode := asErrorCode;
     rangeRank := rank |}.

(** The same machine with another initializer, process manager, file check
    or JSON decoder. *)
Definition withInitialize (f : Plugin → option string) (E : Env) : Env :=
  mkEnv (finder_Find E) (os_Open E) (json_Decode E) (file_Close E) (os_Getwd E)
    (Type_IsValid E) (assetPath_Base E) (assetPath_Module E) (assetPath_RelativeURL E)
    (pluginsCDN_PluginSupported E) (signature_Calculate E) (signatureValidator_Validate E)
    (fs_Exists E) (slugify_Slugify E) (includes_DashboardURLPath E)
    (util_JoinURLFragments E) f (roleRegistry_DeclarePluginRoles E)
    (pluginStorage_Register E) (pluginStorage_Remove E) (processManager_Start E)
    (processManager_Stop E) (signatureError_AsErrorCode E) (rangeRank E).

Definition withStart (f : string → option string) (E : Env) : Env :=
  mkEnv (finder_Find E) (os_Open E) (json_Decode E) (file_Close E) (os_Getwd E)
    (Type_IsValid E) (assetPath_Base E) (assetPath_Module E) (assetPath_RelativeURL E)
    (pluginsCDN_PluginSupported E) (signature_Calculate E) (signatureValidator_Validate E)
    (fs_Exists E) (slugify_Slugify E) (includes_DashboardURLPath E)
    (util_JoinURLFragments E) (pluginInitializer_Initialize E)
    (roleRegistry_DeclarePluginRoles E) (pluginStorage_Register E)
    (pluginStorage_Remove E) f (processManager_Stop E) (signatureError_AsErrorCode E)
    (rangeRank E).

Definition withExists (f : string → result string bool) (E : Env) : Env :=
  mkEnv (finder_Find E) (os_Open E) (json_Decode E) (file_Close E) (os_Getwd E)
    (Type_IsValid E) (assetPath_Base E) (assetPath_Module E) (assetPath_RelativeURL E)
    (pluginsCDN_PluginSupported E) (signature_Calculate E) (signatureValidator_Validate E)
    f (slugify_Slugify E) (includes_DashboardURLPath E)
    (util_JoinURLFragments E) (pluginInitializer_Initialize E)
    (roleRegistry_DeclarePluginRoles E) (pluginStorage_Register E)
    (pluginStorage_Remove E) (processManager_Start E) (processManager_Stop E)
    (signatureError_AsErrorCode E) (rangeRank E).

Definition withDecode (f : string → result string JSONData) (E : Env) : Env :=
  mkEnv (finder_Find E) (os_Open E) f (file_Close E) (os_Getwd E)
    (Type_IsValid E) (assetPath_Base E) (assetPath_Module E) (assetPath_RelativeURL E)
    (pluginsCDN_PluginSupported E) (signature_Calculate E) (signatureValidator_Validate E)
    (fs_Exists E) (slugify_Slugify E) (includes_DashboardURLPath E)
    (util_JoinURLFragments E) (pluginInitializer_Initialize E)
    (roleRegistry_DeclarePluginRoles E) (pluginStorage_Register E)
    (pluginStorage_Remove E) (processManager_Start E) (processManager_Stop E)
    (signatureError_AsErrorCode E) (rangeRank E).

Definition allValid (dir : string) : SignatureStatus := SignatureValid.

(** Visit the keys by increasing length (for nested directories: from the
    root down), or in whatever order the map lists them. *)
Definition byLength (site : nat) (key : string) : nat := String.length key.
Definition anyOrder (site : nat) (key : string) : nat := 0%nat.

Definition newLoader : Loader := mkLoader ∅ ∅ [].

(** Three nested plugin directories discovered together. *)
Definition nested : Env :=
  machine [("/a/plugin.json", manifest "a" "app" []);
           ("/a/b/plugin.json", manifest "b" "panel" []);
           ("/a/b/c/plugin.json", manifest "c" "panel" [])]
    allValid byLength.

Definition nestedPaths : list string :=
  ["/a/plugin.json"; "/a/b/plugin.json"; "/a/b/c/plugin.json"].

(** Visit "/p/x", then "/p/y", then the rest. *)
Definition xThenY (site : nat) (key : string) : nat :=
  if String.eqb key "/p/x" then 0%nat
  else if String.eqb key "/p/y" then 1%nat else 2%nat.

(** Three sibling plugin directories, visited in the order x, y, z. *)
Definition siblingFiles : list (string * JSONData) :=
  [("/p/x/plugin.json", manifest "x" "panel" []);
   ("/p/y/plugin.json", manifest "y" "panel" []);
   ("/p/z/plugin.json", manifest "z" "panel" [])].

Definition siblings : Env := machine siblingFiles allValid xThenY.

Definition siblingPaths : list string :=
  ["/p/x/plugin.json"; "/p/y/plugin.json"; "/p/z/plugin.json"].

(** The siblings, with an initializer that fails for y. *)
Definition failingInitializer : Env :=
  withInitialize
    (λ p, if String.eqb (ID (JSON p)) "y" then Some "backend wiring failed" else None)
    siblings.

(** The siblings, with a process manager that cannot start x. *)
Definition failingStart : Env :=
  withStart (λ id, if String.eqb id "x" then Some "process exited" else None) siblings.

(** The siblings, x having an invalid signature. *)
Definition xInvalid (dir : string) : SignatureStatus :=
  if String.eqb dir "/p/x" then SignatureInvalid else SignatureValid.

Definition siblingsXInvalid : Env := machine siblingFiles xInvalid xThenY.

(** Two directories whose manifests declare the same ID. *)
Definition twinFiles : list (string * JSONData) :=
  [("/p/x/plugin.json", manifest "twin" "panel" []);
   ("/p/y/plugin.json", manifest "twin" "panel" [])].

Definition twinPaths : list string := ["/p/x/plugin.json"; "/p/y/plugin.json"].

Definition twins : Env := machine twinFiles allValid xThenY.


(** The nested directories, with manifests that do not parse. *)
Definition unparsable : Env :=
  withDecode (λ _, Err "invalid character '}' looking for beginning of value") nested.






(** One directory whose manifest has no id. *)
Definition missingID : Env :=
  machine [("/m/plugin.json", manifest "" "panel" [])] allValid anyOrder.

(** A loader whose registry holds one core plugin. *)
Definition corePlugin : Plugin :=
  mkPlugin (manifest "core1" "panel" []) "/core/core1" Core
    "public/app/plugins/panel/core1" "app/plugins/panel/core1/module" "" "" None []
    "internal" "" "" None.

Definition withCore : Loader := mkLoader {["core1" := corePlugin]} ∅ [].

(** The state in which [loadPlugins] enters its registration loop, with the
    verified plugins, when it gets there. *)
Definition beforeRegistration (E : Env) (l : Loader) (class : Class)
  (pluginJSONPaths : list string) : option (Loader * list Plugin) :=
  match verifyPlugins E l class pluginJSONPaths with
  | Continue (l, loadedPlugins, verified) =>
      match initializeLoop E l (omap (λ k, loadedPlugins !! k) verified) with
      | (l, None) => Some (l, omap (λ k, loadedPlugins !! k) verified)
      | (_, Some _) => None
      end
  | Return _ _ => None
  end.

End Sample.

(** ** Vocabulary of the statements *)

Definition isLog (e : Event) : Prop :=
  match e with
  | Log _ _ _ => True
  | _ => False
  end.

(** [l'] is [l] after some steps that leave the registry alone and only
    write log lines (the error map may differ). *)
Definition quiet (l l' : Loader) : Prop :=
  pluginRegistry l' = pluginRegistry l ∧
  ∃ logs, events l' = events l ++ logs ∧ Forall isLog logs.

(** The Loader a [step] carries. *)
Definition stepLoader {X Y} (s : step (Loader * X * Y)) : Loader :=
  match s with
  | Continue (l, _, _) => l
  | Return l _ => l
  end.

(** What the initialization loop of [loadPlugins] emits for a plugin whose
    [Initialize] succeeds. *)
Definition initializedEvents (E : Env) (p : Plugin) : list Event :=
  [CallInitialize (ID (JSON p)); CallSetPluginBuildInformation (ID (JSON p));
   CallDeclarePluginRoles (ID (JSON p))]
  ++ match roleRegistry_DeclarePluginRoles E p with
     | Some _ => [Log Warn "Declare plugin roles failed." (ID (JSON p))]
     | None => []
     end.

(** [l'] is [l] with more log lines and nothing else changed. *)
Definition logsOnly (l l' : Loader) : Prop :=
  pluginRegistry l' = pluginRegistry l ∧ errs l' = errs l ∧
  ∃ logs, events l' = events l ++ logs ∧ Forall isLog logs.

(** *** The default navigation URL, by its description *)

(** An include once [setDefaultNavURL] has filled in its slug. *)
Definition slugged (E : Env) (include : Includes) : Includes :=
  if String.eqb (inc_Slug include) ""
  then setSlug (slugify_Slugify E (inc_Name include)) include
  else include.

(** The URL an include offers as the default navigation target of plugin
    [pluginID]: a page include marked [defaultNav] offers its page URL, a
    dashboard include marked [defaultNav] its dashboard URL when it has
    one; any other include offers nothing. *)
Definition navTarget (E : Env) (pluginID : string) (include : Includes)
  : option string :=
  let include := slugged E include in
  if inc_DefaultNav include then
    if String.eqb (inc_Type include) "page"
    then Some (Join ["/plugins/"; pluginID; "/page/"; inc_Slug include])
    else if String.eqb (inc_Type include) "dashboard"
         then (if String.eqb (includes_DashboardURLPath E include) "" then None
               else Some (includes_DashboardURLPath E include))
         else None
  else None.

(** A dashboard include marked [defaultNav] that has no URL. *)
Definition missingUID (E : Env) (include : Includes) : bool :=
  let include := slugged E include in
  inc_DefaultNav include && String.eqb (inc_Type include) "dashboard"
  && String.eqb (includes_DashboardURLPath E include) "".

(** The default navigation URL of an app: what the last include that offers
    one offers, [start] when none does. *)
Definition lastNavURL (E : Env) (pluginID start : string) (includes : list Includes)
  : string :=
  default start (last (omap (navTarget E pluginID) includes)).

Definition missingUIDWarnings (E : Env) (pluginID : string) (includes : list Includes)
  : list Event :=
  flat_map (λ include,
              if missingUID E include
              then [Log Warn "Included dashboard is missing a UID field" pluginID]
              else []) includes.

(** *** Views of a plugin *)

(** What identifies a plugin: nothing in [loadPlugins] changes it once the
    plugin is created. *)
Definition core (p : Plugin) : string * PluginType * string * Class :=
  (ID (JSON p), Type_ (JSON p), PluginDir p, PluginClass p).

(** What the validation loop may change, and nothing before it does. *)
Definition base (p : Plugin) : string * PluginType * string * Class * list Includes * string :=
  (core p, PluginIncludes (JSON p), DefaultNavURL p).

(** What the dependency wiring sets, and nothing else does. *)
Definition links (p : Plugin) : option string * list string :=
  (Parent p, Children p).

(** The plugin [createPluginsForLoading] makes of the manifest [pluginJSON]
    found in [pluginDir], when both the plugin base and its signature can be
    computed. *)
Definition created (E : Env) (class : Class) (pluginDir : string) (pluginJSON : JSONData)
  : option Plugin :=
  match createPluginBase E pluginJSON class pluginDir with
  | Ok plugin =>
      match initialSignature E plugin with
      | Ok sig => Some (setSignature sig plugin)
      | Err _ => None
      end
  | Err _ => None
  end.

(** The parent pointer of [p] once the wiring loop has handled it. *)
Definition wiredParent (loaded : gmap string Plugin) (p : Plugin) : option string :=
  match parentOf loaded (PluginDir p) with
  | Some parentDir => Some parentDir
  | None => Parent p
  end.


(** *** The validation loop *)

(** The default navigation URL of [p] is the one its includes describe if
    [p] is an app, and unset otherwise. *)
Definition navOK (E : Env) (p : Plugin) : Prop :=
  DefaultNavURL p
  = if IsApp p then lastNavURL E (ID (JSON p)) "" (PluginIncludes (JSON p)) else "".

(** The state of the validation loop over the batch [loaded0] when the keys
    [todo] are still to be visited: the plugins not yet visited are as the
    wiring left them; a visited plugin keeps its identity and its links; a
    verified one was accepted by the validator and has its navigation URL; a
    visited one that is not verified was rejected; and the error map holds,
    for a plugin whose ID no other plugin of the batch has, the validator's
    verdict on it. *)
Definition validationInv (E : Env) (loaded0 : gmap string Plugin)
  (st : Loader * gmap string Plugin * list string) (todo : list string) : Prop :=
  let '(l, store, verified) := st in
  (∀ k, k ∈ todo → store !! k = loaded0 !! k) ∧
  (∀ k, option_Forall2 (λ p0 p, core p = core p0 ∧ links p = links p0)
          (loaded0 !! k) (store !! k)) ∧
  (∀ k, k ∈ verified →
        (k ∉ todo) ∧
        ∃ p0 p store0,
          loaded0 !! k = Some p0 ∧ store !! k = Some p ∧ navOK E p ∧
          signatureValidator_Validate E store0 p0 = None) ∧
  (∀ k p0, loaded0 !! k = Some p0 → k ∉ todo → k ∉ verified →
           ∃ store0 e, signatureValidator_Validate E store0 p0 = Some e) ∧
  (∀ k0 p0 v,
     loaded0 !! k0 = Some p0 →
     (∀ store0, signatureValidator_Validate E store0 p0 = v) →
     (∀ k' p', loaded0 !! k' = Some p' → ID (JSON p') = ID (JSON p0) → k' = k0) →
     k0 ∉ todo →
     errs l !! ID (JSON p0) = v).

(** *** Directories *)

Definition hasSlash (s : string) : bool :=
  existsb (λ c, Ascii.eqb c "/") (list_ascii_of_string s).

(** A name a directory can have: not empty, not "." or "..", without "/". *)
Definition properName (name : string) : bool :=
  negb (String.eqb name "") && negb (String.eqb name ".")
  && negb (String.eqb name "..") && negb (hasSlash name).

(** The absolute directory "/n1/.../nk" ("/" when there are no names). *)
Definition absDir (names : list string) : string := "/" +:+ JoinSlash names.

(** ** More concrete environments and loaders *)

Module Scenarios.

(** The same machine with another process stop, storage removal or base
    URL. *)
Definition withStop (f : string → option string) (E : Env) : Env :=
  mkEnv (finder_Find E) (os_Open E) (json_Decode E) (file_Close E) (os_Getwd E)
    (Type_IsValid E) (assetPath_Base E) (assetPath_Module E) (assetPath_RelativeURL E)
    (pluginsCDN_PluginSupported E) (signature_Calculate E) (signatureValidator_Validate E)
    (fs_Exists E) (slugify_Slugify E) (includes_DashboardURLPath E)
    (util_JoinURLFragments E) (pluginInitializer_Initialize E)
    (roleRegistry_DeclarePluginRoles E) (pluginStorage_Register E)
    (pluginStorage_Remove E) (processManager_Start E) f (signatureError_AsErrorCode E)
    (rangeRank E).

Definition withStorageRemove (f : string → option string) (E : Env) : Env :=
  mkEnv (finder_Find E) (os_Open E) (json_Decode E) (file_Close E) (os_Getwd E)
    (Type_IsValid E) (assetPath_Base E) (assetPath_Module E) (assetPath_RelativeURL E)
    (pluginsCDN_PluginSupported E) (signature_Calculate E) (signatureValidator_Validate E)
    (fs_Exists E) (slugify_Slugify E) (includes_DashboardURLPath E)
    (util_JoinURLFragments E) (pluginInitializer_Initialize E)
    (roleRegistry_DeclarePluginRoles E) (pluginStorage_Register E)
    f (processManager_Start E) (processManager_Stop E) (signatureError_AsErrorCode E)
    (rangeRank E).

Definition withBase (f : JSONData → Class → string → result string string) (E : Env)
  : Env :=
  mkEnv (finder_Find E) (os_Open E) (json_Decode E) (file_Close E) (os_Getwd E)
    (Type_IsValid E) f (assetPath_Module E) (assetPath_RelativeURL E)
    (pluginsCDN_PluginSupported E) (signature_Calculate E) (signatureValidator_Validate E)
    (fs_Exists E) (slugify_Slugify E) (includes_DashboardURLPath E)
    (util_JoinURLFragments E) (pluginInitializer_Initialize E)
    (roleRegistry_DeclarePluginRoles E) (pluginStorage_Register E)
    (pluginStorage_Remove E) (processManager_Start E) (processManager_Stop E)
    (signatureError_AsErrorCode E) (rangeRank E).

(** An external plugin, and a loader whose registry holds it beside a core
    plugin. *)
Definition externalPlugin : Plugin :=
  mkPlugin (Sample.manifest "ext1" "panel" []) "/plugins/ext1" External
    "public/plugins/ext1" "plugins/ext1/module" "" "" None []
    SignatureValid "" "" None.

Definition withExternal : Loader :=
  mkLoader {["ext1" := externalPlugin; "core1" := Sample.corePlugin]} ∅ [].

(** The siblings, on a machine whose process manager cannot stop a plugin,
    whose storage cannot remove one, or whose asset path service knows no
    base URL. *)
Definition stuckProcess : Env :=
  withStop (λ _, Some "process does not exit") Sample.siblings.

Definition readOnlyStorage : Env :=
  withStorageRemove (λ _, Some "read-only file system") Sample.siblings.

Definition noBaseURL : Env := withBase (λ _ _ _, Err "no base url") Sample.siblings.

(** The siblings with the failing initializer, on a file system where
    module.js cannot be looked up. *)
Definition coreFailingInitializer : Env :=
  Sample.withExists (λ _, Err "stat module.js: permission denied")
    Sample.failingInitializer.

End Scenarios.

(** ** More vocabulary of the statements *)

(** What [unload] emits when it runs to its end. *)
Definition unloadEvents (pluginID : string) : list Event :=
  [Log Debug "Stopping plugin process" pluginID; CallProcessStop pluginID;
   Log Debug "Plugin unregistered" pluginID; CallStorageRemove pluginID].

(** What [setImages] leaves alone: everything but the two logo paths and the
    paths of the screenshots. *)
Definition outsideImages (p : Plugin) :=
  (ID (JSON p), Type_ (JSON p), Name (JSON p), PluginDependencies (JSON p),
   PluginIncludes (JSON p), info_Version (PluginInfo (JSON p)),
   shot_Name <$> info_Screenshots (PluginInfo (JSON p)),
   (PluginDir p, PluginClass p, BaseURL p, Module_ p, DefaultNavURL p, IncludedInAppID p),
   (Parent p, Children p, PluginSignature p, SignatureType p, SignatureOrg p,
    PluginSignatureError p)).

(** The plugin [createPluginBase] hands to [setImages]. *)
Definition newPlugin (pluginJSON : JSONData) (class : Class) (pluginDir : string)
  (baseURL moduleURL : string) : Plugin :=
  mkPlugin pluginJSON pluginDir class baseURL moduleURL "" "" None [] "" "" "" None.

(** The directory and the manifest the first loop of [loadPlugins] gets from
    one path, when the manifest can be read and the path made absolute. *)
Definition manifestAt (E : Env) (pluginJSONPath : string) : option (string * JSONData) :=
  match (readPluginJSON E (mkLoader ∅ ∅ []) pluginJSONPath).2 with
  | Ok plugin =>
      match Abs E pluginJSONPath with
      | Ok pluginJSONAbsPath => Some (Dir pluginJSONAbsPath, plugin)
      | Err _ => None
      end
  | Err _ => None
  end.

(** The calls the initialization loop of [loadPlugins] makes. *)
Definition isInitialization (e : Event) : Prop :=
  match e with
  | CallInitialize _ | CallSetPluginBuildInformation _ | CallDeclarePluginRoles _ => True
  | _ => False
  end.

(** *** Plugins nested in an app *)

(** The fields [configureAppChildPlugin] sets. *)
Definition urls (p : Plugin) : string * string * string :=
  (BaseURL p, Module_ p, IncludedInAppID p).

(** The app the plugin [p] is nested in: its parent, when that is an app. *)
Definition appOf (loaded : gmap string Plugin) (p : Plugin) : option Plugin :=
  match Parent p with
  | Some parentDir =>
      match loaded !! parentDir with
      | Some parent => if IsApp parent then Some parent else None
      | None => None
      end
  | None => None
  end.

(** The module path of the plugin [child] nested in the app [app]: the path
    of the child below the app's directory, under the app's own path. *)
Definition childModule (E : Env) (app child : Plugin) : string :=
  util_JoinURLFragments E
    ((if IsCorePlugin app then "app/plugins/app/" else "plugins/") +:+ ID (JSON app))
    (BackslashToSlash (RemoveFirst (PluginDir child) (PluginDir app)))
  +:+ "/module".

(** The state of the validation loop over the batch [loaded0], as to the
    fields of nested plugins: a verified plugin nested in an app carries the
    app's ID and its module path below the app, and the base URL of the app
    when the app is not nested itself; any other plugin has these fields as
    the batch has them. *)
Definition nestingInv (E : Env) (loaded0 store : gmap string Plugin)
  (verified : list string) : Prop :=
  ∀ k p0 p, loaded0 !! k = Some p0 → store !! k = Some p →
    if decide (k ∈ verified) then
      match appOf loaded0 p0 with
      | Some app =>
          IncludedInAppID p = ID (JSON app) ∧
          Module_ p = childModule E app p0 ∧
          (Parent app = None → BaseURL p = BaseURL app)
      | None => urls p = urls p0
      end
    else urls p = urls p0.

(** *** The signature of a plugin *)


(** The calls of the registration loop of [loadPlugins] that act on the
    plugin [p]: the storage registration of an external plugin under its
    directory, and the start of its process. *)
Definition registrationOf (p : Plugin) (e : Event) : Prop :=
  (e = CallStorageRegister (ID (JSON p)) (PluginDir p) ∧ PluginClass p = External)
  ∨ e = CallProcessStart (ID (JSON p)).

(** * Properties *)

Set Warnings "-clear-no-such-hyp".

#[local] Arguments readStep : simpl never.
#[local] Arguments createPluginsStep : simpl never.
#[local] Arguments stripDuplicatesStep : simpl never.
#[local] Arguments setDefaultNavURLStep : simpl never.
#[local] Arguments validateStep : simpl never.
#[local] Arguments wireStep : simpl never.
#[local] Arguments loadStep : simpl never.
#[local] Arguments load : simpl never.
#[local] Arguments Join : simpl never.
#[local] Arguments Clean : simpl never.
#[local] Arguments navTarget : simpl never.
#[local] Arguments slugged : simpl never.

(** ** Ranging over a map *)

Lemma rangeMap_perm {V} (rank : string → nat) (m : gmap string V) :
  rangeMap rank m ≡ₚ map_to_list m.
Proof. apply merge_sort_Permutation. Qed.

Lemma elem_of_rangeMap {V} (rank : string → nat) (m : gmap string V) k v :
  (k, v) ∈ rangeMap rank m ↔ m !! k = Some v.
Proof. rewrite rangeMap_perm. apply elem_of_map_to_list. Qed.

Lemma NoDup_rangeMap_keys {V} (rank : string → nat) (m : gmap string V) :
  NoDup (rangeMap rank m).*1.
Proof. rewrite rangeMap_perm. apply NoDup_fst_map_to_list. Qed.

Lemma elem_of_rangeMap_keys {V} (rank : string → nat) (m : gmap string V) k :
  k ∈ (rangeMap rank m).*1 ↔ is_Some (m !! k).
Proof.
  rewrite list_elem_of_fmap. split.
  - intros [[k' v] [-> Hin]]. apply elem_of_rangeMap in Hin. eauto.
  - intros [v Hv]. exists (k, v). split; [done|]. by apply elem_of_rangeMap.
Qed.

(** ** Steps that only log *)

Lemma quiet_refl l : quiet l l.
Proof. split; [done|]. exists []. by rewrite app_nil_r. Qed.

Lemma quiet_trans l1 l2 l3 : quiet l1 l2 → quiet l2 l3 → quiet l1 l3.
Proof.
  intros [Hr1 (g1 & He1 & Hg1)] [Hr2 (g2 & He2 & Hg2)]. split; [congruence|].
  exists (g1 ++ g2). rewrite He2, He1, app_assoc. split; [done|].
  by apply Forall_app.
Qed.

Lemma quiet_logf lvl msg subject l : quiet l (logf lvl msg subject l).
Proof. split; [done|]. exists [Log lvl msg subject]. split; [done|]. by repeat constructor. Qed.

Lemma quiet_setErrs m l : quiet l (setErrs m l).
Proof. split; [done|]. exists []. by rewrite app_nil_r. Qed.

Ltac quiet_step :=
  first [ apply quiet_refl
        | eapply quiet_trans; [|apply quiet_logf]
        | eapply quiet_trans; [|apply quiet_setErrs] ].

Lemma quiet_readPluginJSON E l path : quiet l (readPluginJSON E l path).1.
Proof.
  unfold readPluginJSON.
  repeat (case_match; simpl); repeat quiet_step.
Qed.

Lemma quiet_readStep E l found path : quiet l (readStep E (l, found) path).1.
Proof.
  unfold readStep.
  pose proof (quiet_readPluginJSON E l path) as H.
  destruct (readPluginJSON E l path) as [l1 [d|e]]; simpl in *.
  - repeat (case_match; simpl); repeat quiet_step; done.
  - by quiet_step.
Qed.

Lemma quiet_readManifests E l paths : quiet l (readManifests E l paths).1.
Proof.
  unfold readManifests. generalize (∅ : gmap string JSONData) as found.
  revert l. induction paths as [|p ps IH]; intros l found; simpl; [apply quiet_refl|].
  pose proof (quiet_readStep E l found p) as H.
  destruct (readStep E (l, found) p) as [l1 f1]. simpl in H.
  eapply quiet_trans; [exact H|apply IH].
Qed.

Lemma quiet_stripDuplicates E l f existing : quiet l (stripDuplicates E l f existing).1.
Proof.
  unfold stripDuplicates.
  generalize (rangeMap (rangeRank E 0) f) as entries.
  generalize (∅ : gset string) as byID. revert l f.
  intros l f byID entries. revert l f byID.
  induction entries as [|[k d] es IH]; intros l f byID; simpl; [apply quiet_refl|].
  unfold stripDuplicatesStep at 2. case_decide.
  - eapply quiet_trans; [apply quiet_logf|]. apply IH.
  - apply IH.
Qed.

Lemma quiet_createPluginsForLoading E l class found :
  quiet l (createPluginsForLoading E l class found).1.
Proof.
  unfold createPluginsForLoading.
  generalize (rangeMap (rangeRank E 1) found) as entries.
  generalize (∅ : gmap string Plugin) as loaded. intros loaded entries.
  revert l loaded. induction entries as [|[k d] es IH]; intros l loaded; simpl;
    [apply quiet_refl|].
  unfold createPluginsStep at 2.
  repeat case_match; (eapply quiet_trans; [|apply IH]); repeat quiet_step.
Qed.

Lemma logsOnly_refl l : logsOnly l l.
Proof. split; [done|]. split; [done|]. exists []. by rewrite app_nil_r. Qed.

Lemma logsOnly_trans l1 l2 l3 : logsOnly l1 l2 → logsOnly l2 l3 → logsOnly l1 l3.
Proof.
  intros (Hr1 & Hs1 & g1 & He1 & Hg1) (Hr2 & Hs2 & g2 & He2 & Hg2).
  split; [congruence|]. split; [congruence|].
  exists (g1 ++ g2). rewrite He2, He1, app_assoc. split; [done|].
  by apply Forall_app.
Qed.

Lemma logsOnly_logf lvl msg subject l : logsOnly l (logf lvl msg subject l).
Proof.
  split; [done|]. split; [done|]. exists [Log lvl msg subject].
  split; [done|]. by repeat constructor.
Qed.

Lemma logsOnly_quiet l l' : logsOnly l l' → quiet l l'.
Proof. intros (? & _ & ?). by split. Qed.

Ltac logs_step :=
  first [ apply logsOnly_refl
        | eapply logsOnly_trans; [|apply logsOnly_logf] ].

Lemma logsOnly_setDefaultNavURLStep E id l nav updated include :
  logsOnly l (setDefaultNavURLStep E id (l, nav, updated) include).1.1.
Proof.
  unfold setDefaultNavURLStep. repeat case_match; simpl; repeat logs_step.
Qed.

Lemma logsOnly_setDefaultNavURL_fold E id incs l nav updated :
  logsOnly l (foldl (setDefaultNavURLStep E id) (l, nav, updated) incs).1.1.
Proof.
  revert l nav updated.
  induction incs as [|i rest IH]; intros l nav updated; simpl; [apply logsOnly_refl|].
  pose proof (logsOnly_setDefaultNavURLStep E id l nav updated i) as H.
  destruct (setDefaultNavURLStep E id (l, nav, updated) i) as [[l1 n1] u1].
  eapply logsOnly_trans; [exact H|apply IH].
Qed.

Lemma logsOnly_setDefaultNavURL E l p : logsOnly l (setDefaultNavURL E l p).1.
Proof.
  unfold setDefaultNavURL.
  pose proof (logsOnly_setDefaultNavURL_fold E (ID (JSON p)) (PluginIncludes (JSON p))
                l (DefaultNavURL p) []) as H.
  destruct (foldl _ _ _) as [[l1 n1] u1]. exact H.
Qed.

Lemma logsOnly_configureNav E l p : logsOnly l (configureNav E l p).1.
Proof.
  unfold configureNav. destruct (IsApp p); [apply logsOnly_setDefaultNavURL|].
  apply logsOnly_refl.
Qed.

Lemma logsOnly_checkModuleJS E l p l' : checkModuleJS E l p = Ok l' → logsOnly l l'.
Proof.
  unfold checkModuleJS. repeat case_match; intros [= <-]; repeat logs_step.
Qed.

Lemma quiet_validateStep E l loaded verified k :
  quiet l (stepLoader (validateStep E (l, loaded, verified) k)).
Proof.
  unfold validateStep. destruct (loaded !! k) as [plugin|]; simpl; [|apply quiet_refl].
  destruct (signatureValidator_Validate E loaded plugin); simpl.
  { repeat quiet_step. }
  destruct (checkModuleJS E _ plugin) as [l1|e] eqn:Hc; simpl.
  2:{ repeat quiet_step. }
  apply logsOnly_checkModuleJS, logsOnly_quiet in Hc.
  pose proof (logsOnly_quiet _ _ (logsOnly_configureNav E l1 plugin)) as H.
  destruct (configureNav E l1 plugin) as [l2 p2]. simpl in *.
  eapply quiet_trans; [|exact H]. eapply quiet_trans; [|exact Hc]. repeat quiet_step.
Qed.

Lemma quiet_validateLoop E l loaded verified keys :
  quiet l (stepLoader (validateLoop E (l, loaded, verified) keys)).
Proof.
  revert l loaded verified.
  induction keys as [|k ks IH]; intros l loaded verified; simpl; [apply quiet_refl|].
  pose proof (quiet_validateStep E l loaded verified k) as H.
  destruct (validateStep E (l, loaded, verified) k) as [[[l1 lo1] v1]|l1 e]; simpl in *; [|done].
  eapply quiet_trans; [exact H|apply IH].
Qed.

Lemma quiet_discoverPlugins E l class paths :
  quiet l (discoverPlugins E l class paths).1.
Proof.
  unfold discoverPlugins.
  pose proof (quiet_readManifests E l paths) as H1.
  destruct (readManifests E l paths) as [l1 f1]. simpl in H1.
  pose proof (quiet_stripDuplicates E l1 f1 (registeredIDs l1)) as H2.
  destruct (stripDuplicates E l1 f1 (registeredIDs l1)) as [l2 f2]. simpl in H2.
  pose proof (quiet_createPluginsForLoading E l2 class f2) as H3.
  destruct (createPluginsForLoading E l2 class f2) as [l3 lo]. simpl in *.
  eauto using quiet_trans.
Qed.

Lemma quiet_verifyPlugins E l class paths :
  quiet l (stepLoader (verifyPlugins E l class paths)).
Proof.
  unfold verifyPlugins.
  pose proof (quiet_discoverPlugins E l class paths) as H1.
  destruct (discoverPlugins E l class paths) as [l1 lo]. simpl in H1.
  eapply quiet_trans; [exact H1|apply quiet_validateLoop].
Qed.

(** ** readPluginJSON *)

Lemma validatePluginJSON_spec (E : Env) (data : JSONData) :
  validatePluginJSON E data = Some ErrInvalidPluginJSON ∧
    (ID data = "" ∨ Type_IsValid E (Type_ data) = false)
  ∨ validatePluginJSON E data = None ∧
    ID data ≠ "" ∧ Type_IsValid E (Type_ data) = true.
Proof.
  unfold validatePluginJSON.
  destruct (String.eqb_spec (ID data) ""); simpl.
  - left. auto.
  - destruct (Type_IsValid E (Type_ data)); simpl; [right|left]; auto.
Qed.

(** Claim C6, as amended. [readPluginJSON] fails with
    [ErrInvalidPluginJSONFilePath] exactly when the extension of the path is
    not ".json" up to case. When the content cannot be parsed it fails with
    the decoder's own error. It fails with [ErrInvalidPluginJSON] exactly when
    the file is read and parsed and the manifest has an empty ID or a type
    that is not valid. A manifest that fails to be read does not enter the
    batch. *)
Theorem readPluginJSON_error_kinds (E : Env) (l : Loader) (pluginJSONPath : string) :
  ((readPluginJSON E l pluginJSONPath).2 = Err ErrInvalidPluginJSONFilePath
   ↔ EqualFold (Ext pluginJSONPath) ".json" = false) ∧
  (∀ reader msg,
     EqualFold (Ext pluginJSONPath) ".json" = true →
     os_Open E pluginJSONPath = Ok reader →
     json_Decode E reader = Err msg →
     (readPluginJSON E l pluginJSONPath).2 = Err (ErrExternal msg)) ∧
  ((readPluginJSON E l pluginJSONPath).2 = Err ErrInvalidPluginJSON
   ↔ EqualFold (Ext pluginJSONPath) ".json" = true ∧
     ∃ reader data,
       os_Open E pluginJSONPath = Ok reader ∧
       json_Decode E reader = Ok data ∧
       (ID data = "" ∨ Type_IsValid E (Type_ data) = false)) ∧
  (∀ e foundPlugins,
     (readPluginJSON E l pluginJSONPath).2 = Err e →
     (readStep E (l, foundPlugins) pluginJSONPath).2 = foundPlugins).
Proof.
  unfold readStep, readPluginJSON.
  destruct (EqualFold (Ext pluginJSONPath) ".json") eqn:Hext; simpl;
    [|naive_solver].
  destruct (os_Open E pluginJSONPath) as [reader|msg] eqn:Hopen; simpl;
    [|naive_solver].
  destruct (json_Decode E reader) as [data|msg] eqn:Hdec; simpl;
    [|naive_solver congruence].
  destruct (validatePluginJSON_spec E data) as [[-> Hbad]|[-> [Hid Hty]]]; simpl.
  - repeat split; try naive_solver congruence.
  - repeat split; try done; [naive_solver congruence|].
    intros (_ & r & d & [= <-] & Hd & Hbad).
    assert (d = data) as -> by congruence.
    destruct Hbad; congruence.
Qed.

(** The theorem of claim C6 on a manifest without id and on a path that
    does not end in ".json". *)
Lemma readPluginJSON_error_kinds_witness :
  (readPluginJSON Sample.missingID Sample.newLoader "/m/plugin.json").2
  = Err ErrInvalidPluginJSON ∧
  (readPluginJSON Sample.missingID Sample.newLoader "/m/plugin.yaml").2
  = Err ErrInvalidPluginJSONFilePath ∧
  (readStep Sample.missingID (Sample.newLoader, ∅) "/m/plugin.json").2 = ∅.
Proof.
  destruct (readPluginJSON_error_kinds Sample.missingID Sample.newLoader "/m/plugin.json")
    as (_ & _ & Hbad & Hskip).
  destruct (readPluginJSON_error_kinds Sample.missingID Sample.newLoader "/m/plugin.yaml")
    as (Hpath & _).
  assert ((readPluginJSON Sample.missingID Sample.newLoader "/m/plugin.json").2
          = Err ErrInvalidPluginJSON) as H.
  { apply Hbad. split; [reflexivity|].
    exists "/m/plugin.json", (Sample.manifest "" "panel" []).
    split; [reflexivity|]. split; [reflexivity|]. left. reflexivity. }
  split; [exact H|]. split.
  - apply Hpath. reflexivity.
  - exact (Hskip _ ∅ H).
Defined.

(** Claim C6 as stated fails on a manifest whose content does not parse:
    the error is the decoder's, not [ErrInvalidPluginJSON]. *)
Lemma unparsable_manifest_is_not_malformed :
  json_Decode Sample.unparsable "/a/plugin.json"
  = Err "invalid character '}' looking for beginning of value" ∧
  (readPluginJSON Sample.unparsable Sample.newLoader "/a/plugin.json").2
  = Err (ErrExternal "invalid character '}' looking for beginning of value") ∧
  (readPluginJSON Sample.unparsable Sample.newLoader "/a/plugin.json").2
  ≠ Err ErrInvalidPluginJSON.
Proof. split; [reflexivity|]. split; [reflexivity|]. discriminate. Qed.








(** ** Unload *)

(** Claim C5. [Unload] of an ID that is not in the registry fails with
    [ErrPluginNotInstalled]; [Unload] of a plugin of class core fails with
    [ErrUninstallCorePlugin]; the two errors differ, and in both cases the
    Loader is returned as it was: the registry is not changed and there is no
    stop, removal from the registry or removal from storage. *)
Theorem Unload_rejects_absent_and_core (E : Env) (l : Loader) (pluginID : string) :
  (Registry.Plugin (pluginRegistry l) pluginID = None →
   Unload E l pluginID = (l, Some ErrPluginNotInstalled)) ∧
  (∀ plugin, Registry.Plugin (pluginRegistry l) pluginID = Some plugin →
     PluginClass plugin = Core →
     Unload E l pluginID = (l, Some ErrUninstallCorePlugin)) ∧
  ErrPluginNotInstalled ≠ ErrUninstallCorePlugin.
Proof.
  unfold Unload. split; [|split].
  - intros ->. reflexivity.
  - intros plugin -> Hcore. unfold IsExternalPlugin. rewrite Hcore. reflexivity.
  - discriminate.
Qed.

(** The theorem of claim C5 on a registry that holds one core plugin. *)
Lemma Unload_rejects_absent_and_core_witness :
  Unload Sample.nested Sample.withCore "absent"
  = (Sample.withCore, Some ErrPluginNotInstalled) ∧
  Unload Sample.nested Sample.withCore "core1"
  = (Sample.withCore, Some ErrUninstallCorePlugin).
Proof.
  destruct (Unload_rejects_absent_and_core Sample.nested Sample.withCore "absent")
    as (Habsent & _).
  destruct (Unload_rejects_absent_and_core Sample.nested Sample.withCore "core1")
    as (_ & Hcore & _).
  split.
  - apply Habsent. vm_compute. reflexivity.
  - apply (Hcore Sample.corePlugin); vm_compute; reflexivity.
Defined.

(** ** The initialization loop *)

Lemma initializeLoop_ok E l vs :
  Forall (λ q, pluginInitializer_Initialize E q = None) vs →
  initializeLoop E l vs
  = (mkLoader (pluginRegistry l) (errs l)
       (events l ++ flat_map (initializedEvents E) vs), None).
Proof.
  intros H. revert l. induction H as [|q vs Hq _ IH]; intros l; simpl.
  - rewrite app_nil_r. by destruct l.
  - rewrite Hq, IH. unfold initializedEvents at 2.
    destruct (roleRegistry_DeclarePluginRoles E q); simpl;
      repeat rewrite <- app_assoc; reflexivity.
Qed.

Lemma initializeLoop_fails E l pre p post msg :
  Forall (λ q, pluginInitializer_Initialize E q = None) pre →
  pluginInitializer_Initialize E p = Some msg →
  initializeLoop E l (pre ++ p :: post)
  = (mkLoader (pluginRegistry l) (errs l)
       (events l ++ flat_map (initializedEvents E) pre ++ [CallInitialize (ID (JSON p))]),
     Some (ErrExternal msg)).
Proof.
  intros H Hp. revert l. induction H as [|q vs Hq _ IH]; intros l; simpl.
  - by rewrite Hp.
  - rewrite Hq, IH. unfold initializedEvents at 2.
    destruct (roleRegistry_DeclarePluginRoles E q); simpl;
      repeat rewrite <- app_assoc; reflexivity.
Qed.

(** Claim C2, as amended. If the Initializer fails for a verified plugin of a
    Load batch, [Load] returns that error and no plugin of the batch is
    registered: the registry is as it was before the call, and beyond log
    lines the call has only initialized the plugins before the failing one
    (build information, role declaration) and called the Initializer on the
    failing one; the plugins after it are never processed, and nothing is
    registered in storage or started. *)
Theorem initializer_failure_aborts_Load (E : Env) (l l1 : Loader) (class : Class)
  (paths pluginJSONPaths : list string) (loadedPlugins : gmap string Plugin)
  (verified : list string) (pre post : list Plugin) (p : Plugin) (msg : string) :
  finder_Find E paths = Ok pluginJSONPaths →
  verifyPlugins E l class pluginJSONPaths = Continue (l1, loadedPlugins, verified) →
  omap (λ k, loadedPlugins !! k) verified = pre ++ p :: post →
  Forall (λ q, pluginInitializer_Initialize E q = None) pre →
  pluginInitializer_Initialize E p = Some msg →
  ∃ l',
    Load E l class paths = (l', Err (ErrExternal msg)) ∧
    pluginRegistry l' = pluginRegistry l ∧
    quiet l l1 ∧
    events l' = events l1 ++ flat_map (initializedEvents E) pre
                  ++ [CallInitialize (ID (JSON p))].
Proof.
  intros Hfind Hver Hvs Hpre Hp.
  pose proof (quiet_verifyPlugins E l class pluginJSONPaths) as Hq.
  rewrite Hver in Hq. simpl in Hq.
  unfold Load, loadPlugins. rewrite Hfind, Hver, Hvs.
  rewrite (initializeLoop_fails E l1 pre p post msg Hpre Hp).
  eexists. split; [reflexivity|]. simpl. split; [apply Hq|]. done.
Qed.

(** The theorem of claim C2 for three sibling plugins x, y, z, the
    Initializer failing for y. *)
Lemma initializer_failure_aborts_Load_witness :
  ∃ l1 px py l',
    Load Sample.failingInitializer Sample.newLoader External Sample.siblingPaths
    = (l', Err (ErrExternal "backend wiring failed")) ∧
    pluginRegistry l' = pluginRegistry Sample.newLoader ∧
    quiet Sample.newLoader l1 ∧
    events l'
    = events l1 ++ flat_map (initializedEvents Sample.failingInitializer) [px]
        ++ [CallInitialize (ID (JSON py))].
Proof.
  do 3 eexists.
  eapply (initializer_failure_aborts_Load Sample.failingInitializer Sample.newLoader
            _ External Sample.siblingPaths Sample.siblingPaths _ _ [_] [_] _
            "backend wiring failed").
  - reflexivity.
  - vm_compute. reflexivity.
  - vm_compute. reflexivity.
  - repeat constructor.
  - reflexivity.
Defined.

(** Claim C2 as stated fails for three verified plugins x, y, z when the
    Initializer fails for y: x has been initialized, and it is not in the
    registry when [Load] returns. *)
Lemma first_plugin_is_not_left_registered :
  let '(l', r) :=
    Load Sample.failingInitializer Sample.newLoader External Sample.siblingPaths in
  r = Err (ErrExternal "backend wiring failed") ∧
  events l'
  = [Log Debug "Loading plugin" "/p/x/plugin.json";
     Log Debug "Loading plugin" "/p/y/plugin.json";
     Log Debug "Loading plugin" "/p/z/plugin.json";
     CallInitialize "x"; CallSetPluginBuildInformation "x";
     CallDeclarePluginRoles "x"; CallInitialize "y"] ∧
  Registry.Plugin (pluginRegistry l') "x" = None.
Proof. vm_compute. repeat split. Qed.

(** ** The registration loop *)

Lemma load_outcomes E l p :
  let id := ID (JSON p) in
  match Registry.Add (pluginRegistry l) p with
  | (_, Some e) => load E l p = (l, Some (ErrExternal e))
  | (r, None) =>
      let l1 := setRegistry r l in
      let l2 := if negb (IsCorePlugin p) then logf Info_ "Plugin registered" id l1 else l1 in
      if IsExternalPlugin p then
        match pluginStorage_Register E id (PluginDir p) with
        | Some e => load E l p = (emit (CallStorageRegister id (PluginDir p)) l2,
                                  Some (ErrExternal e))
        | None => load E l p
                  = (emit (CallProcessStart id) (emit (CallStorageRegister id (PluginDir p)) l2),
                     ErrExternal <$> processManager_Start E id)
        end
      else load E l p = (emit (CallProcessStart id) l2,
                         ErrExternal <$> processManager_Start E id)
  end.
Proof.
  unfold load. destruct (Registry.Add (pluginRegistry l) p) as [r [e|]]; [done|].
  simpl. destruct (IsExternalPlugin p); [|done].
  destruct (pluginStorage_Register E (ID (JSON p)) (PluginDir p)); done.
Qed.

Lemma load_registry E l p :
  pluginRegistry (load E l p).1
  = match pluginRegistry l !! ID (JSON p) with
    | Some _ => pluginRegistry l
    | None => <[ID (JSON p) := p]> (pluginRegistry l)
    end.
Proof.
  unfold load, Registry.Add.
  destruct (pluginRegistry l !! ID (JSON p)); [done|].
  repeat case_match; simpl; try done; simplify_eq; done.
Qed.

Lemma loadStep_registry E l p :
  pluginRegistry (loadStep E l p)
  = match pluginRegistry l !! ID (JSON p) with
    | Some _ => pluginRegistry l
    | None => <[ID (JSON p) := p]> (pluginRegistry l)
    end.
Proof.
  unfold loadStep. pose proof (load_registry E l p) as H.
  destruct (load E l p) as [l1 [e|]]; exact H.
Qed.

Lemma loadStep_registers E l p : is_Some (pluginRegistry (loadStep E l p) !! ID (JSON p)).
Proof.
  rewrite loadStep_registry.
  destruct (pluginRegistry l !! ID (JSON p)) eqn:H; [by rewrite H|].
  rewrite lookup_insert_eq. eauto.
Qed.

Lemma loadStep_keeps E l p id :
  is_Some (pluginRegistry l !! id) → is_Some (pluginRegistry (loadStep E l p) !! id).
Proof.
  intros H. rewrite loadStep_registry.
  destruct (pluginRegistry l !! ID (JSON p)) eqn:Hp; [done|].
  destruct (decide (ID (JSON p) = id)) as [<-|Hne].
  - rewrite lookup_insert_eq. eauto.
  - by rewrite lookup_insert_ne.
Qed.

Lemma foldl_loadStep_keeps E vs l id :
  is_Some (pluginRegistry l !! id) →
  is_Some (pluginRegistry (foldl (loadStep E) l vs) !! id).
Proof.
  revert l. induction vs as [|q vs IH]; intros l H; simpl; [done|].
  apply IH. by apply loadStep_keeps.
Qed.

Lemma foldl_loadStep_registers E vs l p :
  p ∈ vs → is_Some (pluginRegistry (foldl (loadStep E) l vs) !! ID (JSON p)).
Proof.
  revert l. induction vs as [|q vs IH]; intros l Hin; simpl.
  - by apply not_elem_of_nil in Hin.
  - apply elem_of_cons in Hin as [->|Hin].
    + apply foldl_loadStep_keeps, loadStep_registers.
    + by apply IH.
Qed.

(** Claim C3, as amended. For every plugin that reaches the registration
    stage, a failure of the registry Add is logged only, like a failure of the
    process start: the registration loop goes on and [Load] returns the
    verified plugins and no error. When only the process start fails, the
    plugin stays in the registry. Every plugin [Load] returns has its ID in
    the registry. *)
Theorem registration_failures_are_logged_only (E : Env) :
  (∀ l p e,
     (Registry.Add (pluginRegistry l) p).2 = Some e →
     loadStep E l p = logf Error_ "Could not start plugin" (ID (JSON p)) l) ∧
  (∀ l p e,
     (Registry.Add (pluginRegistry l) p).2 = None →
     (IsExternalPlugin p = true →
      pluginStorage_Register E (ID (JSON p)) (PluginDir p) = None) →
     processManager_Start E (ID (JSON p)) = Some e →
     ∃ l1,
       loadStep E l p
       = logf Error_ "Could not start plugin" (ID (JSON p))
           (emit (CallProcessStart (ID (JSON p))) l1) ∧
       pluginRegistry (loadStep E l p) !! ID (JSON p) = Some p) ∧
  (∀ l class paths pluginJSONPaths l1 loadedPlugins verified l2,
     finder_Find E paths = Ok pluginJSONPaths →
     verifyPlugins E l class pluginJSONPaths = Continue (l1, loadedPlugins, verified) →
     initializeLoop E l1 (omap (λ k, loadedPlugins !! k) verified) = (l2, None) →
     ∃ l',
       Load E l class paths = (l', Ok (omap (λ k, loadedPlugins !! k) verified)) ∧
       ∀ p, p ∈ omap (λ k, loadedPlugins !! k) verified →
            is_Some (pluginRegistry l' !! ID (JSON p))).
Proof.
  split; [|split].
  - intros l p e Hadd. unfold loadStep.
    pose proof (load_outcomes E l p) as H. simpl in H.
    destruct (Registry.Add (pluginRegistry l) p) as [r [e'|]]; [|done].
    by rewrite H.
  - intros l p e Hadd Hstore Hstart. unfold loadStep.
    pose proof (load_outcomes E l p) as H. simpl in H.
    pose proof (load_registry E l p) as Hreg.
    unfold Registry.Add in *.
    destruct (pluginRegistry l !! ID (JSON p)) eqn:Hfree; [done|].
    simpl in H. rewrite Hstart in H.
    destruct (IsExternalPlugin p).
    + rewrite Hstore in H by done. rewrite H in *. simpl in *.
      eexists. split; [reflexivity|]. rewrite Hreg. apply lookup_insert_eq.
    + rewrite H in *. simpl in *.
      eexists. split; [reflexivity|]. rewrite Hreg. apply lookup_insert_eq.
  - intros l class paths jp l1 loaded verified l2 Hfind Hver Hinit.
    unfold Load, loadPlugins. rewrite Hfind, Hver, Hinit.
    eexists. split; [reflexivity|].
    intros p Hp. by apply foldl_loadStep_registers.
Qed.

(** The theorem of claim C3 for three sibling plugins, the process of x
    failing to start. *)
Lemma registration_failures_are_logged_only_witness :
  ∃ l' ps,
    Load Sample.failingStart Sample.newLoader External Sample.siblingPaths = (l', Ok ps) ∧
    ∀ p, p ∈ ps → is_Some (pluginRegistry l' !! ID (JSON p)).
Proof.
  destruct (registration_failures_are_logged_only Sample.failingStart) as (_ & _ & H).
  edestruct (H Sample.newLoader External Sample.siblingPaths Sample.siblingPaths)
    as (l' & Hload & Hreg).
  - reflexivity.
  - vm_compute. reflexivity.
  - vm_compute. reflexivity.
  - exists l'. eexists. split; [exact Hload|exact Hreg].
Defined.

(** Claim C3 as stated fails for two directories whose manifests declare the
    same ID: the registry Add of the second plugin fails, and [Load] returns
    both plugins and no error. *)
Lemma failed_Add_does_not_fail_Load :
  ∃ l2 px py,
    Sample.beforeRegistration Sample.twins Sample.newLoader External Sample.twinPaths
    = Some (l2, [px; py]) ∧
    (Registry.Add (pluginRegistry (loadStep Sample.twins l2 px)) py).2
    = Some "plugin is already registered" ∧
    (Load Sample.twins Sample.newLoader External Sample.twinPaths).2 = Ok [px; py].
Proof.
  do 3 eexists. split; [vm_compute; reflexivity|].
  split; vm_compute; reflexivity.
Qed.

(** ** The module.js check *)

Lemma checkModuleJS_exempt E l plugin :
  IsRenderer plugin = true ∨ IsCorePlugin plugin = true →
  checkModuleJS E l plugin = Ok l.
Proof.
  unfold checkModuleJS. intros [-> | ->]; simpl; [done|].
  by rewrite andb_false_r.
Qed.









(** ** setDefaultNavURL *)

Lemma slugged_idem E i : slugged E (slugged E i) = slugged E i.
Proof.
  unfold slugged. destruct (String.eqb (inc_Slug i) "") eqn:H; simpl.
  - by destruct i, (String.eqb (slugify_Slugify E _) "").
  - by rewrite H.
Qed.

Lemma navTarget_slugged E id i : navTarget E id (slugged E i) = navTarget E id i.
Proof. unfold navTarget. by rewrite slugged_idem. Qed.

Lemma default_last_cons {A} (d x : A) (xs : list A) :
  default d (last (x :: xs)) = default x (last xs).
Proof.
  destruct xs as [|y ys]; [done|]. rewrite last_cons_cons.
  destruct (last (y :: ys)) eqn:H; [done|].
  by apply last_None in H.
Qed.

Lemma lastNavURL_cons E id start i rest :
  lastNavURL E id start (i :: rest)
  = lastNavURL E id (default start (navTarget E id i)) rest.
Proof.
  unfold lastNavURL. simpl. destruct (navTarget E id i) as [u|]; simpl; [|done].
  apply default_last_cons.
Qed.

Lemma setDefaultNavURLStep_spec E id l nav updated i :
  setDefaultNavURLStep E id (l, nav, updated) i
  = (mkLoader (pluginRegistry l) (errs l) (events l ++ missingUIDWarnings E id [i]),
     default nav (navTarget E id i), updated ++ [slugged E i]).
Proof.
  unfold setDefaultNavURLStep, navTarget, missingUIDWarnings, missingUID. simpl.
  fold (slugged E i).
  destruct (inc_DefaultNav (slugged E i)); simpl.
  2:{ rewrite app_nil_r. by destruct l. }
  destruct (String.eqb (inc_Type (slugged E i)) "page") eqn:Hp; simpl.
  - destruct (String.eqb (inc_Type (slugged E i)) "dashboard") eqn:Hd; simpl.
    + apply String.eqb_eq in Hp, Hd. congruence.
    + rewrite app_nil_r. by destruct l.
  - destruct (String.eqb (inc_Type (slugged E i)) "dashboard") eqn:Hd; simpl.
    + destruct (String.eqb (includes_DashboardURLPath E (slugged E i)) ""); simpl;
        [done|]. rewrite app_nil_r. by destruct l.
    + rewrite app_nil_r. by destruct l.
Qed.

Lemma setDefaultNavURL_fold E id incs l nav updated :
  foldl (setDefaultNavURLStep E id) (l, nav, updated) incs
  = (mkLoader (pluginRegistry l) (errs l) (events l ++ missingUIDWarnings E id incs),
     lastNavURL E id nav incs, updated ++ (slugged E <$> incs)).
Proof.
  revert l nav updated. induction incs as [|i rest IH]; intros l nav updated.
  - simpl. rewrite !app_nil_r. by destruct l.
  - cbn [foldl]. rewrite setDefaultNavURLStep_spec, IH, lastNavURL_cons. simpl.
    unfold missingUIDWarnings. simpl. rewrite app_nil_r.
    by rewrite <- !app_assoc.
Qed.

Lemma setDefaultNavURL_spec E l p :
  setDefaultNavURL E l p
  = (mkLoader (pluginRegistry l) (errs l)
       (events l ++ missingUIDWarnings E (ID (JSON p)) (PluginIncludes (JSON p))),
     setDefaultNav
       (lastNavURL E (ID (JSON p)) (DefaultNavURL p) (PluginIncludes (JSON p)))
       (setJSON (setIncludes (slugged E <$> PluginIncludes (JSON p)) (JSON p)) p)).
Proof. unfold setDefaultNavURL. by rewrite setDefaultNavURL_fold. Qed.

(** ** stripDuplicates *)

Lemma stripDuplicatesStep_eq existing l f byID k d :
  stripDuplicatesStep existing (l, f, byID) (k, d)
  = if decide (ID d ∈ existing)
    then (logf Debug "Skipping plugin as it's already installed" (ID d) l,
          delete k f, byID)
    else (l, f, {[ID d]} ∪ byID).
Proof. reflexivity. Qed.

Lemma stripDuplicates_fold existing k entries l f byID :
  let f' := (foldl (stripDuplicatesStep existing) (l, f, byID) entries).1.2 in
  let hit := Exists (λ entry, entry.1 = k ∧ ID entry.2 ∈ existing) entries in
  (hit → f' !! k = None) ∧ (¬ hit → f' !! k = f !! k).
Proof.
  revert l f byID. induction entries as [|[k' d'] es IH]; intros l f byID.
  - simpl. split; [|done]. intros H. by apply Exists_nil in H.
  - cbn [foldl]. rewrite stripDuplicatesStep_eq. cbv zeta.
    destruct (decide (ID d' ∈ existing)) as [Hex|Hnex].
    + specialize (IH (logf Debug "Skipping plugin as it's already installed" (ID d') l)
                    (delete k' f) byID).
      simpl in IH. destruct IH as [IH1 IH2]. split.
      * intros Hhit.
        destruct (decide (Exists (λ entry, entry.1 = k ∧ ID entry.2 ∈ existing) es))
          as [Hes|Hes]; [by apply IH1|].
        rewrite IH2 by done. apply Exists_cons in Hhit as [[Hk _]|Hhit]; [|done].
        simpl in Hk. subst k'. apply lookup_delete_eq.
      * intros Hno. rewrite IH2.
        -- apply lookup_delete_ne. intros ->. apply Hno. by left.
        -- intros Hes. apply Hno. by right.
    + specialize (IH l f ({[ID d']} ∪ byID)). simpl in IH.
      destruct IH as [IH1 IH2]. split.
      * intros Hhit. apply IH1.
        apply Exists_cons in Hhit as [[_ Hd]|Hhit]; [done|done].
      * intros Hno. apply IH2. intros Hes. apply Hno. by right.
Qed.

Lemma stripDuplicates_lookup E l f existing k :
  (stripDuplicates E l f existing).2 !! k
  = match f !! k with
    | Some d => if decide (ID d ∈ existing) then None else Some d
    | None => None
    end.
Proof.
  unfold stripDuplicates.
  pose proof (stripDuplicates_fold existing k (rangeMap (rangeRank E 0) f) l f ∅) as H.
  destruct (foldl _ _ _) as [[l1 f1] b1]. simpl in *. destruct H as [H1 H2].
  assert (Exists (λ entry, entry.1 = k ∧ ID entry.2 ∈ existing)
            (rangeMap (rangeRank E 0) f)
          ↔ ∃ d, f !! k = Some d ∧ ID d ∈ existing) as Hhit.
  { rewrite Exists_exists. split.
    - intros ([k' d] & Hin & <- & Hd). apply elem_of_rangeMap in Hin. eauto.
    - intros (d & Hk & Hd). exists (k, d). split; [by apply elem_of_rangeMap|done]. }
  destruct (f !! k) as [d|] eqn:Hk.
  - case_decide as Hd.
    + apply H1, Hhit. eauto.
    + rewrite H2; [done|]. rewrite Hhit. intros (d' & [= <-] & Hd'). done.
  - rewrite H2; [done|]. rewrite Hhit. intros (d' & [=] & _).
Qed.

(** ** createPluginsForLoading *)

Lemma setScreenshots_frame E n i p p' :
  setScreenshots E n i p = Ok p' → base p' = base p ∧ links p' = links p.
Proof.
  revert i p. induction n as [|n IH]; intros i p; simpl.
  - by intros [= <-].
  - destruct (info_Screenshots (PluginInfo (JSON p)) !! i); [|by intros [= <-]].
    destruct (assetPath_RelativeURL E p _ ""); [|done].
    intros H. apply IH in H as [-> ->]. done.
Qed.

Lemma setImages_frame E p p' :
  setImages E p = Ok p' → base p' = base p ∧ links p' = links p.
Proof.
  unfold setImages. repeat (case_match; [|done]).
  intros Hs. apply setScreenshots_frame in Hs as [-> ->]. done.
Qed.

Lemma createPluginBase_ok E d class dir p :
  createPluginBase E d class dir = Ok p →
  base p = (ID d, Type_ d, dir, class, PluginIncludes d, "") ∧ links p = (None, []).
Proof.
  unfold createPluginBase. repeat (case_match; [|done]).
  intros Hs. apply setImages_frame in Hs as [-> ->]. done.
Qed.

Lemma created_ok E class dir d p :
  created E class dir d = Some p →
  base p = (ID d, Type_ d, dir, class, PluginIncludes d, "") ∧ links p = (None, []).
Proof.
  unfold created. destruct (createPluginBase E d class dir) as [p0|] eqn:H0; [|done].
  destruct (initialSignature E p0); [|done]. intros [= <-].
  apply createPluginBase_ok in H0 as [H1 H2]. by rewrite <- H1, <- H2.
Qed.

Lemma createPluginsStep_eq E class l loaded k d :
  (createPluginsStep E class (l, loaded) (k, d)).2
  = match created E class k d with
    | Some p => <[k := p]> loaded
    | None => loaded
    end.
Proof.
  unfold createPluginsStep, created.
  destruct (createPluginBase E d class k) as [p0|] eqn:H0; [|done].
  apply createPluginBase_ok in H0 as [H1 _].
  assert (PluginDir p0 = k) as Hk by (by injection H1).
  destruct (initialSignature E p0); [|done]. simpl. by rewrite Hk.
Qed.

Lemma createPlugins_fold E class k entries l loaded :
  NoDup entries.*1 →
  let loaded' := (foldl (createPluginsStep E class) (l, loaded) entries).2 in
  (∀ d p, (k, d) ∈ entries → created E class k d = Some p → loaded' !! k = Some p) ∧
  ((∀ d, (k, d) ∈ entries → created E class k d = None) → loaded' !! k = loaded !! k).
Proof.
  revert l loaded. induction entries as [|[k' d'] es IH]; intros l loaded Hnd.
  - simpl. split; [|done]. intros d p Hin. by apply not_elem_of_nil in Hin.
  - apply NoDup_cons in Hnd as [Hk' Hnd]. cbn [foldl].
    pose proof (createPluginsStep_eq E class l loaded k' d') as Hstep.
    destruct (createPluginsStep E class (l, loaded) (k', d')) as [l1 loaded1].
    simpl in Hstep. specialize (IH l1 loaded1 Hnd). simpl in IH.
    destruct IH as [IH1 IH2]. simpl. split.
    + intros d p Hin Hc. apply elem_of_cons in Hin as [[= -> ->]|Hin]; [|eauto].
      rewrite IH2.
      * rewrite Hstep, Hc. apply lookup_insert_eq.
      * intros d Hin. destruct Hk'. apply list_elem_of_fmap. by exists (k', d).
    + intros Hnone. rewrite IH2.
      * rewrite Hstep. destruct (created E class k' d') as [p|] eqn:Hc; [|done].
        apply lookup_insert_ne. intros ->. rewrite Hnone in Hc; [done|left].
      * intros d Hin. apply Hnone. by right.
Qed.

Lemma createPluginsForLoading_lookup E l class found k :
  (createPluginsForLoading E l class found).2 !! k
  = found !! k ≫= created E class k.
Proof.
  unfold createPluginsForLoading.
  destruct (createPlugins_fold E class k (rangeMap (rangeRank E 1) found) l ∅
              (NoDup_rangeMap_keys _ _)) as [H1 H2].
  destruct (found !! k) as [d|] eqn:Hk; simpl.
  - destruct (created E class k d) as [p|] eqn:Hc.
    + eapply H1; [|done]. by apply elem_of_rangeMap.
    + rewrite H2; [done|]. intros d' Hin. apply elem_of_rangeMap in Hin. congruence.
  - rewrite H2; [done|]. intros d' Hin. apply elem_of_rangeMap in Hin. congruence.
Qed.

(** ** The dependency wiring *)

Lemma findParent_dom (m1 m2 : gmap string Plugin) ancestors pluginPath :
  (∀ k, is_Some (m1 !! k) ↔ is_Some (m2 !! k)) →
  findParent m1 pluginPath ancestors = findParent m2 pluginPath ancestors.
Proof.
  intros Hdom. revert pluginPath.
  induction ancestors as [|a rest IH]; intros pluginPath; simpl; [done|].
  specialize (Hdom (Join [pluginPath; a])).
  destruct (m1 !! Join [pluginPath; a]) as [p1|] eqn:H1,
           (m2 !! Join [pluginPath; a]) as [p2|] eqn:H2; try done.
  - destruct Hdom as [Hd _]. destruct Hd as [? [=]]. eauto.
  - destruct Hdom as [_ Hd]. destruct Hd as [? [=]]. eauto.
Qed.

Lemma parentOf_dom (m1 m2 : gmap string Plugin) dir :
  (∀ k, is_Some (m1 !! k) ↔ is_Some (m2 !! k)) → parentOf m1 dir = parentOf m2 dir.
Proof. intros H. unfold parentOf. by apply findParent_dom. Qed.

Lemma wireStep_lookup loaded k0 k :
  option_Forall2
    (λ p p', base p' = base p ∧
             Parent p' = if decide (k = k0) then wiredParent loaded p else Parent p)
    (loaded !! k) (wireStep loaded k0 !! k).
Proof.
  unfold wireStep, wiredParent.
  destruct (loaded !! k0) as [plugin|] eqn:Hk0.
  2:{ destruct (loaded !! k) as [p|] eqn:Hk; constructor. split; [done|].
      case_decide; [congruence|done]. }
  destruct (parentOf loaded (PluginDir plugin)) as [pd|] eqn:Hp.
  - rewrite !lookup_alter.
    destruct (decide (pd = k)) as [->|Hpd], (decide (k0 = k)) as [->|Hk]; simpl.
    + rewrite Hk0. simpl. constructor. split; [done|].
      rewrite decide_True by done. by rewrite Hp.
    + destruct (loaded !! k) as [p|]; constructor. split; [done|].
      by rewrite decide_False by congruence.
    + rewrite Hk0. simpl. constructor. split; [done|].
      rewrite decide_True by done. by rewrite Hp.
    + destruct (loaded !! k) as [p|]; constructor. split; [done|].
      by rewrite decide_False by congruence.
  - destruct (loaded !! k) as [p|] eqn:Hk; constructor. split; [done|].
    case_decide; [|done]. subst. assert (p = plugin) as -> by congruence.
    by rewrite Hp.
Qed.

Lemma wireStep_dom loaded k0 k :
  is_Some (wireStep loaded k0 !! k) ↔ is_Some (loaded !! k).
Proof.
  pose proof (wireStep_lookup loaded k0 k) as H.
  inversion H; split; intros [? ?]; eauto; congruence.
Qed.

Lemma wire_fold loaded todo k :
  option_Forall2
    (λ p p', base p' = base p ∧
             Parent p' = if decide (k ∈ todo) then wiredParent loaded p else Parent p)
    (loaded !! k) (foldl wireStep loaded todo !! k).
Proof.
  revert loaded. induction todo as [|k0 rest IH]; intros loaded.
  - simpl. destruct (loaded !! k); by constructor.
  - cbn [foldl]. specialize (IH (wireStep loaded k0)).
    pose proof (wireStep_lookup loaded k0 k) as Hs.
    assert (∀ dir, parentOf (wireStep loaded k0) dir = parentOf loaded dir) as Hdom.
    { intros dir. apply parentOf_dom. intros. apply wireStep_dom. }
    destruct Hs as [p p1 [Hb1 Hp1]|]; inversion IH as [p1' p2 [Hb2 Hp2] Heq1 Heq2|];
      constructor.
    split; [congruence|].
    assert (PluginDir p1 = PluginDir p) as Hdir by (by injection Hb1).
    unfold wiredParent in *. rewrite Hdom, Hdir in Hp2.
    rewrite Hp2, Hp1.
    destruct (decide (k = k0)) as [->|Hne].
    + rewrite (decide_True (P := k0 ∈ k0 :: rest)) by left.
      case_decide; [|done]. by destruct (parentOf loaded (PluginDir p)).
    + case_decide as Hin.
      * rewrite decide_True by (by right). done.
      * rewrite decide_False; [done|]. rewrite elem_of_cons. naive_solver.
Qed.

Lemma wireDependencies_lookup E loaded k :
  option_Forall2 (λ p p', base p' = base p ∧ Parent p' = wiredParent loaded p)
    (loaded !! k) (wireDependencies E loaded !! k).
Proof.
  unfold wireDependencies.
  pose proof (wire_fold loaded (rangeMap (rangeRank E 2) loaded).*1 k) as H.
  destruct (loaded !! k) as [p|] eqn:Hk; inversion H as [? p' [Hb Hp]|]; subst;
    constructor.
  split; [done|]. rewrite Hp. apply decide_True, elem_of_rangeMap_keys.
  by rewrite Hk.
Qed.

(** ** The discovered batch *)

Lemma registeredIDs_quiet l l' : quiet l l' → registeredIDs l' = registeredIDs l.
Proof. intros [H _]. unfold registeredIDs. by rewrite H. Qed.

Lemma discoverPlugins_eq E l class pluginJSONPaths :
  ∃ l1 l2 l3 found,
    readManifests E l pluginJSONPaths = (l1, found) ∧
    (discoverPlugins E l class pluginJSONPaths)
    = (l3, wireDependencies E
             (createPluginsForLoading E l2 class
                (stripDuplicates E l1 found (registeredIDs l)).2).2).
Proof.
  unfold discoverPlugins.
  pose proof (quiet_readManifests E l pluginJSONPaths) as Hq.
  destruct (readManifests E l pluginJSONPaths) as [l1 found]. simpl in Hq.
  rewrite (registeredIDs_quiet _ _ Hq).
  destruct (stripDuplicates E l1 found (registeredIDs l)) as [l2 f2] eqn:Hs.
  destruct (createPluginsForLoading E l2 class f2) as [l3 lo] eqn:Hc.
  exists l1, l2, l3, found. split; [done|]. rewrite Hs. cbn [snd]. by rewrite Hc.
Qed.

Lemma discoverPlugins_lookup E l class pluginJSONPaths k p :
  (discoverPlugins E l class pluginJSONPaths).2 !! k = Some p →
  ∃ d p0,
    (readManifests E l pluginJSONPaths).2 !! k = Some d ∧
    (ID d ∉ registeredIDs l) ∧
    created E class k d = Some p0 ∧
    base p = base p0 ∧
    Parent p = parentOf (discoverPlugins E l class pluginJSONPaths).2 k.
Proof.
  destruct (discoverPlugins_eq E l class pluginJSONPaths) as (l1 & l2 & l3 & found & Hr & ->).
  rewrite Hr. simpl.
  set (loaded := (createPluginsForLoading E l2 class _).2).
  intros Hk.
  pose proof (wireDependencies_lookup E loaded k) as Hw. rewrite Hk in Hw.
  inversion Hw as [p0 p' [Hb Hp] Hl0|]; subst.
  symmetry in Hl0. pose proof Hl0 as Hcr. unfold loaded in Hcr.
  rewrite createPluginsForLoading_lookup, stripDuplicates_lookup in Hcr.
  destruct (found !! k) as [d|] eqn:Hf; [|done].
  case_decide as Hreg; [done|]. simpl in Hcr.
  exists d, p0. repeat split; try done.
  rewrite Hp. unfold wiredParent.
  destruct (created_ok _ _ _ _ _ Hcr) as [Hbase Hlinks].
  assert (PluginDir p0 = k) as -> by (by injection Hbase).
  assert (Parent p0 = None) as -> by (by injection Hlinks).
  rewrite (parentOf_dom (wireDependencies E loaded) loaded).
  - by destruct (parentOf loaded k).
  - intros k'. pose proof (wireDependencies_lookup E loaded k') as H.
    inversion H; split; intros [? ?]; eauto; congruence.
Qed.


(** ** The validation loop *)

Lemma core_IsApp p q : core p = core q → IsApp p = IsApp q.
Proof. unfold core, IsApp. by intros [= _ -> _ _]. Qed.

Lemma base_eq p q :
  base p = base q →
  core p = core q ∧ PluginIncludes (JSON p) = PluginIncludes (JSON q)
  ∧ DefaultNavURL p = DefaultNavURL q.
Proof.
  unfold base, core. intros [= H1 H2 H3 H4 H5 H6].
  by rewrite H1, H2, H3, H4, H5, H6.
Qed.

Lemma core_eq p q :
  core p = core q →
  ID (JSON p) = ID (JSON q) ∧ Type_ (JSON p) = Type_ (JSON q)
  ∧ PluginDir p = PluginDir q ∧ PluginClass p = PluginClass q.
Proof. unfold core. by intros [= H1 H2 H3 H4]. Qed.

Lemma configureNav_fields E l p :
  let p' := (configureNav E l p).2 in
  core p' = core p ∧ links p' = links p ∧
  DefaultNavURL p'
  = (if IsApp p
     then lastNavURL E (ID (JSON p)) (DefaultNavURL p) (PluginIncludes (JSON p))
     else DefaultNavURL p) ∧
  PluginIncludes (JSON p')
  = (if IsApp p then slugged E <$> PluginIncludes (JSON p) else PluginIncludes (JSON p)).
Proof.
  unfold configureNav. destruct (IsApp p); [|done].
  by rewrite setDefaultNavURL_spec.
Qed.

Lemma configureChild_fields E loaded p :
  base (configureChild E loaded p) = base p ∧ links (configureChild E loaded p) = links p.
Proof.
  unfold configureChild. destruct (Parent p); [|done].
  destruct (loaded !! s) as [parent|]; [|done].
  destruct (IsApp parent) eqn:Happ; [|done].
  unfold configureAppChildPlugin. by rewrite Happ.
Qed.

Lemma omap_navTarget_slugged E id (incs : list Includes) :
  omap (navTarget E id) (slugged E <$> incs) = omap (navTarget E id) incs.
Proof.
  induction incs as [|i rest IH]; [done|]. simpl.
  rewrite navTarget_slugged. destruct (navTarget E id i); [f_equal|]; exact IH.
Qed.

Lemma lastNavURL_slugged E id start incs :
  lastNavURL E id start (slugged E <$> incs) = lastNavURL E id start incs.
Proof. unfold lastNavURL. by rewrite omap_navTarget_slugged. Qed.

Lemma validateStep_Continue E l loaded verified k l' loaded' verified' :
  validateStep E (l, loaded, verified) k = Continue (l', loaded', verified') →
  match loaded !! k with
  | None => l' = l ∧ loaded' = loaded ∧ verified' = verified
  | Some plugin =>
      match signatureValidator_Validate E loaded plugin with
      | Some e =>
          loaded' = <[k := setSignatureError e plugin]> loaded ∧
          verified' = verified ∧
          errs l' = <[ID (JSON plugin) := e]> (errs l)
      | None =>
          verified' = verified ++ [k] ∧
          errs l' = delete (ID (JSON plugin)) (errs l) ∧
          ∃ l1, loaded'
                = <[k := configureChild E (<[k := (configureNav E l1 plugin).2]> loaded)
                           (configureNav E l1 plugin).2]> loaded
      end
  end.
Proof.
  unfold validateStep. destruct (loaded !! k) as [plugin|]; [|by intros [= <- <- <-]].
  destruct (signatureValidator_Validate E loaded plugin) as [e|].
  { by intros [= <- <- <-]. }
  simpl. destruct (checkModuleJS E _ plugin) as [l1|] eqn:Hc; [|done].
  apply logsOnly_checkModuleJS in Hc as (_ & Herrs & _).
  pose proof (logsOnly_configureNav E l1 plugin) as (_ & Herrs2 & _).
  destruct (configureNav E l1 plugin) as [l2 p2] eqn:Hn. simpl in *.
  intros [= <- <- <-]. split; [done|]. split; [congruence|].
  exists l1. rewrite Hn. simpl. by rewrite insert_insert_eq.
Qed.

Lemma validateLoop_ind E (Inv : Loader * gmap string Plugin * list string → list string → Prop) :
  (∀ st k rest st', Inv st (k :: rest) → k ∉ rest →
                    validateStep E st k = Continue st' → Inv st' rest) →
  ∀ todo st st', NoDup todo → Inv st todo → validateLoop E st todo = Continue st' →
                 Inv st' [].
Proof.
  intros Hstep todo. induction todo as [|k rest IH]; intros st st' Hnd Hinv; simpl.
  - by intros [= <-].
  - apply NoDup_cons in Hnd as [Hk Hnd].
    destruct (validateStep E st k) as [st1|] eqn:Hs; [|done].
    intros Hloop. eapply IH; [done| |done]. eapply Hstep; done.
Qed.

Lemma validationInv_step E loaded0 st k rest st' :
  (∀ k p0, loaded0 !! k = Some p0 → DefaultNavURL p0 = "") →
  validationInv E loaded0 st (k :: rest) → k ∉ rest →
  validateStep E st k = Continue st' →
  validationInv E loaded0 st' rest.
Proof.
  intros Hnav0. destruct st as [[l store] verified], st' as [[l' store'] verified'].
  intros (Ha & Hb & Hc & He & Hf) Hk Hstep.
  apply validateStep_Continue in Hstep.
  assert (store !! k = loaded0 !! k) as Hsk by (apply Ha; left).
  rewrite Hsk in Hstep.
  assert (∀ k', k' ∉ rest → k' ≠ k → k' ∉ k :: rest) as Hout.
  { intros k' ? ?. rewrite elem_of_cons. naive_solver. }
  destruct (loaded0 !! k) as [p0|] eqn:Hk0.
  2:{ destruct Hstep as (-> & -> & ->). repeat split.
      - intros k' Hin. apply Ha. by right.
      - done.
      - intros Hin. destruct (Hc _ H) as [Hnot _]. apply Hnot. by right.
      - by destruct (Hc _ H) as [_ ?].
      - intros k' p' Hk' Hnr Hnv. apply (He k' p' Hk'); [|done].
        apply Hout; [done|]. congruence.
      - intros k1 p1 v Hk1 Hv Huniq Hnr. apply (Hf k1 p1 v Hk1 Hv Huniq).
        apply Hout; [done|]. congruence. }
  destruct (signatureValidator_Validate E store p0) as [e|] eqn:Hval.
  - destruct Hstep as (-> & -> & Herrs). repeat split.
    + intros k' Hin. rewrite lookup_insert_ne by (intros ->; done). apply Ha. by right.
    + intros k'. destruct (decide (k = k')) as [<-|Hne].
      * rewrite lookup_insert_eq, Hk0. by constructor.
      * rewrite lookup_insert_ne by done. apply Hb.
    + intros Hin. destruct (Hc _ H) as [Hnot _]. apply Hnot. by right.
    + destruct (Hc _ H) as [Hnot (q0 & q & s0 & ? & ? & ? & ?)].
      exists q0, q, s0. rewrite lookup_insert_ne; [done|].
      intros ->. apply Hnot. left.
    + intros k' p' Hk' Hnr Hnv. destruct (decide (k' = k)) as [->|Hne].
      * assert (p' = p0) as -> by congruence. eauto.
      * apply (He k' p' Hk'); [|done]. by apply Hout.
    + intros k1 p1 v Hk1 Hv Huniq Hnr. rewrite Herrs.
      destruct (decide (k1 = k)) as [->|Hne].
      * assert (p1 = p0) as -> by congruence.
        rewrite lookup_insert_eq. rewrite <- (Hv store). done.
      * rewrite lookup_insert_ne.
        -- apply (Hf k1 p1 v Hk1 Hv Huniq). by apply Hout.
        -- intros Hid. apply Hne. symmetry. by apply (Huniq k p0).
  - destruct Hstep as (-> & Herrs & l1 & ->).
    pose proof (configureNav_fields E l1 p0) as Hn. cbv zeta in Hn.
    set (p2 := (configureNav E l1 p0).2) in *.
    destruct Hn as (Hcore & Hlinks & Hurl & Hincs).
    pose proof (configureChild_fields E (<[k := p2]> store) p2) as [Hbase Hlinks2].
    set (p3 := configureChild E (<[k := p2]> store) p2) in *.
    apply base_eq in Hbase as (Hcore3 & Hincs3 & Hurl3).
    rewrite Hcore in Hcore3.
    repeat split.
    + intros k' Hin. rewrite lookup_insert_ne by (intros ->; done). apply Ha. by right.
    + intros k'. destruct (decide (k = k')) as [<-|Hne].
      * rewrite lookup_insert_eq, Hk0. constructor. split; congruence.
      * rewrite lookup_insert_ne by done. apply Hb.
    + apply elem_of_app in H as [Hin|Hin].
      * intros Hr. destruct (Hc _ Hin) as [Hnot _]. apply Hnot. by right.
      * apply list_elem_of_singleton in Hin as ->. done.
    + apply elem_of_app in H as [Hin|Hin].
      * destruct (Hc _ Hin) as [Hnot (q0 & q & s0 & ? & ? & ? & ?)].
        exists q0, q, s0. rewrite lookup_insert_ne; [done|].
        intros ->. apply Hnot. left.
      * apply list_elem_of_singleton in Hin as ->.
        exists p0, p3, store. rewrite lookup_insert_eq. repeat split; try done.
        unfold navOK. rewrite (core_IsApp p3 p0 Hcore3).
        rewrite Hurl3, Hincs3.
        destruct (core_eq _ _ Hcore3) as (-> & _).
        rewrite Hurl, Hincs, (Hnav0 k p0 Hk0).
        destruct (IsApp p0); [|done]. by rewrite lastNavURL_slugged.
    + intros k' p' Hk' Hnr Hnv. apply (He k' p' Hk').
      * apply Hout; [done|]. intros ->. apply Hnv, elem_of_app. right. left.
      * intros Hin. apply Hnv, elem_of_app. by left.
    + intros k1 p1 v Hk1 Hv Huniq Hnr. rewrite Herrs.
      destruct (decide (k1 = k)) as [->|Hne].
      * assert (p1 = p0) as -> by congruence.
        rewrite lookup_delete_eq. rewrite <- (Hv store). done.
      * rewrite lookup_delete_ne.
        -- apply (Hf k1 p1 v Hk1 Hv Huniq). by apply Hout.
        -- intros Hid. apply Hne. symmetry. by apply (Huniq k p0).
Qed.

Lemma validationInv_start E loaded0 l todo :
  (∀ k, is_Some (loaded0 !! k) → k ∈ todo) →
  validationInv E loaded0 (l, loaded0, []) todo.
Proof.
  intros Hall. repeat split.
  - intros k. destruct (loaded0 !! k); by constructor.
  - by apply not_elem_of_nil in H.
  - by apply not_elem_of_nil in H.
  - intros k p0 Hk Hnot. destruct Hnot. apply Hall. eauto.
  - intros k0 p0 v Hk _ _ Hnot. destruct Hnot. apply Hall. eauto.
Qed.

Lemma validateLoop_outcome E loaded0 l l' loaded' verified' :
  (∀ k p0, loaded0 !! k = Some p0 → DefaultNavURL p0 = "") →
  validateLoop E (l, loaded0, []) (rangeMap (rangeRank E 3) loaded0).*1
  = Continue (l', loaded', verified') →
  validationInv E loaded0 (l', loaded', verified') [].
Proof.
  intros Hnav0 Hloop.
  eapply (validateLoop_ind E (validationInv E loaded0)); [| | |exact Hloop].
  - intros st k rest st'. by apply validationInv_step.
  - apply NoDup_rangeMap_keys.
  - apply validationInv_start. intros k. apply elem_of_rangeMap_keys.
Qed.

(** ** Load as a whole *)

Lemma initializeLoop_errs E l vs : errs (initializeLoop E l vs).1 = errs l.
Proof.
  revert l. induction vs as [|p vs IH]; intros l; simpl; [done|].
  destruct (pluginInitializer_Initialize E p); [done|].
  rewrite IH. by destruct (roleRegistry_DeclarePluginRoles E p).
Qed.

Lemma loadStep_errs E l p : errs (loadStep E l p) = errs l.
Proof.
  unfold loadStep, load. destruct (Registry.Add (pluginRegistry l) p) as [r [e|]]; [done|].
  destruct (negb (IsCorePlugin p)), (IsExternalPlugin p); simpl;
    repeat case_match; simplify_eq; done.
Qed.

Lemma foldl_loadStep_errs E vs l : errs (foldl (loadStep E) l vs) = errs l.
Proof.
  revert l. induction vs as [|p vs IH]; intros l; simpl; [done|].
  by rewrite IH, loadStep_errs.
Qed.

Lemma discovered_nav E l class pluginJSONPaths k p :
  (discoverPlugins E l class pluginJSONPaths).2 !! k = Some p →
  DefaultNavURL p = "" ∧ PluginDir p = k.
Proof.
  intros H. apply discoverPlugins_lookup in H as (d & p0 & _ & _ & Hc & Hb & _).
  apply created_ok in Hc as [Hb0 _]. rewrite <- Hb in Hb0.
  unfold base, core in Hb0. by injection Hb0.
Qed.

(** What [Load] has done when it returns [r]: either the finder failed, or
    the validation loop returned early, or it ran to the end, leaving the
    batch [loaded'], the keys [verified] and the error map of [l']. *)
Lemma Load_inv E l class paths l' r :
  Load E l class paths = (l', r) →
  (∃ e, finder_Find E paths = Err e ∧ r = Err (ErrExternal e) ∧ l' = l) ∨
  ∃ pluginJSONPaths, finder_Find E paths = Ok pluginJSONPaths ∧
    ((∃ e, verifyPlugins E l class pluginJSONPaths = Return l' e ∧ r = Err e) ∨
     ∃ l1 loaded' verified,
       verifyPlugins E l class pluginJSONPaths = Continue (l1, loaded', verified) ∧
       validationInv E (discoverPlugins E l class pluginJSONPaths).2
         (l1, loaded', verified) [] ∧
       errs l' = errs l1 ∧
       (∀ ps, r = Ok ps → ps = omap (λ k, loaded' !! k) verified ∧
                          ∀ p, p ∈ ps → is_Some (pluginRegistry l' !! ID (JSON p)))).
Proof.
  unfold Load. destruct (finder_Find E paths) as [jp|e]; [|intros [= <- <-]; eauto].
  intros Hload. right. exists jp. split; [done|].
  unfold loadPlugins in Hload.
  destruct (verifyPlugins E l class jp) as [[[l1 loaded'] verified]|l1 e] eqn:Hver.
  2:{ injection Hload as <- <-. left. eauto. }
  right. exists l1, loaded', verified. split; [done|].
  split.
  { unfold verifyPlugins in Hver.
    destruct (discoverPlugins E l class jp) as [l0 loaded0] eqn:Hd.
    apply validateLoop_outcome in Hver; [done|].
    intros k p0 Hk. eapply (discovered_nav E l class jp). by rewrite Hd. }
  pose proof (initializeLoop_errs E l1 (omap (λ k, loaded' !! k) verified)) as He.
  destruct (initializeLoop E l1 _) as [l2 [e|]]; injection Hload as <- <-.
  - split; [done|]. intros ps [=].
  - split; [by rewrite foldl_loadStep_errs|].
    intros ps [= <-]. split; [done|].
    intros p Hp. by apply foldl_loadStep_registers.
Qed.

Lemma elem_of_result (loaded' : gmap string Plugin) (verified : list string) p :
  p ∈ omap (λ k, loaded' !! k) verified ↔ ∃ k, k ∈ verified ∧ loaded' !! k = Some p.
Proof. apply list_elem_of_omap. Qed.

(** Every plugin [Load] returns is a plugin of the discovered batch, with
    the identity and the links it had after the wiring; the validator
    accepted it and its navigation URL is in place. *)
Lemma Load_result E l class paths pluginJSONPaths l' ps p :
  finder_Find E paths = Ok pluginJSONPaths →
  Load E l class paths = (l', Ok ps) →
  p ∈ ps →
  ∃ p0 store0,
    (discoverPlugins E l class pluginJSONPaths).2 !! PluginDir p = Some p0 ∧
    core p = core p0 ∧ links p = links p0 ∧ navOK E p ∧
    signatureValidator_Validate E store0 p0 = None.
Proof.
  intros Hfind Hload Hin.
  apply Load_inv in Hload as [(e & ? & ? & _)|(jp & Hjp & Hload)]; [congruence|].
  assert (jp = pluginJSONPaths) as -> by congruence.
  destruct Hload as [(e & _ & ?)|(l1 & loaded' & verified & Hver & Hinv & _ & Hps)];
    [done|].
  destruct (Hps ps eq_refl) as [-> _].
  apply elem_of_result in Hin as (k & Hk & Hp).
  destruct Hinv as (_ & Hb & Hc & _).
  destruct (Hc k Hk) as (_ & p0 & q & store0 & Hk0 & Hq & Hnav & Hval).
  assert (q = p) as -> by congruence.
  specialize (Hb k). rewrite Hk0, Hp in Hb. inversion Hb as [? ? [Hcore Hlinks]|]; subst.
  apply discovered_nav in Hk0 as Hdir. destruct Hdir as [_ Hdir].
  destruct (core_eq _ _ Hcore) as (_ & _ & Hd & _). rewrite Hd, Hdir.
  exists p0, store0. done.
Qed.

Lemma Load_Ok_find E l class paths l' ps :
  Load E l class paths = (l', Ok ps) → ∃ jp, finder_Find E paths = Ok jp.
Proof. unfold Load. destruct (finder_Find E paths); [eauto|done]. Qed.

(** ** The error map *)





(** ** Plugins that share an ID *)




(** ** Paths *)

Lemma Split_cons sep s : ∃ h t, Split sep s = h :: t.
Proof.
  induction s as [|c r IH]; simpl; [eauto|].
  destruct (Ascii.eqb c sep); [eauto|]. destruct IH as (h & t & ->). eauto.
Qed.

Lemma Split_no_sep s : hasSlash s = false → Split "/" s = [s].
Proof.
  unfold hasSlash. induction s as [|c r IH]; simpl; [done|].
  destruct (Ascii.eqb c "/"); simpl; [done|].
  intros H. by rewrite IH.
Qed.

Lemma Split_app s t : Split "/" (s +:+ String "/" t) = Split "/" s ++ Split "/" t.
Proof.
  induction s as [|c r IH]; simpl; [done|].
  destruct (Ascii.eqb c "/"); simpl; [by rewrite IH|].
  rewrite IH. by destruct (Split_cons "/" r) as (h & tl & ->).
Qed.

Lemma properName_spec name :
  properName name = true →
  String.eqb name "" = false ∧ String.eqb name "." = false
  ∧ String.eqb name ".." = false ∧ hasSlash name = false.
Proof.
  unfold properName. rewrite !andb_true_iff, !negb_true_iff. naive_solver.
Qed.

Lemma JoinSlash_cons n m rest :
  JoinSlash (n :: m :: rest) = n +:+ String "/" (JoinSlash (m :: rest)).
Proof. reflexivity. Qed.

Lemma Split_JoinSlash names :
  Forall (λ n, properName n = true) names → names ≠ [] →
  Split "/" (JoinSlash names) = names.
Proof.
  induction 1 as [|n rest Hn Hrest IH]; [done|]. intros _.
  apply properName_spec in Hn as (_ & _ & _ & Hn).
  destruct rest as [|m rest'].
  - by apply Split_no_sep.
  - rewrite JoinSlash_cons, Split_app, Split_no_sep by done. by rewrite IH.
Qed.

Lemma cleanElems_proper rooted out names :
  Forall (λ n, properName n = true) names →
  cleanElems rooted out names = rev out ++ names.
Proof.
  intros H. revert out. induction H as [|n rest Hn _ IH]; intros out; simpl.
  - by rewrite app_nil_r.
  - apply properName_spec in Hn as (-> & -> & -> & _).
    rewrite IH. simpl. by rewrite <- app_assoc.
Qed.

Lemma Clean_rooted x :
  Clean (String "/" x) = "/" +:+ JoinSlash (cleanElems true [] (Split "/" x)).
Proof. unfold Clean. cbn. by destruct x. Qed.

Lemma Clean_absDir_app pre name :
  Forall (λ n, properName n = true) pre → properName name = true →
  Clean (absDir pre +:+ "/" +:+ name) = absDir (pre ++ [name]).
Proof.
  intros Hpre Hname.
  change (absDir pre +:+ "/" +:+ name)
    with (String "/" (JoinSlash pre +:+ String "/" name)).
  rewrite Clean_rooted, Split_app.
  rewrite (Split_no_sep name) by (by apply properName_spec in Hname as (_ & _ & _ & ?)).
  unfold absDir. f_equal. f_equal.
  destruct pre as [|m rest].
  - simpl. apply properName_spec in Hname as (-> & -> & -> & _). done.
  - rewrite Split_JoinSlash by done.
    rewrite cleanElems_proper; [done|].
    apply Forall_app. split; [done|]. by constructor.
Qed.

Lemma absDir_nonempty names : String.eqb (absDir names) "" = false.
Proof. done. Qed.

Lemma Join_absDir pre name :
  Forall (λ n, properName n = true) pre → properName name = true →
  Join [absDir pre; name] = absDir (pre ++ [name]).
Proof.
  intros Hpre Hname. unfold Join. rewrite absDir_nonempty.
  change (JoinSlash [absDir pre; name]) with (absDir pre +:+ "/" +:+ name).
  by apply Clean_absDir_app.
Qed.

Lemma Split_absDir names :
  Forall (λ n, properName n = true) names → names ≠ [] →
  Split "/" (absDir names) = "" :: names.
Proof.
  intros H Hne.
  change (Split "/" (absDir names)) with ("" :: Split "/" (JoinSlash names)).
  by rewrite Split_JoinSlash.
Qed.

Lemma IsAbs_absDir names : IsAbs (absDir names) = true.
Proof. unfold IsAbs, HasPrefix, absDir. cbn. by destruct (JoinSlash names). Qed.

(** ** The parent found by the wiring loop *)

Lemma findParent_abs (loaded : gmap string Plugin) rest pre :
  Forall (λ n, properName n = true) pre →
  Forall (λ n, properName n = true) rest →
  match findParent loaded (absDir pre) rest with
  | Some parentDir =>
      ∃ j, j < List.length rest ∧ parentDir = absDir (pre ++ take (S j) rest) ∧
           is_Some (loaded !! parentDir) ∧
           ∀ i, i < j → loaded !! absDir (pre ++ take (S i) rest) = None
  | None => ∀ j, j < List.length rest → loaded !! absDir (pre ++ take (S j) rest) = None
  end.
Proof.
  intros Hpre Hrest. revert pre Hpre.
  induction Hrest as [|a rest Ha Hrest IH]; intros pre Hpre; simpl.
  - intros j Hj. lia.
  - rewrite (Join_absDir pre a Hpre Ha).
    destruct (loaded !! absDir (pre ++ [a])) as [q|] eqn:Hq.
    + exists 0. split; [lia|]. rewrite take_0. split; [done|].
      split; [by rewrite Hq|]. intros i Hi. lia.
    + assert (Forall (λ n, properName n = true) (pre ++ [a])) as Hpre'.
      { apply Forall_app. split; [done|]. by constructor. }
      specialize (IH (pre ++ [a]) Hpre').
      assert (∀ n, (pre ++ [a]) ++ take n rest = pre ++ a :: take n rest) as Heq.
      { intros n. by rewrite <- app_assoc. }
      destruct (findParent loaded (absDir (pre ++ [a])) rest) as [pd|].
      * destruct IH as (j & Hj & -> & Hsome & Hfirst).
        exists (S j). split; [lia|]. cbn [take]. rewrite <- Heq. split; [done|].
        split; [done|]. intros [|i] Hi.
        -- cbn [take]. by rewrite take_0.
        -- cbn [take]. rewrite <- Heq. apply Hfirst. lia.
      * intros [|j] Hj.
        -- cbn [take]. by rewrite take_0.
        -- cbn [take]. rewrite <- Heq. apply IH. lia.
Qed.

Lemma removelast_take {A} (l : list A) : removelast l = take (List.length l - 1) l.
Proof.
  induction l as [|x [|y l'] IH]; [done..|].
  change (removelast (x :: y :: l')) with (x :: removelast (y :: l')).
  rewrite IH. simpl. by rewrite Nat.sub_0_r.
Qed.

Lemma parentOf_shallowest (loaded : gmap string Plugin) names :
  Forall (λ n, properName n = true) names → names ≠ [] →
  match parentOf loaded (absDir names) with
  | Some parentDir =>
      ∃ n, n < List.length names ∧ parentDir = absDir (take n names) ∧
           is_Some (loaded !! parentDir) ∧
           ∀ m, m < n → loaded !! absDir (take m names) = None
  | None => ∀ n, n < List.length names → loaded !! absDir (take n names) = None
  end.
Proof.
  intros Hnames Hne. unfold parentOf.
  rewrite Split_absDir by done.
  rewrite IsAbs_absDir.
  assert (removelast ("" :: names) = "" :: removelast names) as ->.
  { destruct names; [done|]. reflexivity. }
  cbn [findParent].
  change (Join ["/"; ""]) with (absDir []).
  assert (Forall (λ n, properName n = true) (removelast names)) as Hrl.
  { rewrite removelast_take. by apply Forall_take. }
  pose proof (findParent_abs loaded (removelast names) [] (Forall_nil_2 _) Hrl) as H.
  assert (List.length (removelast names) = List.length names - 1) as Hlen.
  { rewrite removelast_take, length_take. lia. }
  assert (∀ j, j < List.length names - 1 → take (S j) (removelast names) = take (S j) names)
    as Htake.
  { intros j Hj. rewrite removelast_take, take_take. f_equal. lia. }
  assert (0 < List.length names) as Hpos by (destruct names; [done|simpl; lia]).
  destruct (loaded !! absDir []) as [q|] eqn:Hroot.
  - exists 0. split; [done|]. rewrite take_0. split; [done|].
    split; [by rewrite Hroot|]. intros m Hm. lia.
  - destruct (findParent loaded (absDir []) (removelast names)) as [pd|].
    + destruct H as (j & Hj & -> & Hsome & Hfirst). rewrite Hlen in Hj.
      simpl in *. rewrite Htake in * by done.
      exists (S j). split; [lia|]. split; [done|]. split; [done|].
      intros [|m] Hm; [by rewrite take_0|].
      rewrite <- Htake by lia. apply Hfirst. lia.
    + intros [|n] Hn; [by rewrite take_0|].
      rewrite <- Htake by lia. apply (H n). lia.
Qed.

(** ** Cleaned paths *)

Lemma hasSlash_String c s :
  hasSlash (String c s) = Ascii.eqb c "/" || hasSlash s.
Proof. reflexivity. Qed.

Lemma Split_elements s : Forall (λ e, hasSlash e = false) (Split "/" s).
Proof.
  induction s as [|c r IH]; simpl; [by repeat constructor|].
  destruct (Ascii.eqb c "/") eqn:Hc; [by constructor|].
  destruct (Split "/" r) as [|h t]; [repeat constructor; by rewrite hasSlash_String, Hc|].
  apply Forall_cons in IH as [Hh Ht]. constructor; [|done].
  by rewrite hasSlash_String, Hc.
Qed.

Lemma properName_intro e :
  String.eqb e "" = false → String.eqb e "." = false → String.eqb e ".." = false →
  hasSlash e = false → properName e = true.
Proof. unfold properName. by intros -> -> -> ->. Qed.

Lemma cleanElems_rooted_proper out elems :
  Forall (λ e, properName e = true) out →
  Forall (λ e, hasSlash e = false) elems →
  Forall (λ e, properName e = true) (cleanElems true out elems).
Proof.
  intros Hout Helems. revert out Hout.
  induction Helems as [|e rest He _ IH]; intros out Hout; simpl.
  - by apply Forall_rev.
  - destruct (String.eqb e "") eqn:H1; [by apply IH|].
    destruct (String.eqb e ".") eqn:H2; [by apply IH|].
    destruct (String.eqb e "..") eqn:H3.
    + destruct out as [|top out']; [by apply IH|].
      apply Forall_cons in Hout as [Htop Hout'].
      apply properName_spec in Htop as (_ & _ & -> & _). by apply IH.
    + apply IH. constructor; [|done]. by apply properName_intro.
Qed.

Lemma cleanElems_relative out elems :
  Forall (λ e, String.eqb e "" = false ∧ hasSlash e = false) out →
  Forall (λ e, hasSlash e = false) elems →
  Forall (λ e, String.eqb e "" = false ∧ hasSlash e = false) (cleanElems false out elems).
Proof.
  intros Hout Helems. revert out Hout.
  induction Helems as [|e rest He _ IH]; intros out Hout; simpl.
  - by apply Forall_rev.
  - destruct (String.eqb e "") eqn:H1; [by apply IH|].
    destruct (String.eqb e ".") eqn:H2; [by apply IH|].
    destruct (String.eqb e "..") eqn:H3.
    + destruct out as [|top out']; [apply IH; by repeat constructor|].
      destruct (String.eqb top "..").
      * apply IH. by constructor.
      * apply IH. by apply Forall_cons in Hout as [_ ?].
    + apply IH. by constructor.
Qed.

Lemma JoinSlash_relative e rest :
  String.eqb e "" = false → hasSlash e = false → IsAbs (JoinSlash (e :: rest)) = false.
Proof.
  intros Hne Hs. destruct e as [|c e']; [cbv in Hne; discriminate|].
  rewrite hasSlash_String in Hs. apply orb_false_iff in Hs as [Hc _].
  assert (∃ tl, JoinSlash (String c e' :: rest) = String c tl) as [tl ->].
  { destruct rest; simpl; eauto. }
  unfold IsAbs, HasPrefix.
  change (prefix "/" (String c tl))
    with (if ascii_dec "/" c then prefix "" tl else false).
  destruct (ascii_dec "/" c) as [<-|]; [|done].
  by rewrite Ascii.eqb_refl in Hc.
Qed.

Lemma Clean_absolute x :
  IsAbs (Clean x) = true →
  ∃ names, Clean x = absDir names ∧ Forall (λ n, properName n = true) names.
Proof.
  unfold Clean. destruct (String.eqb x "") eqn:Hx; [done|].
  cbv zeta. destruct (HasPrefix x "/") eqn:Hroot.
  - intros _. eexists. split; [reflexivity|].
    apply cleanElems_rooted_proper; [constructor|apply Split_elements].
  - pose proof (cleanElems_relative [] (Split "/" x) (Forall_nil_2 _) (Split_elements x))
      as Hout.
    destruct (cleanElems false [] (Split "/" x)) as [|e rest]; [done|].
    apply Forall_cons in Hout as [[He1 He2] _].
    by rewrite JoinSlash_relative.
Qed.

(** ** The keys of the batch *)

Lemma readStep_keys E l found path k :
  is_Some ((readStep E (l, found) path).2 !! k) →
  is_Some (found !! k) ∨ ∃ x, k = Clean x.
Proof.
  unfold readStep. destruct (readPluginJSON E l path) as [l1 [d|e]]; [|by left].
  destruct (Abs E path) as [a|]; [|by left].
  destruct (found !! Dir a) eqn:Hd; [by left|]. simpl.
  destruct (decide (Dir a = k)) as [<-|Hne].
  - intros _. right. by eexists.
  - rewrite lookup_insert_ne by done. by left.
Qed.

Lemma readManifests_keys E l paths k :
  is_Some ((readManifests E l paths).2 !! k) → ∃ x, k = Clean x.
Proof.
  unfold readManifests.
  assert (∀ found, is_Some ((foldl (readStep E) (l, found) paths).2 !! k) →
                   is_Some (found !! k) ∨ ∃ x, k = Clean x) as H.
  { revert l. induction paths as [|p ps IH]; intros l found; simpl; [by left|].
    destruct (readStep E (l, found) p) as [l1 f1] eqn:Hs.
    intros Hk. destruct (IH l1 f1 Hk) as [Hf|Hc]; [|by right].
    apply (readStep_keys E l found p k). by rewrite Hs. }
  intros Hk. destruct (H ∅ Hk) as [[? Hempty]|Hc]; [|done].
  by rewrite lookup_empty in Hempty.
Qed.

Lemma discovered_key_shape E l class pluginJSONPaths k :
  is_Some ((discoverPlugins E l class pluginJSONPaths).2 !! k) →
  IsAbs k = true →
  ∃ names, k = absDir names ∧ Forall (λ n, properName n = true) names.
Proof.
  intros [p Hk] Habs.
  apply discoverPlugins_lookup in Hk as (d & _ & Hf & _).
  destruct (readManifests_keys E l pluginJSONPaths k) as [x ->]; [eauto|].
  by apply Clean_absolute.
Qed.


(** ** The default navigation URL *)




(** ** The parent of a plugin *)

(** Claim C1, as amended. For a plugin of a Load batch whose directory is an
    absolute directory other than "/", the parent assigned by the dependency
    wiring is the plugin of the same batch that occupies the shallowest
    occupied ancestor directory, the first one met from the root down: no
    ancestor above it is occupied. A plugin none of whose ancestor
    directories is occupied is left without a parent, and [Load] returns the
    plugin with the parent the wiring gave it. *)
Theorem parent_is_shallowest_ancestor_of_batch (E : Env) (l : Loader) (class : Class)
  (pluginJSONPaths : list string) (k : string) (plugin : Plugin) :
  (discoverPlugins E l class pluginJSONPaths).2 !! k = Some plugin →
  IsAbs k = true →
  k ≠ "/" →
  PluginDir plugin = k ∧
  (∃ names,
     k = absDir names ∧ Forall (λ n, properName n = true) names ∧
     match Parent plugin with
     | Some parentDir =>
         ∃ n, n < List.length names ∧ parentDir = absDir (take n names) ∧
              is_Some ((discoverPlugins E l class pluginJSONPaths).2 !! parentDir) ∧
              ∀ m, m < n →
                   (discoverPlugins E l class pluginJSONPaths).2
                     !! absDir (take m names) = None
     | None =>
         ∀ n, n < List.length names →
              (discoverPlugins E l class pluginJSONPaths).2
                !! absDir (take n names) = None
     end) ∧
  (∀ paths l' ps q,
     finder_Find E paths = Ok pluginJSONPaths →
     Load E l class paths = (l', Ok ps) → q ∈ ps →
     PluginDir q = k → Parent q = Parent plugin).
Proof.
  intros Hk Habs Hroot.
  pose proof (discovered_nav _ _ _ _ _ _ Hk) as [_ Hdir].
  pose proof (discoverPlugins_lookup _ _ _ _ _ _ Hk) as (_ & _ & _ & _ & _ & _ & Hp).
  split; [done|]. split.
  - destruct (discovered_key_shape E l class pluginJSONPaths k) as (names & -> & Hnames);
      [eauto|done|].
    exists names. split; [done|]. split; [done|].
    rewrite Hp. apply parentOf_shallowest; [done|]. by intros ->.
  - intros paths l' ps q Hfind Hload Hq Hqdir.
    destruct (Load_result E l class paths pluginJSONPaths l' ps q Hfind Hload Hq)
      as (p0 & _ & Hk0 & _ & Hlinks & _).
    rewrite Hqdir, Hk in Hk0. injection Hk0 as <-.
    unfold links in Hlinks. by injection Hlinks.
Qed.

(** The theorem of claim C1 at the directory /a/b/c of the batch /a, /a/b,
    /a/b/c. *)
Lemma parent_is_shallowest_ancestor_of_batch_witness :
  ∃ plugin,
    (discoverPlugins Sample.nested Sample.newLoader External Sample.nestedPaths).2
      !! "/a/b/c" = Some plugin ∧
    PluginDir plugin = "/a/b/c" ∧
    ∀ l' ps q,
      Load Sample.nested Sample.newLoader External Sample.nestedPaths = (l', Ok ps) →
      q ∈ ps → PluginDir q = "/a/b/c" → Parent q = Parent plugin.
Proof.
  assert (∃ plugin,
            (discoverPlugins Sample.nested Sample.newLoader External Sample.nestedPaths).2
              !! "/a/b/c" = Some plugin) as [plugin H].
  { vm_compute. eexists. reflexivity. }
  exists plugin. split; [exact H|].
  destruct (parent_is_shallowest_ancestor_of_batch Sample.nested Sample.newLoader External
              Sample.nestedPaths "/a/b/c" plugin H) as (Hd & _ & Hload).
  - reflexivity.
  - discriminate.
  - split; [exact Hd|]. intros l' ps q. by apply Hload.
Defined.

(** Claim C1 as stated fails for /a, /a/b, /a/b/c discovered together: the
    nearest occupied ancestor of /a/b/c is /a/b, and the parent of the plugin
    in /a/b/c is the plugin in /a. *)
Lemma nearest_ancestor_is_not_the_parent :
  match (Load Sample.nested Sample.newLoader External Sample.nestedPaths).2 with
  | Ok ps =>
      (λ p, (PluginDir p, Parent p)) <$> ps
      = [("/a", None); ("/a/b", Some "/a"); ("/a/b/c", Some "/a")]
  | Err _ => False
  end ∧ Some "/a" ≠ Some "/a/b".
Proof. split; [vm_compute; reflexivity|discriminate]. Qed.

(** * Further properties of the loader *)

(** ** Unload *)

Lemma IsExternalPlugin_spec p : IsExternalPlugin p = true ↔ PluginClass p = External.
Proof. apply String.eqb_eq. Qed.

Lemma unload_registry E l p :
  pluginRegistry (unload E l p).1
  = match processManager_Stop E (ID (JSON p)) with
    | Some _ => pluginRegistry l
    | None => delete (ID (JSON p)) (pluginRegistry l)
    end
  ∧ errs (unload E l p).1 = errs l.
Proof.
  unfold unload, Registry.Remove. simpl.
  destruct (processManager_Stop E (ID (JSON p))); [done|].
  destruct (pluginRegistry l !! ID (JSON p)) eqn:Hr; simpl; [done|].
  split; [|done]. symmetry. by apply delete_id.
Qed.

(** X1. Whatever its outcome, Unload leaves the error map alone and changes
    the registry at most at the ID of the plugin it looked up: every other
    registered plugin stays registered as it was. *)
Theorem Unload_touches_one_plugin (E : Env) (l l' : Loader) (pluginID : string)
  (r : option error) :
  Unload E l pluginID = (l', r) →
  errs l' = errs l ∧
  ∀ id, (∀ p, pluginRegistry l !! pluginID = Some p → id ≠ ID (JSON p)) →
        pluginRegistry l' !! id = pluginRegistry l !! id.
Proof.
  unfold Unload, Registry.Plugin.
  destruct (pluginRegistry l !! pluginID) as [p|] eqn:Hp; [|by intros [= <- <-]].
  destruct (negb (IsExternalPlugin p)); [by intros [= <- <-]|].
  intros Hu. pose proof (unload_registry E l p) as [Hr He]. rewrite Hu in Hr, He.
  simpl in *. split; [done|]. intros id Hid. rewrite Hr.
  destruct (processManager_Stop E (ID (JSON p))); [done|].
  apply lookup_delete_ne. intros Heq. by apply (Hid p).
Qed.

Lemma Unload_touches_one_plugin_witness :
  errs (Unload Sample.siblings Scenarios.withExternal "ext1").1 = ∅ ∧
  pluginRegistry (Unload Sample.siblings Scenarios.withExternal "ext1").1 !! "core1"
  = Some Sample.corePlugin.
Proof.
  destruct (Unload_touches_one_plugin Sample.siblings Scenarios.withExternal
              (Unload Sample.siblings Scenarios.withExternal "ext1").1 "ext1"
              (Unload Sample.siblings Scenarios.withExternal "ext1").2) as [He Hr].
  { by destruct (Unload _ _ _). }
  split; [exact He|]. rewrite (Hr "core1"); [reflexivity|].
  intros p. vm_compute. intros [= <-]. discriminate.
Defined.

(** X2. Unload returns no error only when the whole sequence ran: the plugin
    was registered under the given ID and is external, its process was
    stopped, it was removed from the registry (where it was found under its
    own ID), and storage removed it, in that order. *)
Theorem Unload_success_sequence (E : Env) (l l' : Loader) (pluginID : string) :
  Unload E l pluginID = (l', None) →
  ∃ p,
    pluginRegistry l !! pluginID = Some p ∧
    PluginClass p = External ∧
    processManager_Stop E (ID (JSON p)) = None ∧
    is_Some (pluginRegistry l !! ID (JSON p)) ∧
    pluginStorage_Remove E (ID (JSON p)) = None ∧
    pluginRegistry l' = delete (ID (JSON p)) (pluginRegistry l) ∧
    events l' = events l ++ unloadEvents (ID (JSON p)).
Proof.
  unfold Unload, Registry.Plugin.
  destruct (pluginRegistry l !! pluginID) as [p|] eqn:Hp; [|done].
  destruct (IsExternalPlugin p) eqn:Hext; [|done]. simpl.
  unfold unload, Registry.Remove. simpl.
  destruct (processManager_Stop E (ID (JSON p))) eqn:Hstop; [done|].
  destruct (pluginRegistry l !! ID (JSON p)) eqn:Hr; simpl; [|done].
  destruct (pluginStorage_Remove E (ID (JSON p))) eqn:Hrm; [done|].
  intros [= <-]. exists p. simpl.
  repeat split; try done.
  - by apply IsExternalPlugin_spec.
  - unfold unloadEvents. by rewrite <- !app_assoc.
Qed.

Lemma Unload_success_sequence_witness :
  ∃ p,
    pluginRegistry Scenarios.withExternal !! "ext1" = Some p ∧
    PluginClass p = External ∧
    processManager_Stop Sample.siblings (ID (JSON p)) = None ∧
    is_Some (pluginRegistry Scenarios.withExternal !! ID (JSON p)) ∧
    pluginStorage_Remove Sample.siblings (ID (JSON p)) = None ∧
    pluginRegistry (Unload Sample.siblings Scenarios.withExternal "ext1").1
    = delete (ID (JSON p)) (pluginRegistry Scenarios.withExternal) ∧
    events (Unload Sample.siblings Scenarios.withExternal "ext1").1
    = events Scenarios.withExternal ++ unloadEvents (ID (JSON p)).
Proof.
  apply (Unload_success_sequence Sample.siblings Scenarios.withExternal
           (Unload Sample.siblings Scenarios.withExternal "ext1").1 "ext1").
  vm_compute. reflexivity.
Defined.

(** X3. When the process of a registered external plugin cannot be stopped,
    Unload returns the process manager's error, the plugin stays registered
    and storage is never asked to remove it. *)
Theorem Unload_stop_failure_keeps_plugin (E : Env) (l : Loader) (pluginID : string)
  (p : Plugin) (msg : string) :
  pluginRegistry l !! pluginID = Some p →
  PluginClass p = External →
  processManager_Stop E (ID (JSON p)) = Some msg →
  ∃ l',
    Unload E l pluginID = (l', Some (ErrExternal msg)) ∧
    pluginRegistry l' = pluginRegistry l ∧
    events l' = events l ++ [Log Debug "Stopping plugin process" (ID (JSON p));
                             CallProcessStop (ID (JSON p))].
Proof.
  intros Hp Hext Hstop. apply IsExternalPlugin_spec in Hext.
  unfold Unload, Registry.Plugin. rewrite Hp, Hext. simpl.
  unfold unload. simpl. rewrite Hstop. eexists. split; [done|]. simpl.
  split; [done|]. by rewrite <- app_assoc.
Qed.

Lemma Unload_stop_failure_keeps_plugin_witness :
  ∃ l',
    Unload Scenarios.stuckProcess Scenarios.withExternal "ext1"
    = (l', Some (ErrExternal "process does not exit")) ∧
    pluginRegistry l' = pluginRegistry Scenarios.withExternal ∧
    events l' = [Log Debug "Stopping plugin process" "ext1"; CallProcessStop "ext1"].
Proof.
  apply (Unload_stop_failure_keeps_plugin Scenarios.stuckProcess Scenarios.withExternal
           "ext1" Scenarios.externalPlugin "process does not exit");
    vm_compute; reflexivity.
Defined.

(** X4. When storage cannot remove a registered external plugin whose
    process was stopped, Unload returns the storage error although the
    plugin is no longer registered: the registry removal is not undone. *)
Theorem Unload_storage_failure_unregisters (E : Env) (l : Loader) (pluginID : string)
  (p : Plugin) (msg : string) :
  pluginRegistry l !! pluginID = Some p →
  PluginClass p = External →
  processManager_Stop E (ID (JSON p)) = None →
  is_Some (pluginRegistry l !! ID (JSON p)) →
  pluginStorage_Remove E (ID (JSON p)) = Some msg →
  ∃ l',
    Unload E l pluginID = (l', Some (ErrExternal msg)) ∧
    pluginRegistry l' = delete (ID (JSON p)) (pluginRegistry l) ∧
    Registry.Plugin (pluginRegistry l') (ID (JSON p)) = None ∧
    events l' = events l ++ unloadEvents (ID (JSON p)).
Proof.
  intros Hp Hext Hstop [q Hq] Hrm. apply IsExternalPlugin_spec in Hext.
  unfold Unload, Registry.Plugin. rewrite Hp, Hext. simpl.
  unfold unload, Registry.Remove. simpl. rewrite Hstop, Hq, Hrm. simpl.
  eexists. split; [done|]. simpl. split; [done|].
  split; [apply lookup_delete_eq|]. unfold unloadEvents. by rewrite <- !app_assoc.
Qed.

Lemma Unload_storage_failure_unregisters_witness :
  ∃ l',
    Unload Scenarios.readOnlyStorage Scenarios.withExternal "ext1"
    = (l', Some (ErrExternal "read-only file system")) ∧
    pluginRegistry l' = delete "ext1" (pluginRegistry Scenarios.withExternal) ∧
    Registry.Plugin (pluginRegistry l') "ext1" = None ∧
    events l' = unloadEvents "ext1".
Proof.
  apply (Unload_storage_failure_unregisters Scenarios.readOnlyStorage
           Scenarios.withExternal "ext1" Scenarios.externalPlugin "read-only file system");
    try (vm_compute; reflexivity).
  exists Scenarios.externalPlugin. vm_compute. reflexivity.
Defined.

(** ** load *)

Lemma IsCorePlugin_spec p : IsCorePlugin p = true ↔ PluginClass p = Core.
Proof. apply String.eqb_eq. Qed.

Lemma IsCorePlugin_false p : IsCorePlugin p = false ↔ PluginClass p ≠ Core.
Proof. apply String.eqb_neq. Qed.

Lemma IsExternalPlugin_false p : IsExternalPlugin p = false ↔ PluginClass p ≠ External.
Proof. apply String.eqb_neq. Qed.

(** X5. What [load] does for a plugin depends on whether its ID is free in
    the registry and on its class: storage is asked to register the plugin
    only when the ID is free and the plugin is external; the process is
    started only when the ID is free and storage registration, if any,
    succeeded; the registration is logged only for a plugin that is not a
    core one; and [load] succeeds exactly when all three calls do. *)
Theorem load_side_effects (E : Env) (l : Loader) (p : Plugin) :
  ∃ evs,
    events (load E l p).1 = events l ++ evs ∧
    (CallStorageRegister (ID (JSON p)) (PluginDir p) ∈ evs
     ↔ pluginRegistry l !! ID (JSON p) = None ∧ PluginClass p = External) ∧
    (CallProcessStart (ID (JSON p)) ∈ evs
     ↔ pluginRegistry l !! ID (JSON p) = None ∧
       (PluginClass p = External →
        pluginStorage_Register E (ID (JSON p)) (PluginDir p) = None)) ∧
    (Log Info_ "Plugin registered" (ID (JSON p)) ∈ evs
     ↔ pluginRegistry l !! ID (JSON p) = None ∧ PluginClass p ≠ Core) ∧
    ((load E l p).2 = None
     ↔ pluginRegistry l !! ID (JSON p) = None ∧
       (PluginClass p = External →
        pluginStorage_Register E (ID (JSON p)) (PluginDir p) = None) ∧
       processManager_Start E (ID (JSON p)) = None).
Proof.
  pose proof (load_outcomes E l p) as H. cbv zeta in H.
  unfold Registry.Add in H.
  destruct (pluginRegistry l !! ID (JSON p)) as [q|] eqn:Hr.
  { rewrite H. exists []. simpl. rewrite app_nil_r. split; [done|].
    rewrite !elem_of_nil. naive_solver. }
  destruct (IsCorePlugin p) eqn:Hcore; simpl in H;
    [apply IsCorePlugin_spec in Hcore|apply IsCorePlugin_false in Hcore];
    (destruct (IsExternalPlugin p) eqn:Hext;
     [apply IsExternalPlugin_spec in Hext|apply IsExternalPlugin_false in Hext]);
    try (destruct (pluginStorage_Register E (ID (JSON p)) (PluginDir p)) eqn:Hreg);
    rewrite H; simpl; rewrite <- ?app_assoc; simpl;
    (eexists; split; [reflexivity|]);
    rewrite ?elem_of_cons, ?elem_of_nil;
    destruct (processManager_Start E (ID (JSON p))); simpl; naive_solver.
Qed.

(** X6. Loading an external plugin and then unloading it by its ID gives
    the registry back as it was, when the process manager can stop the
    plugin and storage can remove it. *)
Theorem load_then_Unload_restores_registry (E : Env) (l l1 : Loader) (p : Plugin) :
  load E l p = (l1, None) →
  PluginClass p = External →
  processManager_Stop E (ID (JSON p)) = None →
  pluginStorage_Remove E (ID (JSON p)) = None →
  pluginRegistry l !! ID (JSON p) = None ∧
  Registry.Plugin (pluginRegistry l1) (ID (JSON p)) = Some p ∧
  ∃ l2,
    Unload E l1 (ID (JSON p)) = (l2, None) ∧
    pluginRegistry l2 = pluginRegistry l ∧
    errs l2 = errs l.
Proof.
  intros Hload Hext Hstop Hrm.
  pose proof (load_registry E l p) as Hreg. rewrite Hload in Hreg. simpl in Hreg.
  pose proof (loadStep_errs E l p) as Herrs. unfold loadStep in Herrs.
  rewrite Hload in Herrs.
  assert (pluginRegistry l !! ID (JSON p) = None) as Hfree.
  { pose proof (load_outcomes E l p) as H. cbv zeta in H. unfold Registry.Add in H.
    destruct (pluginRegistry l !! ID (JSON p)); [|done].
    rewrite Hload in H. by injection H. }
  rewrite Hfree in Hreg. split; [done|].
  unfold Registry.Plugin. rewrite Hreg, lookup_insert_eq. split; [done|].
  apply IsExternalPlugin_spec in Hext.
  unfold Unload, Registry.Plugin. rewrite Hreg, lookup_insert_eq, Hext. simpl.
  unfold unload, Registry.Remove. simpl.
  rewrite Hstop, Hreg, lookup_insert_eq, Hrm. simpl.
  eexists. split; [done|]. simpl. split; [|done].
  rewrite delete_insert_eq. by apply delete_id.
Qed.

Lemma load_then_Unload_restores_registry_witness :
  pluginRegistry Sample.newLoader !! ID (JSON Scenarios.externalPlugin) = None ∧
  Registry.Plugin
    (pluginRegistry (load Sample.siblings Sample.newLoader Scenarios.externalPlugin).1)
    (ID (JSON Scenarios.externalPlugin)) = Some Scenarios.externalPlugin ∧
  ∃ l2,
    Unload Sample.siblings
      (load Sample.siblings Sample.newLoader Scenarios.externalPlugin).1
      (ID (JSON Scenarios.externalPlugin)) = (l2, None) ∧
    pluginRegistry l2 = pluginRegistry Sample.newLoader ∧
    errs l2 = errs Sample.newLoader.
Proof.
  apply (load_then_Unload_restores_registry Sample.siblings Sample.newLoader
           (load Sample.siblings Sample.newLoader Scenarios.externalPlugin).1
           Scenarios.externalPlugin); vm_compute; reflexivity.
Defined.

(** ** createPluginBase and setImages *)

Lemma fmap_shot_Name_alter u i (l : list Screenshot) :
  shot_Name <$> alter (λ s, mkScreenshot (shot_Name s) u) i l = shot_Name <$> l.
Proof. revert i. induction l as [|s l IH]; intros [|i]; f_equal/=; auto. Qed.

Lemma setScreenshotPath_fields i u p :
  outsideImages (setScreenshotPath i u p) = outsideImages p ∧
  info_LogoSmall (PluginInfo (JSON (setScreenshotPath i u p)))
  = info_LogoSmall (PluginInfo (JSON p)) ∧
  info_LogoLarge (PluginInfo (JSON (setScreenshotPath i u p)))
  = info_LogoLarge (PluginInfo (JSON p)) ∧
  info_Screenshots (PluginInfo (JSON (setScreenshotPath i u p)))
  = alter (λ s, mkScreenshot (shot_Name s) u) i (info_Screenshots (PluginInfo (JSON p))).
Proof.
  unfold outsideImages, setScreenshotPath. simpl. repeat split.
  by rewrite fmap_shot_Name_alter.
Qed.

(** The screenshot loop from index [i] on: on success the screenshots
    before [i] are untouched and each later one has had its path rewritten
    once, from its old path; on failure the error carries the index of the
    first screenshot whose path could not be rewritten. *)
Lemma setScreenshots_spec E n i p :
  (List.length (info_Screenshots (PluginInfo (JSON p))) - i ≤ n)%nat →
  match setScreenshots E n i p with
  | Ok p' =>
      outsideImages p' = outsideImages p ∧
      info_LogoSmall (PluginInfo (JSON p')) = info_LogoSmall (PluginInfo (JSON p)) ∧
      info_LogoLarge (PluginInfo (JSON p')) = info_LogoLarge (PluginInfo (JSON p)) ∧
      (∀ j, j < i →
            info_Screenshots (PluginInfo (JSON p')) !! j
            = info_Screenshots (PluginInfo (JSON p)) !! j) ∧
      (∀ j s, (i ≤ j)%nat → info_Screenshots (PluginInfo (JSON p)) !! j = Some s →
              ∃ q u, outsideImages q = outsideImages p ∧
                     assetPath_RelativeURL E q (shot_Path s) "" = Ok u ∧
                     info_Screenshots (PluginInfo (JSON p')) !! j
                     = Some (mkScreenshot (shot_Name s) u))
  | Err e =>
      ∃ j s q m,
        (i ≤ j)%nat ∧ info_Screenshots (PluginInfo (JSON p)) !! j = Some s ∧
        outsideImages q = outsideImages p ∧
        assetPath_RelativeURL E q (shot_Path s) "" = Err m ∧
        e = ErrWrapIdx "screenshot %d relative url" j (ErrExternal m) ∧
        ∀ j' s', (i ≤ j')%nat → j' < j →
                 info_Screenshots (PluginInfo (JSON p)) !! j' = Some s' →
                 ∃ q' u, outsideImages q' = outsideImages p ∧
                         assetPath_RelativeURL E q' (shot_Path s') "" = Ok u
  end.
Proof.
  revert i p. induction n as [|n IH]; intros i p Hn; simpl.
  - repeat split; try done. intros j s Hij Hj.
    apply lookup_lt_Some in Hj. lia.
  - destruct (info_Screenshots (PluginInfo (JSON p)) !! i) as [s0|] eqn:Hi.
    2:{ repeat split; try done. intros j s Hij Hj.
        apply lookup_ge_None in Hi. apply lookup_lt_Some in Hj. lia. }
    destruct (assetPath_RelativeURL E p (shot_Path s0) "") as [u|m] eqn:Hu.
    2:{ exists i, s0, p, m. repeat split; try done. intros j' s' ? ?. lia. }
    destruct (setScreenshotPath_fields i u p) as (Ho & Hs & Hl & Hsh).
    specialize (IH (S i) (setScreenshotPath i u p)).
    assert (List.length (info_Screenshots (PluginInfo (JSON (setScreenshotPath i u p))))
              - S i ≤ n)%nat as Hn' by (rewrite Hsh, length_alter; lia).
    specialize (IH Hn').
    destruct (setScreenshots E n (S i) (setScreenshotPath i u p)) as [p'|e].
    + destruct IH as (Ho' & Hs' & Hl' & Hbefore & Hafter).
      split; [congruence|]. split; [congruence|]. split; [congruence|]. split.
      * intros j Hj. rewrite Hbefore by lia. rewrite Hsh.
        apply list_lookup_alter_ne. lia.
      * intros j s Hij Hj. destruct (decide (j = i)) as [->|Hne].
        -- assert (s = s0) as -> by congruence.
           exists p, u. split; [done|]. split; [done|].
           rewrite Hbefore by lia. rewrite Hsh, list_lookup_alter_eq, Hi. done.
        -- destruct (Hafter j s) as (q & u' & Hq & Hqu & Hj').
           { lia. }
           { rewrite Hsh, list_lookup_alter_ne by lia. done. }
           exists q, u'. split; [congruence|]. done.
    + destruct IH as (j & s & q & m & Hij & Hj & Hq & Hqm & -> & Hfirst).
      rewrite Hsh, list_lookup_alter_ne in Hj by lia.
      exists j, s, q, m. split; [lia|]. split; [done|]. split; [congruence|].
      split; [done|]. split; [done|].
      intros j' s' Hij' Hj' Hs'. destruct (decide (j' = i)) as [->|Hne].
      * assert (s' = s0) as -> by congruence. eauto.
      * destruct (Hfirst j' s') as (q' & u' & Hq' & Hqu'); [lia|lia| |].
        { rewrite Hsh, list_lookup_alter_ne by lia. done. }
        exists q', u'. split; [congruence|done].
Qed.

(** X7. When [createPluginBase] fails, the error says which step failed:
    the base URL, the module URL (only when the base URL was computed), a
    logo, or the screenshot with the given index, which is the first
    screenshot whose path could not be made relative; each error wraps the
    message of the asset path service. *)
Theorem createPluginBase_error_kinds (E : Env) (pluginJSON : JSONData) (class : Class)
  (pluginDir : string) (e : error) :
  createPluginBase E pluginJSON class pluginDir = Err e →
  (∃ m, assetPath_Base E pluginJSON class pluginDir = Err m ∧
        e = ErrWrap "base url" (ErrExternal m)) ∨
  (∃ baseURL m,
     assetPath_Base E pluginJSON class pluginDir = Ok baseURL ∧
     assetPath_Module E pluginJSON class pluginDir = Err m ∧
     e = ErrWrap "module url" (ErrExternal m)) ∨
  (∃ q logo m,
     assetPath_RelativeURL E q logo (defaultLogoPath (Type_ pluginJSON)) = Err m ∧
     (logo = info_LogoSmall (PluginInfo pluginJSON)
      ∨ logo = info_LogoLarge (PluginInfo pluginJSON)) ∧
     e = ErrWrap "logo" (ErrExternal m)) ∨
  (∃ i s q m,
     info_Screenshots (PluginInfo pluginJSON) !! i = Some s ∧
     assetPath_RelativeURL E q (shot_Path s) "" = Err m ∧
     e = ErrWrapIdx "screenshot %d relative url" i (ErrExternal m) ∧
     ∀ j s', j < i → info_Screenshots (PluginInfo pluginJSON) !! j = Some s' →
             ∃ q' u, assetPath_RelativeURL E q' (shot_Path s') "" = Ok u).
Proof.
  unfold createPluginBase.
  destruct (assetPath_Base E pluginJSON class pluginDir) as [baseURL|m] eqn:Hb.
  2:{ intros [= <-]. left. eauto. }
  destruct (assetPath_Module E pluginJSON class pluginDir) as [moduleURL|m] eqn:Hm.
  2:{ intros [= <-]. right. left. eauto. }
  fold (newPlugin pluginJSON class pluginDir baseURL moduleURL).
  set (p0 := newPlugin pluginJSON class pluginDir baseURL moduleURL).
  unfold setImages.
  destruct (assetPath_RelativeURL E p0 _ _) as [small|m] eqn:Hs.
  2:{ intros [= <-]. right. right. left.
      exists p0, (info_LogoSmall (PluginInfo pluginJSON)), m.
      split; [exact Hs|]. split; [by left|done]. }
  destruct (assetPath_RelativeURL E (setLogoSmall small p0) _ _) as [large|m] eqn:Hl.
  2:{ intros [= <-]. right. right. left.
      exists (setLogoSmall small p0), (info_LogoLarge (PluginInfo pluginJSON)), m.
      split; [exact Hl|]. split; [by right|done]. }
  intros Hshots. right. right. right.
  pose proof (setScreenshots_spec E
                (List.length (info_Screenshots
                   (PluginInfo (JSON (setLogoLarge large (setLogoSmall small p0))))))
                0 (setLogoLarge large (setLogoSmall small p0)) ltac:(lia)) as H.
  rewrite Hshots in H.
  destruct H as (i & s & q & m & _ & Hi & _ & Hq & -> & Hfirst).
  exists i, s, q, m. split; [exact Hi|]. split; [done|]. split; [done|].
  intros j s' Hj Hs'. destruct (Hfirst j s') as (q' & u & _ & Hu); [lia|done|exact Hs'|].
  eauto.
Qed.

Lemma createPluginBase_error_kinds_witness :
  ∃ e,
    createPluginBase Scenarios.noBaseURL (Sample.manifest "x" "panel" []) External "/p/x"
    = Err e ∧
    ((∃ m, assetPath_Base Scenarios.noBaseURL (Sample.manifest "x" "panel" [])
             External "/p/x" = Err m ∧
           e = ErrWrap "base url" (ErrExternal m)) ∨
     (∃ baseURL m,
        assetPath_Base Scenarios.noBaseURL (Sample.manifest "x" "panel" [])
          External "/p/x" = Ok baseURL ∧
        assetPath_Module Scenarios.noBaseURL (Sample.manifest "x" "panel" [])
          External "/p/x" = Err m ∧
        e = ErrWrap "module url" (ErrExternal m)) ∨
     (∃ q logo m,
        assetPath_RelativeURL Scenarios.noBaseURL q logo
          (defaultLogoPath (Type_ (Sample.manifest "x" "panel" []))) = Err m ∧
        (logo = info_LogoSmall (PluginInfo (Sample.manifest "x" "panel" []))
         ∨ logo = info_LogoLarge (PluginInfo (Sample.manifest "x" "panel" []))) ∧
        e = ErrWrap "logo" (ErrExternal m)) ∨
     (∃ i s q m,
        info_Screenshots (PluginInfo (Sample.manifest "x" "panel" [])) !! i = Some s ∧
        assetPath_RelativeURL Scenarios.noBaseURL q (shot_Path s) "" = Err m ∧
        e = ErrWrapIdx "screenshot %d relative url" i (ErrExternal m) ∧
        ∀ j s', j < i →
                info_Screenshots (PluginInfo (Sample.manifest "x" "panel" [])) !! j
                = Some s' →
                ∃ q' u, assetPath_RelativeURL Scenarios.noBaseURL q' (shot_Path s') ""
                        = Ok u)).
Proof.
  exists (ErrWrap "base url" (ErrExternal "no base url")).
  split; [vm_compute; reflexivity|].
  apply (createPluginBase_error_kinds Scenarios.noBaseURL
           (Sample.manifest "x" "panel" []) External "/p/x").
  vm_compute. reflexivity.
Defined.

(** X8. When [createPluginBase] succeeds, the plugin has the given
    directory and class, the base and module URLs of the asset path service
    and the manifest as it was found, image paths apart: each logo and each
    screenshot path is what [RelativeURL] made of the manifest's path, the
    screenshots keeping their number, order and names. The plugin has no
    parent, children, signature or navigation URL yet. *)
Theorem createPluginBase_keeps_manifest (E : Env) (pluginJSON : JSONData) (class : Class)
  (pluginDir : string) (p : Plugin) :
  createPluginBase E pluginJSON class pluginDir = Ok p →
  ∃ baseURL moduleURL,
    assetPath_Base E pluginJSON class pluginDir = Ok baseURL ∧
    assetPath_Module E pluginJSON class pluginDir = Ok moduleURL ∧
    outsideImages p
    = outsideImages (newPlugin pluginJSON class pluginDir baseURL moduleURL) ∧
    (∃ q, outsideImages q = outsideImages p ∧
          assetPath_RelativeURL E q (info_LogoSmall (PluginInfo pluginJSON))
            (defaultLogoPath (Type_ pluginJSON))
          = Ok (info_LogoSmall (PluginInfo (JSON p)))) ∧
    (∃ q, outsideImages q = outsideImages p ∧
          assetPath_RelativeURL E q (info_LogoLarge (PluginInfo pluginJSON))
            (defaultLogoPath (Type_ pluginJSON))
          = Ok (info_LogoLarge (PluginInfo (JSON p)))) ∧
    Forall2 (λ s s', shot_Name s' = shot_Name s ∧
                     ∃ q, outsideImages q = outsideImages p ∧
                          assetPath_RelativeURL E q (shot_Path s) "" = Ok (shot_Path s'))
      (info_Screenshots (PluginInfo pluginJSON))
      (info_Screenshots (PluginInfo (JSON p))).
Proof.
  unfold createPluginBase.
  destruct (assetPath_Base E pluginJSON class pluginDir) as [baseURL|m] eqn:Hb; [|done].
  destruct (assetPath_Module E pluginJSON class pluginDir) as [moduleURL|m] eqn:Hm;
    [|done].
  fold (newPlugin pluginJSON class pluginDir baseURL moduleURL).
  set (p0 := newPlugin pluginJSON class pluginDir baseURL moduleURL).
  unfold setImages.
  destruct (assetPath_RelativeURL E p0 _ _) as [small|m] eqn:Hs; [|done].
  destruct (assetPath_RelativeURL E (setLogoSmall small p0) _ _) as [large|m] eqn:Hl;
    [|done].
  set (p2 := setLogoLarge large (setLogoSmall small p0)).
  intros Hshots.
  pose proof (setScreenshots_spec E
                (List.length (info_Screenshots (PluginInfo (JSON p2)))) 0 p2
                ltac:(lia)) as H.
  rewrite Hshots in H. destruct H as (Ho & Hsm & Hlg & _ & Hafter).
  assert (outsideImages p2 = outsideImages p0) as Ho2 by done.
  exists baseURL, moduleURL. split; [done|]. split; [done|].
  split; [by rewrite Ho|]. split; [|split].
  - exists p0. split; [by rewrite Ho|]. rewrite Hsm. exact Hs.
  - exists (setLogoSmall small p0). split; [by rewrite Ho|]. rewrite Hlg. exact Hl.
  - apply Forall2_same_length_lookup. split.
    + assert (shot_Name <$> info_Screenshots (PluginInfo (JSON p))
              = shot_Name <$> info_Screenshots (PluginInfo pluginJSON)) as Hn.
      { rewrite Ho2 in Ho. unfold outsideImages in Ho. simpl in Ho. by injection Ho. }
      apply (f_equal List.length) in Hn. by rewrite !length_fmap in Hn.
    + intros i s s' Hi Hi'. destruct (Hafter i s) as (q & u & Hq & Hu & Hp); [lia|done|].
      rewrite Hp in Hi'. injection Hi' as <-. simpl. split; [done|].
      exists q. split; [by rewrite Ho|done].
Qed.

Lemma createPluginBase_keeps_manifest_witness :
  ∃ p baseURL moduleURL,
    createPluginBase Sample.siblings (Sample.manifest "x" "panel" []) External "/p/x"
    = Ok p ∧
    assetPath_Base Sample.siblings (Sample.manifest "x" "panel" []) External "/p/x"
    = Ok baseURL ∧
    assetPath_Module Sample.siblings (Sample.manifest "x" "panel" []) External "/p/x"
    = Ok moduleURL ∧
    outsideImages p
    = outsideImages (newPlugin (Sample.manifest "x" "panel" []) External "/p/x"
                       baseURL moduleURL).
Proof.
  destruct (createPluginBase_keeps_manifest Sample.siblings
              (Sample.manifest "x" "panel" []) External "/p/x"
              (newPlugin (Sample.manifest "x" "panel" []) External "/p/x"
                 "public/plugins/x" "plugins/x/module"))
    as (baseURL & moduleURL & Hb & Hm & Ho & _).
  { vm_compute. reflexivity. }
  eexists _, baseURL, moduleURL. split; [vm_compute; reflexivity|].
  split; [exact Hb|]. split; [exact Hm|exact Ho].
Defined.

(** ** createPluginsForLoading *)

(** X9. [createPluginsForLoading] keeps exactly the manifests for which the
    plugin base can be created and the initial signature determined, each
    under its directory; a plugin the CDN serves is marked as validly signed
    without its signature being calculated, any other plugin gets the
    calculated signature. *)
Theorem createPluginsForLoading_entries (E : Env) (l : Loader) (class : Class)
  (foundPlugins : gmap string JSONData) (pluginDir : string) (p : Plugin) :
  (createPluginsForLoading E l class foundPlugins).2 !! pluginDir = Some p
  ↔ ∃ pluginJSON plugin sig,
      foundPlugins !! pluginDir = Some pluginJSON ∧
      createPluginBase E pluginJSON class pluginDir = Ok plugin ∧
      (if pluginsCDN_PluginSupported E (ID pluginJSON)
       then sig = mkSignature SignatureValid "" ""
       else signature_Calculate E plugin = Ok sig) ∧
      p = setSignature sig plugin.
Proof.
  rewrite createPluginsForLoading_lookup.
  destruct (foundPlugins !! pluginDir) as [d|]; simpl.
  2:{ split; [done|]. by intros (? & ? & ? & [=] & _). }
  unfold created, initialSignature.
  destruct (createPluginBase E d class pluginDir) as [plugin|e] eqn:Hc.
  2:{ split; [done|]. intros (? & ? & ? & [= <-] & Hc' & _). congruence. }
  pose proof (createPluginBase_ok _ _ _ _ _ Hc) as [Hbase _].
  assert (ID (JSON plugin) = ID d) as -> by (by injection Hbase).
  destruct (pluginsCDN_PluginSupported E (ID d)) eqn:Hcdn.
  - split.
    + intros [= <-]. exists d, plugin, (mkSignature SignatureValid "" "").
      by rewrite Hcdn.
    + intros (d' & plugin' & sig & [= <-] & Hc' & Hsig & ->).
      rewrite Hcdn in Hsig. subst sig.
      rewrite Hc in Hc'. by injection Hc' as <-.
  - destruct (signature_Calculate E plugin) as [sig|m] eqn:Hs.
    + split.
      * intros [= <-]. exists d, plugin, sig. by rewrite Hcdn.
      * intros (d' & plugin' & sig' & [= <-] & Hc' & Hs' & ->).
        rewrite Hcdn in Hs'.
        rewrite Hc in Hc'. injection Hc' as <-. congruence.
    + split; [done|].
      intros (d' & plugin' & sig' & [= <-] & Hc' & Hs' & ->).
      rewrite Hcdn in Hs'.
      rewrite Hc in Hc'. injection Hc' as <-. congruence.
Qed.

(** ** The first loop of loadPlugins *)

Lemma readPluginJSON_result E l l0 path :
  (readPluginJSON E l path).2 = (readPluginJSON E l0 path).2.
Proof. unfold readPluginJSON. by repeat case_match. Qed.

Lemma readStep_eq E l found path :
  (readStep E (l, found) path).2
  = match manifestAt E path with
    | Some (dir, plugin) =>
        match found !! dir with
        | Some _ => found
        | None => <[dir := plugin]> found
        end
    | None => found
    end.
Proof.
  unfold readStep, manifestAt.
  rewrite (readPluginJSON_result E (mkLoader ∅ ∅ []) l path).
  destruct (readPluginJSON E l path) as [l1 [plugin|e]]; simpl; [|done].
  destruct (Abs E path) as [abs|m]; [|done].
  by destruct (found !! Dir abs).
Qed.

Lemma readManifests_fold E paths l found dir :
  (foldl (readStep E) (l, found) paths).2 !! dir
  = match found !! dir with
    | Some plugin => Some plugin
    | None => snd <$> List.find (λ entry, String.eqb entry.1 dir)
                        (omap (manifestAt E) paths)
    end.
Proof.
  revert l found. induction paths as [|path paths IH]; intros l found; simpl.
  { by destruct (found !! dir). }
  pose proof (readStep_eq E l found path) as Hstep.
  destruct (readStep E (l, found) path) as [l1 found1]. simpl in Hstep. subst found1.
  rewrite IH. destruct (manifestAt E path) as [[k plugin]|]; [|done].
  simpl. destruct (String.eqb_spec k dir) as [->|Hne].
  - destruct (found !! dir) as [d|] eqn:Hd; [by rewrite Hd|].
    by rewrite lookup_insert_eq.
  - destruct (found !! k); [done|]. by rewrite lookup_insert_ne.
Qed.

(** X10. Of the manifests read for one directory, the first loop of
    [loadPlugins] keeps the first one in the order of the paths: the
    manifest found for a directory is that of the first path which can be
    read, can be made absolute and lies in that directory; later ones are
    skipped as duplicates and a directory no such path lies in has none. *)
Theorem first_manifest_of_a_directory_wins (E : Env) (l : Loader)
  (pluginJSONPaths : list string) (dir : string) :
  (readManifests E l pluginJSONPaths).2 !! dir
  = snd <$> List.find (λ entry, String.eqb entry.1 dir)
              (omap (manifestAt E) pluginJSONPaths).
Proof. unfold readManifests. by rewrite readManifests_fold, lookup_empty. Qed.

(** ** stripDuplicates *)

Lemma stripDuplicates_events existing entries l f byID :
  (foldl (stripDuplicatesStep existing) (l, f, byID) entries).1.1
  = mkLoader (pluginRegistry l) (errs l)
      (events l
       ++ ((λ entry, Log Debug "Skipping plugin as it's already installed" (ID entry.2))
           <$> filter (λ entry, ID entry.2 ∈ existing) entries)).
Proof.
  revert l f byID. induction entries as [|[k d] es IH]; intros l f byID.
  { simpl. rewrite app_nil_r. by destruct l. }
  cbn [foldl]. rewrite stripDuplicatesStep_eq, filter_cons. simpl.
  case_decide; rewrite IH; [|done].
  simpl. by rewrite <- app_assoc.
Qed.

(** X11. [stripDuplicates] removes exactly the manifests whose ID is among
    the existing plugins, and logs one Debug line for each manifest removed,
    in the order of the map loop; the other manifests stay as they are, also
    when two of them have the same ID, and nothing else changes. *)
Theorem stripDuplicates_removes_and_logs (E : Env) (l : Loader)
  (f : gmap string JSONData) (existingPlugins : gset string) :
  stripDuplicates E l f existingPlugins
  = (mkLoader (pluginRegistry l) (errs l)
       (events l
        ++ ((λ entry, Log Debug "Skipping plugin as it's already installed" (ID entry.2))
            <$> filter (λ entry, ID entry.2 ∈ existingPlugins)
                  (rangeMap (rangeRank E 0) f))),
     filter (λ entry, ID entry.2 ∉ existingPlugins) f).
Proof.
  pose proof (stripDuplicates_lookup E l f existingPlugins) as Hlook.
  unfold stripDuplicates in *.
  pose proof (stripDuplicates_events existingPlugins (rangeMap (rangeRank E 0) f) l f ∅)
    as Hev.
  destruct (foldl _ _ _) as [[l' f'] byID]. simpl in *. subst l'. f_equal.
  apply map_eq. intros k. rewrite Hlook, map_lookup_filter.
  destruct (f !! k) as [d|]; simpl; [|done].
  case_decide; case_guard; simpl; done.
Qed.

(** ** PluginErrors *)


(** ** Load: what the steps before the validation loop leave alone *)

Lemma logsOnly_readPluginJSON E l path : logsOnly l (readPluginJSON E l path).1.
Proof.
  unfold readPluginJSON.
  repeat (case_match; simpl); repeat logs_step.
Qed.

Lemma logsOnly_readStep E l found path : logsOnly l (readStep E (l, found) path).1.
Proof.
  unfold readStep.
  pose proof (logsOnly_readPluginJSON E l path) as H.
  destruct (readPluginJSON E l path) as [l1 [d|e]]; simpl in *.
  - repeat (case_match; simpl); repeat logs_step; done.
  - by logs_step.
Qed.

Lemma logsOnly_readManifests E l paths : logsOnly l (readManifests E l paths).1.
Proof.
  unfold readManifests. generalize (∅ : gmap string JSONData) as found.
  revert l. induction paths as [|p ps IH]; intros l found; simpl; [apply logsOnly_refl|].
  pose proof (logsOnly_readStep E l found p) as H.
  destruct (readStep E (l, found) p) as [l1 f1]. simpl in H.
  eapply logsOnly_trans; [exact H|apply IH].
Qed.

Lemma logsOnly_stripDuplicates E l f existing :
  logsOnly l (stripDuplicates E l f existing).1.
Proof.
  unfold stripDuplicates.
  pose proof (stripDuplicates_events existing (rangeMap (rangeRank E 0) f) l f ∅) as Hev.
  destruct (foldl _ _ _) as [[l' f'] byID]. simpl in *. subst l'.
  split; [done|]. split; [done|]. eexists. split; [done|].
  apply Forall_fmap, Forall_forall. by intros [k d] _.
Qed.

Lemma logsOnly_createPluginsForLoading E l class found :
  logsOnly l (createPluginsForLoading E l class found).1.
Proof.
  unfold createPluginsForLoading.
  generalize (rangeMap (rangeRank E 1) found) as entries.
  generalize (∅ : gmap string Plugin) as loaded. intros loaded entries.
  revert l loaded. induction entries as [|[k d] es IH]; intros l loaded; simpl;
    [apply logsOnly_refl|].
  unfold createPluginsStep at 2.
  repeat case_match; (eapply logsOnly_trans; [|apply IH]); repeat logs_step.
Qed.

Lemma logsOnly_discoverPlugins E l class paths :
  logsOnly l (discoverPlugins E l class paths).1.
Proof.
  unfold discoverPlugins.
  pose proof (logsOnly_readManifests E l paths) as H1.
  destruct (readManifests E l paths) as [l1 f1]. simpl in H1.
  pose proof (logsOnly_stripDuplicates E l1 f1 (registeredIDs l1)) as H2.
  destruct (stripDuplicates E l1 f1 (registeredIDs l1)) as [l2 f2]. simpl in H2.
  pose proof (logsOnly_createPluginsForLoading E l2 class f2) as H3.
  destruct (createPluginsForLoading E l2 class f2) as [l3 lo]. simpl in *.
  eauto using logsOnly_trans.
Qed.

(** ** Load: the validation loop, when it returns early *)

Lemma checkModuleJS_Err E l plugin e :
  checkModuleJS E l plugin = Err e →
  IsRenderer plugin = false ∧ IsCorePlugin plugin = false ∧
  ∃ m, fs_Exists E (Join [PluginDir plugin; "module.js"]) = Err m ∧ e = ErrExternal m.
Proof.
  unfold checkModuleJS.
  destruct (IsRenderer plugin), (IsCorePlugin plugin); simpl; try done.
  destruct (fs_Exists E _) as [b|m]; [by case_match|].
  intros [= <-]. eauto.
Qed.

Lemma validateStep_Return E l loaded verified k l' e :
  validateStep E (l, loaded, verified) k = Return l' e →
  ∃ plugin,
    loaded !! k = Some plugin ∧
    signatureValidator_Validate E loaded plugin = None ∧
    l' = setErrs (delete (ID (JSON plugin)) (errs l)) l ∧
    checkModuleJS E l' plugin = Err e.
Proof.
  unfold validateStep. destruct (loaded !! k) as [plugin|]; [|done].
  destruct (signatureValidator_Validate E loaded plugin) eqn:Hv; [done|].
  destruct (checkModuleJS E _ plugin) as [l1|e1] eqn:Hc.
  - by destruct (configureNav E l1 plugin).
  - intros [= <- <-]. exists plugin. repeat split; done.
Qed.

(** The validation loop keeps [Inv] from step to step; when it returns
    early, it does so from a state in which [Inv] holds. *)
Lemma validateLoop_cases E
  (Inv : Loader * gmap string Plugin * list string → list string → Prop) :
  (∀ st k rest st', Inv st (k :: rest) → k ∉ rest →
                    validateStep E st k = Continue st' → Inv st' rest) →
  ∀ todo st, NoDup todo → Inv st todo →
    match validateLoop E st todo with
    | Continue st' => Inv st' []
    | Return l' e =>
        ∃ st1 k rest, Inv st1 (k :: rest) ∧ validateStep E st1 k = Return l' e
    end.
Proof.
  intros Hstep todo. induction todo as [|k rest IH]; intros st Hnd Hinv; simpl; [done|].
  apply NoDup_cons in Hnd as [Hk Hnd].
  destruct (validateStep E st k) as [st1|l1 e1] eqn:Hs; [|eauto].
  apply IH; [done|]. eapply Hstep; done.
Qed.

Lemma verifyPlugins_Return E l class pluginJSONPaths l' e :
  verifyPlugins E l class pluginJSONPaths = Return l' e →
  ∃ dir p m,
    (discoverPlugins E l class pluginJSONPaths).2 !! dir = Some p ∧
    PluginDir p = dir ∧ IsRenderer p = false ∧ IsCorePlugin p = false ∧
    fs_Exists E (Join [dir; "module.js"]) = Err m ∧ e = ErrExternal m.
Proof.
  unfold verifyPlugins.
  pose proof (discovered_nav E l class pluginJSONPaths) as Hnav.
  destruct (discoverPlugins E l class pluginJSONPaths) as [l0 loaded0]. simpl in Hnav.
  intros Hloop.
  pose proof (validateLoop_cases E (validationInv E loaded0)) as Hcases.
  specialize (Hcases (λ st k rest st', validationInv_step E loaded0 st k rest st'
                                         (λ k p0 H, proj1 (Hnav k p0 H)))).
  specialize (Hcases (rangeMap (rangeRank E 3) loaded0).*1 (l0, loaded0, [])
                (NoDup_rangeMap_keys _ _)).
  rewrite Hloop in Hcases.
  destruct Hcases as ([[l1 store] verified] & k & rest & Hinv & Hstep).
  { apply validationInv_start. intros k. apply elem_of_rangeMap_keys. }
  apply validateStep_Return in Hstep as (plugin & Hk & _ & _ & Hc).
  apply checkModuleJS_Err in Hc as (Hr & Hcore & m & Hm & ->).
  destruct Hinv as (Ha & _). rewrite Ha in Hk by left.
  destruct (Hnav k plugin Hk) as [_ Hdir]. rewrite Hdir in Hm.
  exists k, plugin, m. done.
Qed.

Lemma initializeLoop_cases E l vs :
  match (initializeLoop E l vs).2 with
  | None => Forall (λ q, pluginInitializer_Initialize E q = None) vs
  | Some e =>
      ∃ pre p post m,
        vs = pre ++ p :: post ∧
        Forall (λ q, pluginInitializer_Initialize E q = None) pre ∧
        pluginInitializer_Initialize E p = Some m ∧ e = ErrExternal m
  end.
Proof.
  revert l. induction vs as [|p vs IH]; intros l; simpl; [done|].
  destruct (pluginInitializer_Initialize E p) as [m|] eqn:Hp; simpl.
  { exists [], p, vs, m. done. }
  match goal with |- context [initializeLoop E ?l1 vs] => specialize (IH l1) end.
  destruct (initializeLoop E _ vs) as [l2 [e|]]; simpl in *.
  - destruct IH as (pre & q & post & m & -> & Hpre & Hq & ->).
    exists (p :: pre), q, post, m. split; [done|]. split; [|done].
    by constructor.
  - by constructor.
Qed.

Lemma initializedEvents_kinds E vs :
  Forall (λ ev, isLog ev ∨ isInitialization ev) (flat_map (initializedEvents E) vs).
Proof.
  induction vs as [|p vs IH]; simpl; [done|].
  repeat (constructor; [by right|]).
  destruct (roleRegistry_DeclarePluginRoles E p); simpl; [|done].
  constructor; [by left|done].
Qed.

Lemma verified_plugin E loaded0 l1 store verified p :
  validationInv E loaded0 (l1, store, verified) [] →
  (∀ k p0, loaded0 !! k = Some p0 → PluginDir p0 = k) →
  p ∈ omap (λ k, store !! k) verified →
  ∃ p0, loaded0 !! PluginDir p = Some p0 ∧ core p = core p0 ∧ links p = links p0 ∧
        PluginDir p ∈ verified ∧ store !! PluginDir p = Some p.
Proof.
  intros (_ & Hb & Hc & _) Hdir Hin.
  apply elem_of_result in Hin as (k & Hk & Hp).
  destruct (Hc k Hk) as (_ & p0 & q & _ & Hk0 & Hq & _).
  specialize (Hb k). rewrite Hk0, Hp in Hb. inversion Hb as [? ? [Hcore Hlinks]|]; subst.
  destruct (core_eq _ _ Hcore) as (_ & _ & Hd & _).
  rewrite Hd, (Hdir k p0 Hk0). exists p0. repeat split; done.
Qed.



(** ** Load: what it returns *)

Lemma elem_of_registeredIDs l id :
  id ∈ registeredIDs l ↔ ∃ key q, pluginRegistry l !! key = Some q ∧ ID (JSON q) = id.
Proof.
  unfold registeredIDs, Registry.Plugins.
  rewrite elem_of_list_to_set, list_elem_of_fmap. split.
  - intros (q & -> & Hq). apply list_elem_of_fmap in Hq as ([key q'] & -> & Hq).
    apply elem_of_map_to_list in Hq. eauto.
  - intros (key & q & Hq & <-). exists q. split; [done|].
    apply list_elem_of_fmap. exists (key, q). split; [done|].
    by apply elem_of_map_to_list.
Qed.

(** X14. Load never returns a plugin whose ID a registered plugin already
    has: the manifests with such an ID are stripped before any plugin is
    created. *)
Theorem Load_skips_registered_IDs (E : Env) (l l' : Loader) (class : Class)
  (paths : list string) (ps : list Plugin) (p : Plugin) :
  Load E l class paths = (l', Ok ps) →
  p ∈ ps →
  (ID (JSON p) ∉ registeredIDs l) ∧
  ∀ key q, pluginRegistry l !! key = Some q → ID (JSON q) ≠ ID (JSON p).
Proof.
  intros Hload Hin.
  destruct (Load_Ok_find _ _ _ _ _ _ Hload) as [jp Hfind].
  destruct (Load_result E l class paths jp l' ps p Hfind Hload Hin)
    as (p0 & _ & Hp0 & Hcore & _).
  apply discoverPlugins_lookup in Hp0 as (d & p1 & _ & Hnew & Hc & Hbase & _).
  apply created_ok in Hc as [Hb1 _]. rewrite <- Hbase in Hb1.
  assert (ID (JSON p0) = ID d) as Hid by (by injection Hb1).
  destruct (core_eq _ _ Hcore) as (Hidp & _). rewrite Hidp, Hid.
  split; [done|]. intros key q Hq Heq. apply Hnew.
  apply elem_of_registeredIDs. eauto.
Qed.

Lemma Load_skips_registered_IDs_witness :
  Forall (λ p, ID (JSON p) ∉ registeredIDs Sample.withCore)
    match (Load Sample.siblings Sample.withCore External Sample.siblingPaths).2 with
    | Ok ps => ps
    | Err _ => []
    end.
Proof.
  apply Forall_forall. intros p Hp.
  apply (Load_skips_registered_IDs Sample.siblings Sample.withCore
           (Load Sample.siblings Sample.withCore External Sample.siblingPaths).1
           External Sample.siblingPaths
           match (Load Sample.siblings Sample.withCore External Sample.siblingPaths).2 with
           | Ok ps => ps
           | Err _ => []
           end p); [vm_compute; reflexivity|exact Hp].
Defined.

Lemma validateLoop_NoDup E l loaded keys l' loaded' verified' :
  NoDup keys →
  validateLoop E (l, loaded, []) keys = Continue (l', loaded', verified') →
  NoDup verified'.
Proof.
  intros Hnd Hloop.
  assert (NoDup ((l', loaded', verified').2 ++ [])) as Hind;
    [|by rewrite app_nil_r in Hind].
  eapply (validateLoop_ind E (λ st todo, NoDup (st.2 ++ todo)) _ keys (l, loaded, []));
    [exact Hnd|exact Hnd|exact Hloop].
  Unshelve.
  intros [[l1 store] verified] k rest [[l2 store2] verified2] Hinv _ Hstep. simpl in *.
  apply validateStep_Continue in Hstep.
  apply NoDup_app in Hinv as (Hv & Hdisj & Hkr).
  apply NoDup_cons in Hkr as [Hk Hr].
  assert (NoDup (verified ++ rest)) as Hkeep.
  { apply NoDup_app. split; [done|]. split; [|done].
    intros x Hx Hxr. apply (Hdisj x Hx). by right. }
  destruct (store !! k) as [plugin|].
  2:{ by destruct Hstep as (_ & _ & ->). }
  destruct (signatureValidator_Validate E store plugin).
  { by destruct Hstep as (_ & -> & _). }
  destruct Hstep as (-> & _). rewrite <- app_assoc. simpl.
  apply NoDup_app. split; [done|]. split.
  - intros x Hx Hxr. apply (Hdisj x Hx). done.
  - by apply NoDup_cons.
Qed.

Lemma fmap_PluginDir_omap (store : gmap string Plugin) (keys : list string) :
  (∀ k, k ∈ keys → ∃ p, store !! k = Some p ∧ PluginDir p = k) →
  PluginDir <$> omap (λ k, store !! k) keys = keys.
Proof.
  induction keys as [|k keys IH]; intros H; simpl; [done|].
  destruct (H k) as (p & -> & Hp); [left|]. simpl. f_equal; [done|].
  apply IH. intros k' Hk'. apply H. by right.
Qed.

(** What [Load] returns, by the directories of the batch. *)
Lemma Load_Ok_inv E l class paths pluginJSONPaths l' ps :
  finder_Find E paths = Ok pluginJSONPaths →
  Load E l class paths = (l', Ok ps) →
  ∃ l1 store verified,
    verifyPlugins E l class pluginJSONPaths = Continue (l1, store, verified) ∧
    validationInv E (discoverPlugins E l class pluginJSONPaths).2 (l1, store, verified) [] ∧
    ps = omap (λ k, store !! k) verified ∧
    PluginDir <$> ps = verified ∧
    NoDup verified.
Proof.
  intros Hfind Hload.
  apply Load_inv in Hload as [(e & ? & ? & _)|(jp & Hjp & Hload)]; [congruence|].
  assert (jp = pluginJSONPaths) as -> by congruence.
  destruct Hload as [(e & _ & ?)|(l1 & store & verified & Hver & Hinv & _ & Hps)];
    [done|].
  destruct (Hps ps eq_refl) as [-> _].
  exists l1, store, verified. split; [done|]. split; [done|]. split; [done|]. split.
  - apply fmap_PluginDir_omap. intros k Hk.
    destruct Hinv as (_ & Hb & Hc & _).
    destruct (Hc k Hk) as (_ & p0 & q & _ & Hk0 & Hq & _).
    specialize (Hb k). rewrite Hk0, Hq in Hb.
    inversion Hb as [? ? [Hcore Hlinks]|]; subst.
    destruct (core_eq _ _ Hcore) as (_ & _ & Hd & _).
    exists q. split; [done|]. rewrite Hd.
    by apply (discovered_nav E l class pluginJSONPaths).
  - unfold verifyPlugins in Hver.
    destruct (discoverPlugins E l class pluginJSONPaths) as [l0 loaded0].
    eapply validateLoop_NoDup; [|exact Hver]. apply NoDup_rangeMap_keys.
Qed.

(** X15. Load returns one plugin for each directory of the batch whose
    plugin the signature validator accepts, and no other: no two returned
    plugins have the same directory, every returned plugin is in a directory
    of the batch, and a directory of the batch is among the returned ones
    exactly when the validator, whose verdict on it does not depend on the
    other plugins, accepts its plugin. *)
Theorem Load_returns_accepted_directories_once (E : Env) (l l' : Loader) (class : Class)
  (paths pluginJSONPaths : list string) (ps : list Plugin) :
  finder_Find E paths = Ok pluginJSONPaths →
  Load E l class paths = (l', Ok ps) →
  NoDup (PluginDir <$> ps) ∧
  (∀ p, p ∈ ps →
        is_Some ((discoverPlugins E l class pluginJSONPaths).2 !! PluginDir p)) ∧
  (∀ dir p0 v,
     (discoverPlugins E l class pluginJSONPaths).2 !! dir = Some p0 →
     (∀ store, signatureValidator_Validate E store p0 = v) →
     (dir ∈ PluginDir <$> ps ↔ v = None)).
Proof.
  intros Hfind Hload.
  destruct (Load_Ok_inv E l class paths pluginJSONPaths l' ps Hfind Hload)
    as (l1 & store & verified & Hver & Hinv & Hps & Hdirs & Hnd).
  rewrite Hdirs. split; [done|]. split.
  - intros p Hp. rewrite Hps in Hp.
    destruct (verified_plugin E _ l1 store verified p Hinv) as (p0 & Hp0 & _); [|done|eauto].
    intros k p0 Hk. by apply (discovered_nav E l class pluginJSONPaths).
  - intros dir p0 v Hp0 Hv. destruct Hinv as (_ & _ & Hc & Hd & _). split.
    + intros Hin. destruct (Hc dir Hin) as (_ & q0 & q & store0 & Hq0 & _ & _ & Hval).
      assert (q0 = p0) as -> by congruence. by rewrite <- (Hv store0).
    + intros ->. destruct (decide (dir ∈ verified)) as [|Hnot]; [done|].
      destruct (Hd dir p0 Hp0) as (store0 & e & He); [apply not_elem_of_nil|done|].
      by rewrite Hv in He.
Qed.

Lemma Load_returns_accepted_directories_once_witness :
  NoDup (PluginDir <$> match (Load Sample.siblingsXInvalid Sample.newLoader External
                                Sample.siblingPaths).2 with
                       | Ok ps => ps
                       | Err _ => []
                       end).
Proof.
  apply (Load_returns_accepted_directories_once Sample.siblingsXInvalid Sample.newLoader
           (Load Sample.siblingsXInvalid Sample.newLoader External Sample.siblingPaths).1
           External Sample.siblingPaths Sample.siblingPaths);
    vm_compute; reflexivity.
Defined.

(** ** Load: the error map *)

Lemma validateLoop_errs_frame E loaded0 l0 id :
  (∀ k p0, loaded0 !! k = Some p0 → DefaultNavURL p0 = "") →
  (∀ dir p, loaded0 !! dir = Some p → ID (JSON p) ≠ id) →
  match validateLoop E (l0, loaded0, []) (rangeMap (rangeRank E 3) loaded0).*1 with
  | Continue st => errs st.1.1 !! id = errs l0 !! id
  | Return l1 _ => errs l1 !! id = errs l0 !! id
  end.
Proof.
  intros Hnav Hother.
  set (Inv := λ (st : Loader * gmap string Plugin * list string) (todo : list string),
                validationInv E loaded0 st todo ∧ errs st.1.1 !! id = errs l0 !! id).
  assert (∀ st k rest st', Inv st (k :: rest) → k ∉ rest →
                           validateStep E st k = Continue st' → Inv st' rest) as Hstep.
  { intros [[l1 store] verified] k rest [[l2 store2] verified2] [Hi He] Hk Hstep.
    split; [eapply validationInv_step; [exact Hnav|exact Hi|exact Hk|exact Hstep]|].
    simpl in *. apply validateStep_Continue in Hstep.
    destruct Hi as (Ha & _). rewrite Ha in Hstep by left.
    destruct (loaded0 !! k) as [p0|] eqn:Hk0.
    2:{ by destruct Hstep as (-> & _). }
    destruct (signatureValidator_Validate E store p0).
    + destruct Hstep as (_ & _ & ->). rewrite lookup_insert_ne; [done|].
      by apply (Hother k).
    + destruct Hstep as (_ & -> & _). rewrite lookup_delete_ne; [done|].
      by apply (Hother k). }
  pose proof (validateLoop_cases E Inv Hstep (rangeMap (rangeRank E 3) loaded0).*1
                (l0, loaded0, []) (NoDup_rangeMap_keys _ _)) as Hcases.
  destruct (validateLoop E _ _) as [st|l1 e].
  - apply Hcases. split; [|done].
    apply validationInv_start. intros k. apply elem_of_rangeMap_keys.
  - destruct Hcases as ([[l2 store] verified] & k & rest & [Hi He] & Hstep').
    { split; [|done]. apply validationInv_start. intros k. apply elem_of_rangeMap_keys. }
    apply validateStep_Return in Hstep' as (plugin & Hk & _ & -> & _).
    destruct Hi as (Ha & _). rewrite Ha in Hk by left. simpl in *.
    rewrite lookup_delete_ne; [done|]. by apply (Hother k).
Qed.

(** X16. Load changes the error map only at the IDs of the plugins of its
    batch: the entry of any other ID, set or not, is after the call what it
    was before, whether Load succeeds or fails. *)
Theorem Load_keeps_errors_of_other_plugins (E : Env) (l l' : Loader) (class : Class)
  (paths : list string) (r : result error (list Plugin)) (id : string) :
  Load E l class paths = (l', r) →
  (∀ pluginJSONPaths dir p,
     finder_Find E paths = Ok pluginJSONPaths →
     (discoverPlugins E l class pluginJSONPaths).2 !! dir = Some p →
     ID (JSON p) ≠ id) →
  errs l' !! id = errs l !! id.
Proof.
  intros Hload Hother.
  pose proof Hload as Hinv.
  apply Load_inv in Hinv as [(m & _ & _ & ->)|(jp & Hfind & Hinv)]; [done|].
  specialize (Hother jp).
  pose proof (discovered_nav E l class jp) as Hnav.
  pose proof (logsOnly_discoverPlugins E l class jp) as (_ & Herrs0 & _).
  assert (match verifyPlugins E l class jp with
          | Continue st => errs st.1.1 !! id = errs l !! id
          | Return l1 _ => errs l1 !! id = errs l !! id
          end) as Hver.
  { clear Hinv. unfold verifyPlugins.
    destruct (discoverPlugins E l class jp) as [l0 loaded0].
    simpl in Hnav, Herrs0, Hother.
    rewrite <- Herrs0. apply validateLoop_errs_frame.
    - intros k p0 Hk. by destruct (Hnav k p0 Hk).
    - intros dir p Hp. by apply (Hother dir). }
  destruct Hinv as [(e & Hret & _)|(l1 & store & verified & Hcont & _ & He & _)].
  - by rewrite Hret in Hver.
  - rewrite Hcont in Hver. simpl in Hver. by rewrite He.
Qed.

Lemma Load_keeps_errors_of_other_plugins_witness :
  errs (Load Sample.nested
          (Load Sample.siblingsXInvalid Sample.newLoader External Sample.siblingPaths).1
          External Sample.nestedPaths).1 !! "x"
  = errs (Load Sample.siblingsXInvalid Sample.newLoader External Sample.siblingPaths).1
      !! "x".
Proof.
  apply (Load_keeps_errors_of_other_plugins Sample.nested
           (Load Sample.siblingsXInvalid Sample.newLoader External Sample.siblingPaths).1
           (Load Sample.nested
              (Load Sample.siblingsXInvalid Sample.newLoader External
                 Sample.siblingPaths).1
              External Sample.nestedPaths).1
           External Sample.nestedPaths
           (Load Sample.nested
              (Load Sample.siblingsXInvalid Sample.newLoader External
                 Sample.siblingPaths).1
              External Sample.nestedPaths).2 "x").
  - by destruct (Load _ _ _ _).
  - intros jp dir p [= <-].
    assert (map_Forall (λ _ q, ID (JSON q) ≠ "x")
              (discoverPlugins Sample.nested
                 (Load Sample.siblingsXInvalid Sample.newLoader External
                    Sample.siblingPaths).1
                 External Sample.nestedPaths).2) as Hall.
    { apply (bool_decide_unpack _). vm_compute. exact I. }
    apply (Hall dir p).
Defined.

(** ** Load: the order of its calls *)

Lemma loadStep_events E l p :
  ∃ evs, events (loadStep E l p) = events l ++ evs ∧
         Forall (λ ev, ¬ isInitialization ev) evs.
Proof.
  unfold loadStep. pose proof (load_outcomes E l p) as H. cbv zeta in H.
  destruct (Registry.Add (pluginRegistry l) p) as [r [m|]].
  { rewrite H. simpl. eexists. split; [done|].
    apply Forall_cons. split; [by intros []|done]. }
  destruct (negb (IsCorePlugin p)), (IsExternalPlugin p);
    try destruct (pluginStorage_Register E _ _);
    rewrite H; try destruct (processManager_Start E (ID (JSON p))); simpl;
    rewrite <- ?app_assoc; (eexists; split; [reflexivity|]);
    repeat (apply Forall_cons; split; [by intros []|]); by apply Forall_nil.
Qed.

Lemma foldl_loadStep_events E vs l :
  ∃ evs, events (foldl (loadStep E) l vs) = events l ++ evs ∧
         Forall (λ ev, ¬ isInitialization ev) evs.
Proof.
  revert l. induction vs as [|p vs IH]; intros l; simpl.
  { exists []. by rewrite app_nil_r. }
  destruct (loadStep_events E l p) as (e1 & He1 & Hf1).
  destruct (IH (loadStep E l p)) as (e2 & He2 & Hf2).
  exists (e1 ++ e2). rewrite He2, He1, app_assoc. split; [done|].
  by apply Forall_app.
Qed.

(** X17. A Load that succeeds has initialized exactly the plugins it
    returns, in the order in which it returns them, each once, after the
    last log line of the validation and before the first registration: the
    initializer accepted each of them, and no plugin is registered in
    storage or started before all of them are initialized. *)
Theorem Load_initializes_what_it_returns (E : Env) (l l' : Loader) (class : Class)
  (paths : list string) (ps : list Plugin) :
  Load E l class paths = (l', Ok ps) →
  Forall (λ p, pluginInitializer_Initialize E p = None) ps ∧
  ∃ logs registration,
    events l' = events l ++ logs ++ flat_map (initializedEvents E) ps ++ registration ∧
    Forall isLog logs ∧
    Forall (λ ev, ¬ isInitialization ev) registration.
Proof.
  unfold Load. destruct (finder_Find E paths) as [jp|]; [|done].
  unfold loadPlugins.
  pose proof (quiet_verifyPlugins E l class jp) as Hq.
  destruct (verifyPlugins E l class jp) as [[[l1 store] verified]|]; [|done].
  simpl in Hq. destruct Hq as [_ (logs & Hev & Hlogs)].
  pose proof (initializeLoop_cases E l1 (omap (λ k, store !! k) verified)) as Hcases.
  destruct (initializeLoop E l1 _) as [l2 [e|]] eqn:Hinit; [done|].
  simpl in Hcases. intros [= <- <-]. split; [done|].
  rewrite (initializeLoop_ok E l1 _ Hcases) in Hinit. injection Hinit as <-.
  destruct (foldl_loadStep_events E (omap (λ k, store !! k) verified)
              (mkLoader (pluginRegistry l1) (errs l1)
                 (events l1 ++ flat_map (initializedEvents E)
                                 (omap (λ k, store !! k) verified))))
    as (regs & Hregs & Hf).
  exists logs, regs. rewrite Hregs. simpl. rewrite Hev, <- !app_assoc. done.
Qed.

Lemma Load_initializes_what_it_returns_witness :
  Forall (λ p, pluginInitializer_Initialize Sample.siblings p = None)
    match (Load Sample.siblings Sample.newLoader External Sample.siblingPaths).2 with
    | Ok ps => ps
    | Err _ => []
    end.
Proof.
  apply (Load_initializes_what_it_returns Sample.siblings Sample.newLoader
           (Load Sample.siblings Sample.newLoader External Sample.siblingPaths).1
           External Sample.siblingPaths).
  vm_compute. reflexivity.
Defined.

(** ** The dependency wiring: children *)

Lemma filter_ext_in {A} (P Q : A → Prop) `{!∀ x, Decision (P x), !∀ x, Decision (Q x)}
  (l : list A) :
  (∀ x, x ∈ l → P x ↔ Q x) → filter P l = filter Q l.
Proof.
  induction l as [|x l IH]; intros Hext; [done|].
  rewrite !filter_cons. rewrite IH by (intros y Hy; apply Hext; by right).
  destruct (Hext x ltac:(left)). repeat case_decide; naive_solver.
Qed.

Lemma wireStep_children loaded k0 k :
  (∀ k p, loaded !! k = Some p → PluginDir p = k) →
  option_Forall2
    (λ p p', Children p'
             = Children p
               ++ (if decide (is_Some (loaded !! k0) ∧ parentOf loaded k0 = Some k)
                   then [k0] else []))
    (loaded !! k) (wireStep loaded k0 !! k).
Proof.
  intros Hdir. unfold wireStep.
  destruct (loaded !! k0) as [plugin|] eqn:Hk0.
  2:{ destruct (loaded !! k) as [p|]; constructor.
      rewrite decide_False; [by rewrite app_nil_r|]. by intros [[? [=]] _]. }
  rewrite (Hdir k0 plugin Hk0).
  destruct (parentOf loaded k0) as [pd|] eqn:Hp.
  - rewrite !lookup_alter.
    destruct (decide (pd = k)) as [->|Hpd], (decide (k0 = k)) as [->|Hk]; simpl.
    + rewrite Hk0. simpl. constructor. by rewrite decide_True by eauto.
    + destruct (loaded !! k) as [p|]; constructor. simpl.
      by rewrite decide_True by eauto.
    + rewrite Hk0. simpl. constructor.
      rewrite decide_False; [by rewrite app_nil_r|]. intros [_ [=]]. done.
    + destruct (loaded !! k) as [p|]; constructor.
      rewrite decide_False; [by rewrite app_nil_r|]. intros [_ [=]]. done.
  - destruct (loaded !! k) as [p|]; constructor.
    rewrite decide_False; [by rewrite app_nil_r|]. by intros [_ [=]].
Qed.

Lemma wire_children loaded todo k :
  (∀ k p, loaded !! k = Some p → PluginDir p = k) →
  option_Forall2
    (λ p p', Children p'
             = Children p
               ++ filter (λ c, is_Some (loaded !! c) ∧ parentOf loaded c = Some k) todo)
    (loaded !! k) (foldl wireStep loaded todo !! k).
Proof.
  revert loaded. induction todo as [|k0 rest IH]; intros loaded Hdir.
  - simpl. destruct (loaded !! k); constructor. by rewrite app_nil_r.
  - cbn [foldl]. specialize (IH (wireStep loaded k0)).
    assert (∀ dir, parentOf (wireStep loaded k0) dir = parentOf loaded dir) as Hdom.
    { intros dir. apply parentOf_dom. intros. apply wireStep_dom. }
    assert (∀ k p, wireStep loaded k0 !! k = Some p → PluginDir p = k) as Hdir1.
    { intros k' p' Hk'. pose proof (wireStep_lookup loaded k0 k') as Hs.
      rewrite Hk' in Hs. inversion Hs as [p ? [Hb _] Heq|]; subst.
      assert (PluginDir p' = PluginDir p) as -> by (by injection Hb).
      by apply Hdir. }
    specialize (IH Hdir1).
    pose proof (wireStep_children loaded k0 k Hdir) as Hs.
    destruct Hs as [p p1 Hc1|]; inversion IH as [p1' p2 Hc2 Heq1 Heq2|]; constructor.
    rewrite Hc2, Hc1, <- app_assoc. f_equal.
    rewrite (list_filter_iff _ (λ c, is_Some (loaded !! c) ∧ parentOf loaded c = Some k)).
    2:{ intros c. by rewrite wireStep_dom, Hdom. }
    rewrite filter_cons. by case_decide.
Qed.

(** The children of a plugin of the discovered batch: the directories of
    the batch whose parent lookup gives its directory, in the order of the
    wiring loop. *)
Lemma discoverPlugins_children E l class pluginJSONPaths k p :
  (discoverPlugins E l class pluginJSONPaths).2 !! k = Some p →
  ∃ keys,
    NoDup keys ∧
    (∀ c, c ∈ keys ↔ is_Some ((discoverPlugins E l class pluginJSONPaths).2 !! c)) ∧
    Children p
    = filter (λ c, parentOf (discoverPlugins E l class pluginJSONPaths).2 c = Some k) keys.
Proof.
  destruct (discoverPlugins_eq E l class pluginJSONPaths) as (l1 & l2 & l3 & found & Hr & ->).
  simpl.
  set (loaded := (createPluginsForLoading E l2 class _).2).
  intros Hk.
  assert (∀ k p, loaded !! k = Some p → PluginDir p = k ∧ Children p = []) as Hcr.
  { intros k' p' Hk'. unfold loaded in Hk'.
    rewrite createPluginsForLoading_lookup in Hk'.
    destruct (_ !! k') as [d|]; [|done]. simpl in Hk'.
    apply created_ok in Hk' as [Hb Hl]. split; [by injection Hb|by injection Hl]. }
  assert (∀ c, is_Some (wireDependencies E loaded !! c) ↔ is_Some (loaded !! c)) as Hdom.
  { intros c. pose proof (wireDependencies_lookup E loaded c) as H.
    inversion H; split; intros [? ?]; eauto; congruence. }
  exists (rangeMap (rangeRank E 2) loaded).*1.
  split; [apply NoDup_rangeMap_keys|]. split.
  { intros c. by rewrite elem_of_rangeMap_keys, Hdom. }
  pose proof (wire_children loaded (rangeMap (rangeRank E 2) loaded).*1 k
                (λ k p H, proj1 (Hcr k p H))) as Hw.
  fold (wireDependencies E loaded) in Hw. rewrite Hk in Hw.
  inversion Hw as [p0 p' Hc Hl0|]; subst. symmetry in Hl0.
  destruct (Hcr k p0 Hl0) as [_ Hnil]. rewrite Hc, Hnil. simpl.
  apply filter_ext_in. intros c Hc'. apply elem_of_rangeMap_keys in Hc'.
  rewrite (parentOf_dom (wireDependencies E loaded) loaded) by done. naive_solver.
Qed.

(** X18. After the dependency wiring the children lists mirror the parent
    pointers: a directory is among the children of a plugin of the batch
    exactly when the plugin in that directory has this plugin as its parent,
    and no child is listed twice. *)
Theorem children_mirror_parents (E : Env) (l : Loader) (class : Class)
  (pluginJSONPaths : list string) (parentDir : string) (parent : Plugin) :
  (discoverPlugins E l class pluginJSONPaths).2 !! parentDir = Some parent →
  NoDup (Children parent) ∧
  ∀ k, k ∈ Children parent
       ↔ ∃ child, (discoverPlugins E l class pluginJSONPaths).2 !! k = Some child ∧
                  Parent child = Some parentDir.
Proof.
  intros Hp.
  destruct (discoverPlugins_children E l class pluginJSONPaths parentDir parent Hp)
    as (keys & Hnd & Hkeys & ->).
  split; [by apply NoDup_filter|].
  intros k. rewrite list_elem_of_filter, Hkeys. split.
  - intros [Hpar [child Hchild]]. exists child. split; [done|].
    apply discoverPlugins_lookup in Hchild as (_ & _ & _ & _ & _ & _ & ->). done.
  - intros (child & Hchild & Hpar). split; [|eauto].
    apply discoverPlugins_lookup in Hchild as (_ & _ & _ & _ & _ & _ & Heq). congruence.
Qed.

Lemma children_mirror_parents_witness :
  ∃ parent,
    (discoverPlugins Sample.nested Sample.newLoader External Sample.nestedPaths).2 !! "/a"
    = Some parent ∧
    NoDup (Children parent) ∧
    ∀ k, k ∈ Children parent
         ↔ ∃ child,
             (discoverPlugins Sample.nested Sample.newLoader External
                Sample.nestedPaths).2 !! k = Some child ∧
             Parent child = Some "/a".
Proof.
  eexists. split; [vm_compute; reflexivity|].
  apply (children_mirror_parents Sample.nested Sample.newLoader External
           Sample.nestedPaths "/a").
  vm_compute. reflexivity.
Defined.

(** ** The dependency wiring: parents *)

Lemma absDir_nil : absDir [] = "/".
Proof. reflexivity. Qed.

Lemma absDir_inj names1 names2 :
  Forall (λ n, properName n = true) names1 →
  Forall (λ n, properName n = true) names2 →
  absDir names1 = absDir names2 → names1 = names2.
Proof.
  intros H1 H2 Heq.
  destruct names1 as [|n1 r1], names2 as [|n2 r2]; [done| | |].
  - apply (f_equal (Split "/")) in Heq.
    rewrite (Split_absDir (n2 :: r2)) in Heq by done.
    injection Heq as <- <-. by apply Forall_cons in H2 as [? _].
  - apply (f_equal (Split "/")) in Heq.
    rewrite (Split_absDir (n1 :: r1)) in Heq by done.
    injection Heq as -> ->. by apply Forall_cons in H1 as [? _].
  - apply (f_equal (Split "/")) in Heq.
    rewrite !Split_absDir in Heq by done. by injection Heq as -> ->.
Qed.

(** X19. The wiring gives the batch at most one level of nesting: when the
    directories are absolute and no plugin sits in the root directory, the
    parent of a plugin is another plugin of the batch that has no parent
    itself. *)
Theorem parents_have_no_parent (E : Env) (l : Loader) (class : Class)
  (pluginJSONPaths : list string) (k parentDir : string) (plugin : Plugin) :
  (discoverPlugins E l class pluginJSONPaths).2 !! k = Some plugin →
  IsAbs k = true →
  (discoverPlugins E l class pluginJSONPaths).2 !! "/" = None →
  Parent plugin = Some parentDir →
  parentDir ≠ k ∧
  ∃ parent,
    (discoverPlugins E l class pluginJSONPaths).2 !! parentDir = Some parent ∧
    Parent parent = None.
Proof.
  intros Hk Habs Hroot Hpar.
  set (batch := (discoverPlugins E l class pluginJSONPaths).2) in *.
  destruct (discovered_key_shape E l class pluginJSONPaths k) as (names & -> & Hnames);
    [by exists plugin|done|].
  pose proof Hk as Hlook.
  apply discoverPlugins_lookup in Hlook as (_ & _ & _ & _ & _ & _ & Hparent).
  fold batch in Hparent. rewrite Hpar in Hparent.
  assert (names ≠ []) as Hne.
  { intros ->. rewrite absDir_nil in Hk. congruence. }
  pose proof (parentOf_shallowest batch names Hnames Hne) as Hsh.
  rewrite <- Hparent in Hsh.
  destruct Hsh as (n & Hn & -> & [parent Hp] & Hmin).
  assert (n ≠ 0) as Hn0.
  { intros ->. rewrite take_0, absDir_nil in Hp. congruence. }
  split.
  - intros Heq. apply absDir_inj in Heq; [|by apply Forall_take|done].
    apply (f_equal List.length) in Heq. rewrite length_take in Heq. lia.
  - exists parent. split; [done|].
    pose proof Hp as Hlook.
    apply discoverPlugins_lookup in Hlook as (_ & _ & _ & _ & _ & _ & ->).
    fold batch.
    pose proof (parentOf_shallowest batch (take n names)) as Hsh.
    destruct (parentOf batch (absDir (take n names))) as [pd|]; [|done].
    destruct Hsh as (n' & Hn' & -> & Hsome & _).
    { by apply Forall_take. }
    { destruct names; [done|]. by destruct n. }
    rewrite length_take in Hn'. rewrite take_take in Hsome.
    rewrite Nat.min_l in Hsome by lia.
    rewrite Hmin in Hsome by lia. by destruct Hsome.
Qed.

Lemma parents_have_no_parent_witness :
  ∃ plugin,
    (discoverPlugins Sample.nested Sample.newLoader External Sample.nestedPaths).2
      !! "/a/b/c" = Some plugin ∧
    "/a" ≠ "/a/b/c" ∧
    ∃ parent,
      (discoverPlugins Sample.nested Sample.newLoader External Sample.nestedPaths).2
        !! "/a" = Some parent ∧
      Parent parent = None.
Proof.
  eexists. split; [vm_compute; reflexivity|].
  eapply (parents_have_no_parent Sample.nested Sample.newLoader External
            Sample.nestedPaths "/a/b/c" "/a"); vm_compute; reflexivity.
Defined.

(** ** Plugins nested in an app *)

Lemma setImages_outside E p p' :
  setImages E p = Ok p' → outsideImages p' = outsideImages p.
Proof.
  unfold setImages.
  destruct (assetPath_RelativeURL E p _ _) as [small|]; [|done].
  destruct (assetPath_RelativeURL E (setLogoSmall small p) _ _) as [large|]; [|done].
  intros Hs.
  pose proof (setScreenshots_spec E
                (List.length (info_Screenshots
                   (PluginInfo (JSON (setLogoLarge large (setLogoSmall small p))))))
                0 (setLogoLarge large (setLogoSmall small p)) ltac:(lia)) as H.
  rewrite Hs in H. by destruct H as (-> & _).
Qed.

Lemma created_urls E class dir d p :
  created E class dir d = Some p → IncludedInAppID p = "".
Proof.
  unfold created, createPluginBase.
  destruct (assetPath_Base E d class dir) as [b|]; [|done].
  destruct (assetPath_Module E d class dir) as [m|]; [|done].
  destruct (setImages E _) as [p0|] eqn:Hi; [|done].
  apply setImages_outside in Hi.
  destruct (initialSignature E p0); [|done]. intros [= <-]. simpl.
  unfold outsideImages in Hi. simpl in Hi. by injection Hi.
Qed.

Lemma wireStep_urls loaded k0 k :
  option_Forall2 (λ p p', urls p' = urls p) (loaded !! k) (wireStep loaded k0 !! k).
Proof.
  unfold wireStep.
  destruct (loaded !! k0) as [plugin|] eqn:Hk0.
  2:{ destruct (loaded !! k); by constructor. }
  destruct (parentOf loaded (PluginDir plugin)) as [pd|].
  2:{ destruct (loaded !! k); by constructor. }
  rewrite !lookup_alter.
  destruct (decide (pd = k)) as [->|Hpd], (decide (k0 = k)) as [->|Hk]; simpl;
    rewrite ?Hk0; simpl; destruct (loaded !! k); by constructor.
Qed.

Lemma wire_urls loaded todo k :
  option_Forall2 (λ p p', urls p' = urls p) (loaded !! k) (foldl wireStep loaded todo !! k).
Proof.
  revert loaded. induction todo as [|k0 rest IH]; intros loaded.
  - simpl. destruct (loaded !! k); by constructor.
  - cbn [foldl]. specialize (IH (wireStep loaded k0)).
    pose proof (wireStep_urls loaded k0 k) as Hs.
    destruct Hs as [p p1 H1|]; inversion IH as [p1' p2 H2|]; constructor. congruence.
Qed.

Lemma discovered_urls E l class pluginJSONPaths k p :
  (discoverPlugins E l class pluginJSONPaths).2 !! k = Some p → IncludedInAppID p = "".
Proof.
  destruct (discoverPlugins_eq E l class pluginJSONPaths) as (l1 & l2 & l3 & found & Hr & ->).
  simpl. set (loaded := (createPluginsForLoading E l2 class _).2). intros Hk.
  pose proof (wire_urls loaded (rangeMap (rangeRank E 2) loaded).*1 k) as Hw.
  fold (wireDependencies E loaded) in Hw. rewrite Hk in Hw.
  inversion Hw as [p0 p' Hu Hl0|]; subst. symmetry in Hl0.
  unfold loaded in Hl0. rewrite createPluginsForLoading_lookup in Hl0.
  destruct ((stripDuplicates E l1 found (registeredIDs l)).2 !! k) as [d|]; [|done].
  simpl in Hl0.
  apply created_urls in Hl0. unfold urls in Hu. injection Hu as _ _ ->. done.
Qed.

Lemma configureNav_urls E l p : urls (configureNav E l p).2 = urls p.
Proof.
  unfold configureNav. destruct (IsApp p); [|done]. by rewrite setDefaultNavURL_spec.
Qed.

Lemma IsCorePlugin_core p q : core p = core q → IsCorePlugin p = IsCorePlugin q.
Proof. intros H. destruct (core_eq _ _ H) as (_ & _ & _ & Hc). unfold IsCorePlugin. by rewrite Hc. Qed.

Lemma childModule_core E app app' child child' :
  core app = core app' → core child = core child' →
  childModule E app child = childModule E app' child'.
Proof.
  intros Ha Hc. unfold childModule. rewrite (IsCorePlugin_core _ _ Ha).
  destruct (core_eq _ _ Ha) as (-> & _ & -> & _).
  destruct (core_eq _ _ Hc) as (_ & _ & -> & _). done.
Qed.

(** What [configureChild] makes of a plugin: nested in an app, it gets the
    app's base URL and ID and its module path below the app; otherwise it
    stays as it is. *)
Lemma configureChild_cases E store p :
  match Parent p with
  | Some parentDir =>
      match store !! parentDir with
      | Some parent =>
          if IsApp parent
          then urls (configureChild E store p)
               = (BaseURL parent, childModule E parent p, ID (JSON parent))
          else configureChild E store p = p
      | None => configureChild E store p = p
      end
  | None => configureChild E store p = p
  end.
Proof.
  unfold configureChild. destruct (Parent p) as [pd|]; [|done].
  destruct (store !! pd) as [parent|]; [|done].
  destruct (IsApp parent) eqn:Happ; [|done].
  unfold configureAppChildPlugin, childModule. rewrite Happ. simpl.
  by destruct (IsCorePlugin parent).
Qed.

Lemma nestingInv_step E loaded0 st k rest st' :
  (∀ k p0, loaded0 !! k = Some p0 → DefaultNavURL p0 = "") →
  validationInv E loaded0 st (k :: rest) →
  nestingInv E loaded0 st.1.2 st.2 →
  k ∉ rest →
  validateStep E st k = Continue st' →
  nestingInv E loaded0 st'.1.2 st'.2.
Proof.
  intros Hnav0. destruct st as [[l store] verified], st' as [[l' store'] verified'].
  intros Hinv Hnest Hk Hstep. simpl in *.
  pose proof Hinv as (Ha & Hb & Hc & _).
  assert (k ∉ verified) as Hkv.
  { intros Hin. destruct (Hc k Hin) as [Hnot _]. apply Hnot. left. }
  apply validateStep_Continue in Hstep.
  assert (store !! k = loaded0 !! k) as Hsk by (apply Ha; left).
  rewrite Hsk in Hstep.
  destruct (loaded0 !! k) as [pk|] eqn:Hk0.
  2:{ by destruct Hstep as (_ & -> & ->). }
  destruct (signatureValidator_Validate E store pk) as [e|].
  { destruct Hstep as (-> & -> & _). intros k' p0 p Hk' Hp.
    destruct (decide (k' = k)) as [->|Hne].
    - rewrite lookup_insert_eq in Hp. injection Hp as <-.
      rewrite decide_False by done. by assert (p0 = pk) as -> by congruence.
    - rewrite lookup_insert_ne in Hp by done. by apply Hnest. }
  destruct Hstep as (-> & _ & l1 & ->).
  pose proof (configureNav_fields E l1 pk) as Hn. cbv zeta in Hn.
  pose proof (configureNav_urls E l1 pk) as Hnu.
  set (p2 := (configureNav E l1 pk).2) in *.
  destruct Hn as (Hcore2 & Hlinks2 & _).
  intros k' p0 p Hk' Hp.
  destruct (decide (k' = k)) as [->|Hne].
  2:{ rewrite lookup_insert_ne in Hp by done.
      specialize (Hnest k' p0 p Hk' Hp).
      destruct (decide (k' ∈ verified)) as [Hin|Hnin].
      - rewrite decide_True by (apply elem_of_app; by left). done.
      - rewrite decide_False; [done|]. rewrite elem_of_app, list_elem_of_singleton.
        naive_solver. }
  rewrite lookup_insert_eq in Hp. injection Hp as <-.
  assert (p0 = pk) as -> by congruence.
  rewrite decide_True by (apply elem_of_app; right; left).
  pose proof (configureChild_cases E (<[k := p2]> store) p2) as Hcc.
  assert (Parent p2 = Parent pk) as Hpar by (by injection Hlinks2).
  unfold appOf. rewrite Hpar in Hcc.
  destruct (Parent pk) as [pd|].
  2:{ rewrite Hcc. done. }
  destruct (decide (pd = k)) as [->|Hpd].
  - rewrite lookup_insert_eq in Hcc. rewrite Hk0.
    rewrite (core_IsApp p2 pk Hcore2) in Hcc.
    destruct (IsApp pk); [|by rewrite Hcc].
    unfold urls in Hcc, Hnu. injection Hcc as HB HM HI. injection Hnu as HB2 _ _.
    rewrite HI, HM. destruct (core_eq _ _ Hcore2) as (-> & _).
    split; [done|]. split; [by apply childModule_core|]. intros _. congruence.
  - rewrite lookup_insert_ne in Hcc by done.
    pose proof (Hb pd) as Hbpd.
    destruct (loaded0 !! pd) as [par0|] eqn:Hpd0, (store !! pd) as [par|] eqn:Hspd;
      inversion Hbpd as [? ? [Hcp _]|]; subst.
    2:{ by rewrite Hcc. }
    rewrite (core_IsApp par par0 Hcp) in Hcc.
    destruct (IsApp par0); [|by rewrite Hcc].
    unfold urls in Hcc. injection Hcc as HB HM HI.
    rewrite HI, HM. destruct (core_eq _ _ Hcp) as (-> & _).
    split; [done|]. split; [by apply childModule_core|]. intros Hnone.
    rewrite HB.
    specialize (Hnest pd par0 par Hpd0 Hspd).
    unfold appOf in Hnest. rewrite Hnone in Hnest.
    assert (urls par = urls par0) as Hu by (by destruct (decide (pd ∈ verified))).
    unfold urls in Hu. by injection Hu.
Qed.

Lemma verifyPlugins_nesting E l class pluginJSONPaths l1 store verified :
  verifyPlugins E l class pluginJSONPaths = Continue (l1, store, verified) →
  validationInv E (discoverPlugins E l class pluginJSONPaths).2 (l1, store, verified) [] ∧
  nestingInv E (discoverPlugins E l class pluginJSONPaths).2 store verified.
Proof.
  unfold verifyPlugins.
  pose proof (discovered_nav E l class pluginJSONPaths) as Hnav.
  destruct (discoverPlugins E l class pluginJSONPaths) as [l0 loaded0]. simpl in Hnav.
  intros Hloop.
  set (Inv := λ (st : Loader * gmap string Plugin * list string) (todo : list string),
                validationInv E loaded0 st todo ∧ nestingInv E loaded0 st.1.2 st.2).
  assert (Inv (l1, store, verified) []) as H; [|exact H].
  eapply (validateLoop_ind E Inv); [| | |exact Hloop].
  - intros st k rest st' [Hi Hn] Hk Hstep. split.
    + eapply validationInv_step; [|exact Hi|exact Hk|exact Hstep].
      intros k' p0 Hk'. by destruct (Hnav k' p0 Hk').
    + eapply nestingInv_step; [|exact Hi|exact Hn|exact Hk|exact Hstep].
      intros k' p0 Hk'. by destruct (Hnav k' p0 Hk').
  - apply NoDup_rangeMap_keys.
  - split.
    + apply validationInv_start. intros k. apply elem_of_rangeMap_keys.
    + intros k p0 p Hk0 Hk. cbn in Hk.
      destruct (decide (k ∈ [])) as [Hin|_]; [by apply not_elem_of_nil in Hin|].
      congruence.
Qed.

(** X20. A plugin Load returns is attributed to the app it is nested in:
    when its parent is an app, it carries the app's ID and a module path
    below the app's (under app/plugins/app/ for a core app, under plugins/
    otherwise), and the app's base URL when the app is not nested itself,
    whether or not the app was accepted by the validator; a plugin with no
    parent, or whose parent is not an app, is included in no app and keeps
    the base URL and module path it was created with. *)
Theorem nested_plugins_are_attributed_to_their_app (E : Env) (l l' : Loader)
  (class : Class) (paths pluginJSONPaths : list string) (ps : list Plugin) (p : Plugin) :
  finder_Find E paths = Ok pluginJSONPaths →
  Load E l class paths = (l', Ok ps) →
  p ∈ ps →
  ∃ p0,
    (discoverPlugins E l class pluginJSONPaths).2 !! PluginDir p = Some p0 ∧
    Parent p = Parent p0 ∧
    match appOf (discoverPlugins E l class pluginJSONPaths).2 p with
    | Some app =>
        IncludedInAppID p = ID (JSON app) ∧
        Module_ p = childModule E app p ∧
        (Parent app = None → BaseURL p = BaseURL app)
    | None =>
        IncludedInAppID p = "" ∧ BaseURL p = BaseURL p0 ∧ Module_ p = Module_ p0
    end.
Proof.
  intros Hfind Hload Hin.
  destruct (Load_Ok_inv E l class paths pluginJSONPaths l' ps Hfind Hload)
    as (l1 & store & verified & Hver & _ & Hps & _).
  apply verifyPlugins_nesting in Hver as [Hinv Hnest].
  rewrite Hps in Hin.
  destruct (verified_plugin E _ l1 store verified p Hinv)
    as (p0 & Hp0 & Hcore & Hlinks & Hv & Hp); [|done|].
  { intros k q Hk. by apply (discovered_nav E l class pluginJSONPaths). }
  exists p0. split; [done|].
  assert (Parent p = Parent p0) as Hpar by (by injection Hlinks).
  split; [done|].
  specialize (Hnest (PluginDir p) p0 p Hp0 Hp). rewrite decide_True in Hnest by done.
  assert (appOf (discoverPlugins E l class pluginJSONPaths).2 p
          = appOf (discoverPlugins E l class pluginJSONPaths).2 p0) as ->.
  { unfold appOf. by rewrite Hpar. }
  destruct (appOf _ p0) as [app|].
  - destruct Hnest as (HI & HM & HB). split; [done|]. split; [|done].
    rewrite HM. by apply childModule_core.
  - unfold urls in Hnest. injection Hnest as HB HM HI.
    rewrite HI. by rewrite (discovered_urls E l class pluginJSONPaths _ _ Hp0).
Qed.

Lemma nested_plugins_are_attributed_to_their_app_witness :
  Forall (λ p, ∃ p0,
            (discoverPlugins Sample.nested Sample.newLoader External
               Sample.nestedPaths).2 !! PluginDir p = Some p0 ∧
            Parent p = Parent p0 ∧
            match appOf (discoverPlugins Sample.nested Sample.newLoader External
                           Sample.nestedPaths).2 p with
            | Some app =>
                IncludedInAppID p = ID (JSON app) ∧
                Module_ p = childModule Sample.nested app p ∧
                (Parent app = None → BaseURL p = BaseURL app)
            | None =>
                IncludedInAppID p = "" ∧ BaseURL p = BaseURL p0 ∧ Module_ p = Module_ p0
            end)
    match (Load Sample.nested Sample.newLoader External Sample.nestedPaths).2 with
    | Ok ps => ps
    | Err _ => []
    end.
Proof.
  apply Forall_forall. intros p Hp.
  apply (nested_plugins_are_attributed_to_their_app Sample.nested Sample.newLoader
           (Load Sample.nested Sample.newLoader External Sample.nestedPaths).1
           External Sample.nestedPaths Sample.nestedPaths
           match (Load Sample.nested Sample.newLoader External Sample.nestedPaths).2 with
           | Ok ps => ps
           | Err _ => []
           end p); [vm_compute; reflexivity|vm_compute; reflexivity|exact Hp].
Defined.

(** ** setDefaultNavURL: the slugs *)

Lemma slugged_spec E i :
  inc_Slug (slugged E i)
  = (if String.eqb (inc_Slug i) "" then slugify_Slugify E (inc_Name i) else inc_Slug i)
  ∧ setSlug (inc_Slug i) (slugged E i) = i.
Proof.
  unfold slugged. destruct i as [n pa ty ro dn sl uid]. simpl.
  by destruct (String.eqb sl "").
Qed.

Lemma lastNavURL_twice E id start incs :
  lastNavURL E id (lastNavURL E id start incs) incs = lastNavURL E id start incs.
Proof. unfold lastNavURL. by destruct (last (omap (navTarget E id) incs)). Qed.

(** X21. [setDefaultNavURL] gives every include a slug, the one it had or,
    when it had none, its slugified name, and leaves the includes otherwise
    as they are, in number and order; of the rest of the plugin only the
    default navigation URL can change; and calling it again on its result
    changes nothing. *)
Theorem setDefaultNavURL_fills_slugs (E : Env) (l : Loader) (p : Plugin) :
  Forall2 (λ before after,
             inc_Slug after
             = (if String.eqb (inc_Slug before) ""
                then slugify_Slugify E (inc_Name before) else inc_Slug before)
             ∧ setSlug (inc_Slug before) after = before)
    (PluginIncludes (JSON p)) (PluginIncludes (JSON (setDefaultNavURL E l p).2)) ∧
  setDefaultNav (DefaultNavURL p)
    (setJSON (setIncludes (PluginIncludes (JSON p)) (JSON (setDefaultNavURL E l p).2))
       (setDefaultNavURL E l p).2) = p ∧
  ∀ l2, (setDefaultNavURL E l2 (setDefaultNavURL E l p).2).2 = (setDefaultNavURL E l p).2.
Proof.
  rewrite setDefaultNavURL_spec. cbn [snd]. split; [|split].
  - simpl. apply Forall2_fmap_r, Forall_Forall2_diag, Forall_forall.
    intros i _. apply slugged_spec.
  - destruct p as [[id ty nm info deps incs] dir cls b m nav app par ch s1 s2 s3 se]. done.
  - intros l2. rewrite setDefaultNavURL_spec. cbn [snd]. simpl.
    rewrite lastNavURL_slugged, lastNavURL_twice.
    assert (slugged E <$> (slugged E <$> PluginIncludes (JSON p))
            = slugged E <$> PluginIncludes (JSON p)) as ->; [|done].
    rewrite <- list_fmap_compose. apply list_fmap_ext. intros ? i _. apply slugged_idem.
Qed.

(** ** Load: nothing to load *)

Lemma rangeMap_empty {V} (rank : string → nat) : rangeMap rank (∅ : gmap string V) = [].
Proof. apply Permutation_nil_r. by rewrite rangeMap_perm, map_to_list_empty. Qed.

Lemma readManifests_origin E l paths dir d :
  (readManifests E l paths).2 !! dir = Some d →
  ∃ path, path ∈ paths ∧ manifestAt E path = Some (dir, d).
Proof.
  unfold readManifests. rewrite readManifests_fold, lookup_empty.
  induction paths as [|path rest IH]; simpl; [done|].
  destruct (manifestAt E path) as [[k plugin]|] eqn:Hm; simpl.
  - destruct (String.eqb_spec k dir) as [->|Hne]; simpl.
    + intros [= <-]. exists path. split; [left|done].
    + intros H. destruct (IH H) as (path' & Hin & Hp). exists path'. split; [by right|done].
  - intros H. destruct (IH H) as (path' & Hin & Hp). exists path'. split; [by right|done].
Qed.

(** X22. Manifests that cannot be read and manifests of plugins that are
    already installed are skipped, they are no error: when each path the
    finder returns gives no manifest or one whose ID a registered plugin has
    (in particular when the finder returns no path), Load returns an empty
    list and no error, and all it has done is to log. *)
Theorem Load_skips_unreadable_and_installed (E : Env) (l : Loader) (class : Class)
  (paths pluginJSONPaths : list string) :
  finder_Find E paths = Ok pluginJSONPaths →
  Forall (λ path, match manifestAt E path with
                  | Some (_, pluginJSON) => ID pluginJSON ∈ registeredIDs l
                  | None => True
                  end) pluginJSONPaths →
  ∃ l', Load E l class paths = (l', Ok []) ∧ logsOnly l l'.
Proof.
  intros Hfind Hskip.
  assert ((discoverPlugins E l class pluginJSONPaths).2 = ∅) as Hempty.
  { apply map_empty. intros k.
    destruct (_ !! k) as [p|] eqn:Hk; [|done].
    apply discoverPlugins_lookup in Hk as (d & _ & Hd & Hnew & _).
    apply readManifests_origin in Hd as (path & Hin & Hm).
    rewrite Forall_forall in Hskip. specialize (Hskip path Hin).
    rewrite Hm in Hskip. done. }
  unfold Load, loadPlugins, verifyPlugins. rewrite Hfind.
  pose proof (logsOnly_discoverPlugins E l class pluginJSONPaths) as Hlogs.
  destruct (discoverPlugins E l class pluginJSONPaths) as [l0 loaded0].
  simpl in Hempty, Hlogs. subst loaded0. rewrite rangeMap_empty. simpl.
  exists l0. done.
Qed.

Lemma Load_skips_unreadable_and_installed_witness :
  ∃ l',
    Load Sample.siblings
      (Load Sample.siblings Sample.newLoader External Sample.siblingPaths).1
      External Sample.siblingPaths = (l', Ok []) ∧
    logsOnly (Load Sample.siblings Sample.newLoader External Sample.siblingPaths).1 l'.
Proof.
  apply (Load_skips_unreadable_and_installed Sample.siblings
           (Load Sample.siblings Sample.newLoader External Sample.siblingPaths).1
           External Sample.siblingPaths Sample.siblingPaths); [vm_compute; reflexivity|].
  repeat (apply Forall_cons; split;
          [apply (bool_decide_unpack _); vm_compute; exact I|]).
  by apply Forall_nil.
Defined.

(** ** Load: the registry afterwards *)

Lemma foldl_loadStep_lookup E vs l id :
  pluginRegistry (foldl (loadStep E) l vs) !! id
  = match pluginRegistry l !! id with
    | Some q => Some q
    | None => List.find (λ p, String.eqb (ID (JSON p)) id) vs
    end.
Proof.
  revert l. induction vs as [|p vs IH]; intros l; simpl.
  { by destruct (pluginRegistry l !! id). }
  rewrite IH, loadStep_registry.
  destruct (String.eqb_spec (ID (JSON p)) id) as [<-|Hne].
  - destruct (pluginRegistry l !! ID (JSON p)) as [q|] eqn:Hq; [by rewrite Hq|].
    by rewrite lookup_insert_eq.
  - destruct (pluginRegistry l !! ID (JSON p)); [done|].
    by rewrite lookup_insert_ne.
Qed.

(** X23. After a Load that succeeds the registry holds what it held before
    and, under each ID that was free, the first of the returned plugins with
    that ID: a registered plugin is never replaced or removed, and of two
    returned plugins with the same ID only the first is registered. *)
Theorem Load_registers_first_of_each_ID (E : Env) (l l' : Loader) (class : Class)
  (paths : list string) (ps : list Plugin) (id : string) :
  Load E l class paths = (l', Ok ps) →
  pluginRegistry l' !! id
  = match pluginRegistry l !! id with
    | Some q => Some q
    | None => List.find (λ p, String.eqb (ID (JSON p)) id) ps
    end.
Proof.
  unfold Load. destruct (finder_Find E paths) as [jp|]; [|done].
  unfold loadPlugins.
  pose proof (quiet_verifyPlugins E l class jp) as Hq.
  destruct (verifyPlugins E l class jp) as [[[l1 store] verified]|]; [|done].
  simpl in Hq. destruct Hq as [Hreg _].
  pose proof (initializeLoop_cases E l1 (omap (λ k, store !! k) verified)) as Hcases.
  destruct (initializeLoop E l1 _) as [l2 [e|]] eqn:Hinit; [done|].
  simpl in Hcases. intros [= <- <-].
  rewrite (initializeLoop_ok E l1 _ Hcases) in Hinit. injection Hinit as <-.
  rewrite foldl_loadStep_lookup. simpl. by rewrite Hreg.
Qed.

Lemma Load_registers_first_of_each_ID_witness :
  pluginRegistry (Load Sample.twins Sample.newLoader External Sample.twinPaths).1 !! "twin"
  = match pluginRegistry Sample.newLoader !! "twin" with
    | Some q => Some q
    | None =>
        List.find (λ p, String.eqb (ID (JSON p)) "twin")
          match (Load Sample.twins Sample.newLoader External Sample.twinPaths).2 with
          | Ok ps => ps
          | Err _ => []
          end
    end.
Proof.
  apply (Load_registers_first_of_each_ID Sample.twins Sample.newLoader
           (Load Sample.twins Sample.newLoader External Sample.twinPaths).1
           External Sample.twinPaths).
  vm_compute. reflexivity.
Defined.

(** ** Load: core plugins and module.js *)

Lemma discovered_class E l class pluginJSONPaths k p :
  (discoverPlugins E l class pluginJSONPaths).2 !! k = Some p → PluginClass p = class.
Proof.
  intros H. apply discoverPlugins_lookup in H as (d & p0 & _ & _ & Hc & Hb & _).
  apply created_ok in Hc as [Hb0 _]. rewrite <- Hb in Hb0.
  unfold base, core in Hb0. by injection Hb0.
Qed.

(** X24. The module.js check does not apply to core plugins: a Load of
    class core never fails with an error of the file system, only with the
    finder's error or with the initializer's error for one of its plugins. *)
Theorem core_plugins_need_no_module_js (E : Env) (l l' : Loader) (paths : list string)
  (e : error) :
  Load E l Core paths = (l', Err e) →
  (∃ m, finder_Find E paths = Err m ∧ e = ErrExternal m) ∨
  (∃ p m, PluginClass p = Core ∧ pluginInitializer_Initialize E p = Some m ∧
          e = ErrExternal m).
Proof.
  intros Hload. pose proof Hload as Hinv.
  apply Load_inv in Hinv as [(m & Hfind & [= ->] & _)|(jp & Hfind & Hinv)];
    [left; eauto|].
  destruct Hinv as [(e' & Hver & [= <-])|(l1 & store & verified & Hver & Hinv & _)].
  - apply verifyPlugins_Return in Hver as (dir & p & m & Hp & _ & _ & Hcore & _).
    apply discovered_class in Hp. apply IsCorePlugin_false in Hcore. done.
  - right. unfold Load in Hload. rewrite Hfind in Hload. unfold loadPlugins in Hload.
    rewrite Hver in Hload.
    pose proof (initializeLoop_cases E l1 (omap (λ k, store !! k) verified)) as Hcases.
    destruct (initializeLoop E l1 _) as [l2 [e2|]]; [|done].
    injection Hload as _ ->. simpl in Hcases.
    destruct Hcases as (pre & p & post & m & Hvs & _ & Hp & ->).
    exists p, m. split; [|done].
    destruct (verified_plugin E _ l1 store verified p Hinv) as (p0 & Hp0 & Hc & _).
    + intros k q Hk. by apply (discovered_nav E l Core jp).
    + rewrite Hvs. apply elem_of_app. right. left.
    + apply discovered_class in Hp0. destruct (core_eq _ _ Hc) as (_ & _ & _ & ->). done.
Qed.

Lemma core_plugins_need_no_module_js_witness :
  (∃ m, finder_Find Scenarios.coreFailingInitializer Sample.siblingPaths = Err m ∧
        ErrExternal "backend wiring failed" = ErrExternal m) ∨
  (∃ p m, PluginClass p = Core ∧
          pluginInitializer_Initialize Scenarios.coreFailingInitializer p = Some m ∧
          ErrExternal "backend wiring failed" = ErrExternal m).
Proof.
  apply (core_plugins_need_no_module_js Scenarios.coreFailingInitializer Sample.newLoader
           (Load Scenarios.coreFailingInitializer Sample.newLoader Core
              Sample.siblingPaths).1
           Sample.siblingPaths (ErrExternal "backend wiring failed")).
  vm_compute. reflexivity.
Defined.

(** ** Load: what is registered and started *)

Lemma loadStep_registration E l p :
  ∃ evs, events (loadStep E l p) = events l ++ evs ∧
         Forall (λ ev, isLog ev ∨ registrationOf p ev) evs.
Proof.
  unfold loadStep. pose proof (load_outcomes E l p) as H. cbv zeta in H.
  destruct (Registry.Add (pluginRegistry l) p) as [r [m|]].
  { rewrite H. simpl. eexists. split; [done|].
    apply Forall_cons. split; [by left|done]. }
  destruct (negb (IsCorePlugin p)); (destruct (IsExternalPlugin p) eqn:Hext;
    [apply IsExternalPlugin_spec in Hext|]);
    try destruct (pluginStorage_Register E _ _);
    rewrite H; try destruct (processManager_Start E (ID (JSON p))); simpl;
    rewrite <- ?app_assoc; (eexists; split; [reflexivity|]);
    repeat (apply Forall_cons; split;
            [first [by left | by right; left | by right; right]|]);
    by apply Forall_nil.
Qed.

Lemma foldl_loadStep_registration E vs l :
  ∃ evs, events (foldl (loadStep E) l vs) = events l ++ evs ∧
         Forall (λ ev, isLog ev ∨ ∃ p, p ∈ vs ∧ registrationOf p ev) evs.
Proof.
  revert l. induction vs as [|p vs IH]; intros l; simpl.
  { exists []. by rewrite app_nil_r. }
  destruct (loadStep_registration E l p) as (e1 & He1 & Hf1).
  destruct (IH (loadStep E l p)) as (e2 & He2 & Hf2).
  exists (e1 ++ e2). rewrite He2, He1, app_assoc. split; [done|].
  apply Forall_app. split.
  - eapply Forall_impl; [exact Hf1|]. intros ev [Hl|Hr]; [by left|].
    right. exists p. split; [left|done].
  - eapply Forall_impl; [exact Hf2|]. intros ev [Hl|(q & Hq & Hr)]; [by left|].
    right. exists q. split; [by right|done].
Qed.

(** X25. A Load that succeeds asks storage to register, and the process
    manager to start, only plugins it returns: after the discovery, the
    validation and the initialization, each call it makes is the storage
    registration of a returned external plugin under its own directory or
    the start of a returned plugin; it makes no such call for a plugin it
    does not return. *)
Theorem Load_registers_only_what_it_returns (E : Env) (l l' : Loader) (class : Class)
  (paths : list string) (ps : list Plugin) :
  Load E l class paths = (l', Ok ps) →
  ∃ before registration,
    events l' = events l ++ before ++ registration ∧
    Forall (λ ev, isLog ev ∨ isInitialization ev) before ∧
    Forall (λ ev, isLog ev ∨ ∃ p, p ∈ ps ∧ registrationOf p ev) registration.
Proof.
  unfold Load. destruct (finder_Find E paths) as [jp|]; [|done].
  unfold loadPlugins.
  pose proof (quiet_verifyPlugins E l class jp) as Hq.
  destruct (verifyPlugins E l class jp) as [[[l1 store] verified]|]; [|done].
  simpl in Hq. destruct Hq as [_ (logs & Hev & Hlogs)].
  pose proof (initializeLoop_cases E l1 (omap (λ k, store !! k) verified)) as Hcases.
  destruct (initializeLoop E l1 _) as [l2 [e|]] eqn:Hinit; [done|].
  simpl in Hcases. intros [= <- <-].
  rewrite (initializeLoop_ok E l1 _ Hcases) in Hinit. injection Hinit as <-.
  destruct (foldl_loadStep_registration E (omap (λ k, store !! k) verified)
              (mkLoader (pluginRegistry l1) (errs l1)
                 (events l1 ++ flat_map (initializedEvents E)
                                 (omap (λ k, store !! k) verified))))
    as (regs & Hregs & Hf).
  exists (logs ++ flat_map (initializedEvents E) (omap (λ k, store !! k) verified)), regs.
  rewrite Hregs. simpl. rewrite Hev, <- !app_assoc. split; [done|]. split; [|done].
  apply Forall_app. split; [|apply initializedEvents_kinds].
  eapply Forall_impl; [exact Hlogs|]. by left.
Qed.

Lemma Load_registers_only_what_it_returns_witness :
  ∃ before registration,
    events (Load Sample.siblingsXInvalid Sample.newLoader External Sample.siblingPaths).1
    = events Sample.newLoader ++ before ++ registration ∧
    Forall (λ ev, isLog ev ∨ isInitialization ev) before ∧
    Forall (λ ev, isLog ev
                  ∨ ∃ p, p ∈ match (Load Sample.siblingsXInvalid Sample.newLoader External
                                      Sample.siblingPaths).2 with
                             | Ok ps => ps
                             | Err _ => []
                             end ∧ registrationOf p ev) registration.
Proof.
  apply (Load_registers_only_what_it_returns Sample.siblingsXInvalid Sample.newLoader
           (Load Sample.siblingsXInvalid Sample.newLoader External Sample.siblingPaths).1
           External Sample.siblingPaths).
  vm_compute. reflexivity.
Defined.

(** ** Load: the signature of the returned plugins *)









